(** * pheniqs-build-api: the package lifecycle, its progress cache,
    the mirror download and the directory preparation

  A shallow embedding of [pheniqs-build-api.py].  Python dictionaries are
  insertion-ordered association lists of JSON values, strings are [string]
  (a byte per character), the file system is the view [os.stat] gives of
  it, and every effect of the program on its surroundings (a log record, a
  network request, a child process, a file written or removed) is appended
  to one trace.  What the surroundings answer (a server, a child process,
  the clock) is read from an [oracle]. *)

From Stdlib Require Import List String Ascii ZArith Bool Lia Arith.
From Stdlib Require Import Permutation Sorted DecimalString.
From Stdlib Require OrderedTypeEx.
Import ListNotations.
Local Open Scope list_scope.
Local Open Scope string_scope.

Set Warnings "-register-all".

(* ================================================================== *)
(** * Python strings *)

Module Py.

(** [s.rfind(c)]: the index of the last [c] in [s], or -1. *)
Fixpoint rfind_from (c : ascii) (s : string) (i found : Z) : Z :=
  match s with
  | EmptyString => found
  | String a r => rfind_from c r (i + 1) (if Ascii.eqb a c then i else found)
  end.

Definition rfind (c : ascii) (s : string) : Z := rfind_from c s 0 (-1).

Definition len (s : string) : Z := Z.of_nat (String.length s).

(** An index of a slice of a string of length [n]: a negative one counts
    from the end, and it is clipped to the string. *)
Definition clip (n i : Z) : Z :=
  if (i <? 0)%Z then Z.max 0 (i + n) else Z.min i n.

(** [s[i:j]]. *)
Definition slice (i j : Z) (s : string) : string :=
  let a := clip (len s) i in
  let b := clip (len s) j in
  substring (Z.to_nat a) (Z.to_nat (b - a)) s.

(** [s[i:]] and [s[:j]]. *)
Definition slice_from (i : Z) (s : string) : string := slice i (len s) s.
Definition slice_to (j : Z) (s : string) : string := slice 0 j s.

Fixpoint mem (c : ascii) (chars : string) : bool :=
  match chars with
  | EmptyString => false
  | String a r => Ascii.eqb a c || mem c r
  end.

Fixpoint lstrip (chars s : string) : string :=
  match s with
  | EmptyString => EmptyString
  | String a r => if mem a chars then lstrip chars r else s
  end.

Fixpoint rstrip (chars s : string) : string :=
  match s with
  | EmptyString => EmptyString
  | String a r =>
      match rstrip chars r with
      | EmptyString => if mem a chars then EmptyString else String a EmptyString
      | r' => String a r'
      end
  end.

(** [s.strip(chars)]: characters of [chars] removed at both ends. *)
Definition strip (chars s : string) : string := lstrip chars (rstrip chars s).

Definition startswith (p s : string) : bool := String.prefix p s.

Fixpoint endswith_char (c : ascii) (s : string) : bool :=
  match s with
  | EmptyString => false
  | String a EmptyString => Ascii.eqb a c
  | String _ r => endswith_char c r
  end.

(** [s.split(c)] for a one-character separator. *)
Fixpoint split (c : ascii) (s : string) : list string :=
  match s with
  | EmptyString => [EmptyString]
  | String a r =>
      if Ascii.eqb a c then EmptyString :: split c r
      else match split c r with
           | w :: ws => String a w :: ws
           | [] => [String a EmptyString]
           end
  end.

(** [sep.join(l)]. *)
Definition join (sep : string) (l : list string) : string := String.concat sep l.

(** [s.strip()]: the white space of ASCII removed at both ends. *)
Definition whitespace : string :=
  string_of_list_ascii
    (map ascii_of_nat [9; 10; 11; 12; 13; 28; 29; 30; 31; 32]).

Definition hexdigit (n : nat) : ascii :=
  match n with
  | 0 => "0" | 1 => "1" | 2 => "2" | 3 => "3" | 4 => "4" | 5 => "5"
  | 6 => "6" | 7 => "7" | 8 => "8" | 9 => "9" | 10 => "a" | 11 => "b"
  | 12 => "c" | 13 => "d" | 14 => "e" | _ => "f"
  end%char.

Definition hex2 (n : nat) : string :=
  String (hexdigit (n / 16)) (String (hexdigit (n mod 16)) EmptyString).

Definition apostrophe : ascii := ascii_of_nat 39.
Definition quotation : ascii := ascii_of_nat 34.
Definition backslash : ascii := ascii_of_nat 92.

(** The quote [repr] writes a text between: the apostrophe, unless the text
    has one and no quotation mark. *)
Definition repr_quote (s : string) : ascii :=
  if mem apostrophe s && negb (mem quotation s) then quotation else apostrophe.

(** One character inside [repr(s)]; [high] says whether a character from 127
    on is written as an escape ([repr] of [bytes]) or as it is ([repr] of
    [str], where the ones that are not printable are escapes too: the text
    is taken to have none). *)
Definition repr_char (high : bool) (q c : ascii) : string :=
  let n := nat_of_ascii c in
  if Ascii.eqb c q || Ascii.eqb c backslash
  then String backslash (String c EmptyString)
  else if (n =? 9)%nat then String backslash "t"
  else if (n =? 10)%nat then String backslash "n"
  else if (n =? 13)%nat then String backslash "r"
  else if (n <? 32)%nat || (n =? 127)%nat || (high && (127 <? n)%nat)
       then String backslash ("x" ++ hex2 n)
  else String c EmptyString.

Fixpoint repr_chars (high : bool) (q : ascii) (s : string) : string :=
  match s with
  | EmptyString => EmptyString
  | String c r => repr_char high q c ++ repr_chars high q r
  end.

(** [repr(s)] for a [str] and for a [bytes]. *)
Definition repr (s : string) : string :=
  let q := repr_quote s in
  String q (repr_chars false q s ++ String q EmptyString).

Definition repr_bytes (s : string) : string :=
  let q := repr_quote s in
  String "b" (String q (repr_chars true q s ++ String q EmptyString)).

(** Is a sequence of bytes well-formed UTF-8 (no overlong form, no
    surrogate, nothing above U+10FFFF)? *)
Definition continuation (b : nat) : bool := ((128 <=? b) && (b <=? 191))%nat.

Fixpoint utf8 (l : list nat) : bool :=
  match l with
  | [] => true
  | b0 :: r =>
      if (b0 <? 128)%nat then utf8 r
      else if ((194 <=? b0) && (b0 <=? 223))%nat then
        match r with
        | b1 :: r1 => continuation b1 && utf8 r1
        | _ => false
        end
      else if ((224 <=? b0) && (b0 <=? 239))%nat then
        match r with
        | b1 :: b2 :: r2 =>
            (if (b0 =? 224)%nat then ((160 <=? b1) && (b1 <=? 191))%nat
             else if (b0 =? 237)%nat then ((128 <=? b1) && (b1 <=? 159))%nat
             else continuation b1)
            && continuation b2 && utf8 r2
        | _ => false
        end
      else if ((240 <=? b0) && (b0 <=? 244))%nat then
        match r with
        | b1 :: b2 :: b3 :: r3 =>
            (if (b0 =? 240)%nat then ((144 <=? b1) && (b1 <=? 191))%nat
             else if (b0 =? 244)%nat then ((128 <=? b1) && (b1 <=? 143))%nat
             else continuation b1)
            && continuation b2 && continuation b3 && utf8 r3
        | _ => false
        end
      else false
  end.

(** [fmt.format(args)] for the replacement field [{}]. *)
Fixpoint format (fmt : string) (args : list string) : string :=
  match fmt with
  | String "{" (String "}" r) =>
      match args with
      | a :: rest => a ++ format r rest
      | [] => format r []
      end
  | String c r => String c (format r args)
  | EmptyString => EmptyString
  end.

End Py.

(* ================================================================== *)
(** * [os.path] on POSIX *)

Module os_path.

Definition sep : ascii := "/"%char.
Definition extsep : ascii := "."%char.

Definition all_sep (s : string) : bool :=
  match Py.rstrip (String sep EmptyString) s with
  | EmptyString => true
  | _ => false
  end.

(** [os.path.split(p)]: the text up to the last slash, without the trailing
    slashes unless it is made of slashes only, and the text after it. *)
Definition split (p : string) : string * string :=
  let i := (Py.rfind sep p + 1)%Z in
  let head := Py.slice_to i p in
  let tail := Py.slice_from i p in
  let head :=
    if negb (head =? "") && negb (all_sep head)
    then Py.rstrip (String sep EmptyString) head else head in
  (head, tail).

Definition dirname (p : string) : string := fst (split p).

(** The loop of [genericpath._splitext]: is one of [p[k]], for
    [filenameIndex <= k < dotIndex], not a dot? *)
Fixpoint skip_dots (n : nat) (p : string) (filenameIndex dotIndex : Z) : bool :=
  match n with
  | O => false
  | S n' =>
      if (filenameIndex <? dotIndex)%Z then
        if negb (Py.slice filenameIndex (filenameIndex + 1) p
                   =? String extsep EmptyString)
        then true
        else skip_dots n' p (filenameIndex + 1) dotIndex
      else false
  end.

(** [os.path.splitext(p)]. *)
Definition splitext (p : string) : string * string :=
  let sepIndex := Py.rfind sep p in
  let dotIndex := Py.rfind extsep p in
  if (sepIndex <? dotIndex)%Z
     && skip_dots (String.length p) p (sepIndex + 1) dotIndex
  then (Py.slice_to dotIndex p, Py.slice_from dotIndex p)
  else (p, EmptyString).

(** [os.path.join(a, b)]. *)
Definition join (a b : string) : string :=
  if Py.startswith (String sep EmptyString) b then b
  else if (a =? "") || Py.endswith_char sep a then a ++ b
  else a ++ String sep EmptyString ++ b.

End os_path.


(* ================================================================== *)
(** * Results and exceptions *)

(** The exceptions the program raises or lets through.  [NameError] is
    what the evaluation of a name that is bound nowhere raises:
    [prepare_path] and [prepare_directory] name [PermissionDeniedError] and
    [NoOverwriteError], which the script neither defines nor imports. *)
Inductive exn : Type :=
| DownloadError (message : string)
| CommandFailedError (message : string)
| NameError (name : string)
| AttributeError (message : string)
| OSError (path : string)
| KeyError (key : string)
| ValueError (message : string)
| TypeError
| IndexError
| RecursionError
| OtherError (name : string)
| UnicodeDecodeError
| SystemExit (code : Z).

Inductive result (A : Type) : Type :=
| Ok (a : A)
| Raise (e : exn).

Arguments Ok {A} a.
Arguments Raise {A} e.

(** [b.decode('utf8')]: the text of bytes that are well-formed UTF-8, kept
    as these bytes. *)
Definition decode (b : string) : result string :=
  if Py.utf8 (map nat_of_ascii (list_ascii_of_string b)) then Ok b
  else Raise UnicodeDecodeError.

(* ================================================================== *)
(** * JSON documents and dictionaries *)

(** The values of the documents the program handles: the descriptors of the
    catalogue and of plan files, and the cache.  Their schema has no
    numbers. *)
Inductive json : Type :=
| JNull
| JBool (b : bool)
| JStr (s : string)
| JList (l : list json)
| JObj (d : list (string * json)).

(** A Python [dict] with string keys, in insertion order. *)
Definition dict : Type := list (string * json).

Module Dict.

Fixpoint lookup (k : string) (d : dict) : option json :=
  match d with
  | [] => None
  | (k', v) :: r => if k' =? k then Some v else lookup k r
  end.

(** [k in d]. *)
Definition has_key (k : string) (d : dict) : bool :=
  match lookup k d with Some _ => true | None => false end.

(** [d[k] = v]: in place when the key is there, at the end when it is new. *)
Fixpoint set (k : string) (v : json) (d : dict) : dict :=
  match d with
  | [] => [(k, v)]
  | (k', v') :: r => if k' =? k then (k', v) :: r else (k', v') :: set k v r
  end.

(** [del d[k]]. *)
Fixpoint remove (k : string) (d : dict) : dict :=
  match d with
  | [] => []
  | (k', v') :: r => if k' =? k then r else (k', v') :: remove k r
  end.

Definition keys (d : dict) : list string := map fst d.

End Dict.

(** [x is None], the truth value of [x], and [str(x)]. *)
Definition is_None (x : json) : bool :=
  match x with JNull => true | _ => false end.

Definition truthy (x : json) : bool :=
  match x with
  | JNull => false
  | JBool b => b
  | JStr s => negb (s =? "")
  | JList l => match l with [] => false | _ => true end
  | JObj d => match d with [] => false | _ => true end
  end.

(** [repr(x)], which [str(x)] is for everything but a string. *)
Fixpoint py_str_in (x : json) : string :=
  match x with
  | JNull => "None"
  | JBool true => "True"
  | JBool false => "False"
  | JStr s => Py.repr s
  | JList l => "[" ++ Py.join ", " (map py_str_in l) ++ "]"
  | JObj d =>
      "{" ++ Py.join ", "
               (map (fun kv => Py.repr (fst kv) ++ ": " ++ py_str_in (snd kv)) d)
          ++ "}"
  end.

Definition py_str (x : json) : string :=
  match x with
  | JStr s => s
  | _ => py_str_in x
  end.

(** A value used where the program needs a string (a path, an argument of
    [os.path]): anything else is a [TypeError]. *)
Definition as_str (x : json) : result string :=
  match x with
  | JStr s => Ok s
  | _ => Raise TypeError
  end.

(** [type(x).__name__]. *)
Definition type_name (x : json) : string :=
  match x with
  | JNull => "NoneType"
  | JBool _ => "bool"
  | JStr _ => "str"
  | JList _ => "list"
  | JObj _ => "dict"
  end.

(** A value whose method [attribute] of [str] is looked up: anything but a
    string is an [AttributeError]. *)
Definition str_with (attribute : string) (x : json) : result string :=
  match x with
  | JStr s => Ok s
  | _ => Raise (AttributeError
                  ("'" ++ type_name x ++ "' object has no attribute '"
                       ++ attribute ++ "'"))
  end.

(** Values along a path of keys. *)
Fixpoint jget (path : list string) (j : json) : option json :=
  match path with
  | [] => Some j
  | k :: p =>
      match j with
      | JObj d => match Dict.lookup k d with
                  | Some v => jget p v
                  | None => None
                  end
      | _ => None
      end
  end.

(** Assignment at the end of a path whose dictionaries exist; the last key
    may be new. *)
Fixpoint jset (path : list string) (v : json) (j : json) : json :=
  match path with
  | [] => v
  | [k] =>
      match j with
      | JObj d => JObj (Dict.set k v d)
      | _ => j
      end
  | k :: p =>
      match j with
      | JObj d => match Dict.lookup k d with
                  | Some sub => JObj (Dict.set k (jset p v sub) d)
                  | None => j
                  end
      | _ => j
      end
  end.

(** [merge(this, other)] (the copies [deepcopy] makes are the values). *)
Fixpoint merge (this other : json) {struct other} : result json :=
  match this with
  | JNull => Ok other
  | JObj td =>
      match other with
      | JNull => Ok this
      | JObj od =>
          let kept :=
            filter (fun kv => negb (Dict.has_key (fst kv) od)) td in
          let fix items (l : list (string * json)) (merged : dict)
            : result json :=
            match l with
            | [] => Ok (JObj merged)
            | (k, v) :: r =>
                match Dict.lookup k td with
                | None => items r (Dict.set k v merged)
                | Some tv =>
                    match merge tv v with
                    | Ok m => items r (Dict.set k m merged)
                    | Raise e => Raise e
                    end
                end
            end in
          items od kept
      | _ => Raise (ValueError "incompatible structure")
      end
  | _ =>
      match other with
      | JNull => Ok this
      | _ => Ok other
      end
  end.

(** [split_class(name)]. *)
Definition split_class (name : string) : string * string :=
  (Py.slice_to (Py.rfind "."%char name) name,
   Py.slice_from (Py.rfind "."%char name + 1) name).

(* ================================================================== *)
(** * [hashlib.sha1] *)

Module hashlib.

Local Open Scope Z_scope.

Definition word (x : Z) : Z := Z.land x 0xFFFFFFFF.

Definition rotl (n x : Z) : Z :=
  word (Z.lor (Z.shiftl x n) (Z.shiftr x (32 - n))).

Definition bytes_of (s : string) : list Z :=
  map (fun c => Z.of_N (N_of_ascii c)) (list_ascii_of_string s).

(** The message followed by the bit 1, zeros up to 56 modulo 64 bytes, and
    the length in bits on 8 bytes, most significant first. *)
Definition padding (len : Z) : list Z :=
  let zeros := Z.to_nat ((55 - len) mod 64) in
  let bits := 8 * len in
  (0x80 :: repeat 0 zeros
    ++ map (fun i => Z.land (Z.shiftr bits (8 * (7 - Z.of_nat i))) 0xFF)
           (seq 0 8))%list.

Fixpoint words (n : nat) (l : list Z) : list Z :=
  match n with
  | O => []
  | S n' =>
      match l with
      | a :: b :: c :: d :: r =>
          Z.lor (Z.shiftl a 24) (Z.lor (Z.shiftl b 16) (Z.lor (Z.shiftl c 8) d))
            :: words n' r
      | _ => []
      end
  end.

(** The message schedule, most recent word first. *)
Fixpoint schedule (n : nat) (w : list Z) : list Z :=
  match n with
  | O => w
  | S n' =>
      let x := Z.lxor (Z.lxor (nth 2 w 0) (nth 7 w 0))
                      (Z.lxor (nth 13 w 0) (nth 15 w 0)) in
      schedule n' (rotl 1 x :: w)
  end.

Definition round (i : Z) (st : Z * Z * Z * Z * Z) (w : Z) : Z * Z * Z * Z * Z :=
  let '(a, b, c, d, e) := st in
  let '(f, k) :=
    if i <? 20 then (Z.lor (Z.land b c) (Z.land (Z.lxor b 0xFFFFFFFF) d), 0x5A827999)
    else if i <? 40 then (Z.lxor b (Z.lxor c d), 0x6ED9EBA1)
    else if i <? 60 then
      (Z.lor (Z.land b c) (Z.lor (Z.land b d) (Z.land c d)), 0x8F1BBCDC)
    else (Z.lxor b (Z.lxor c d), 0xCA62C1D6) in
  let temp := word (rotl 5 a + f + e + k + w) in
  (temp, a, rotl 30 b, c, d).

Fixpoint rounds (i : Z) (ws : list Z) (st : Z * Z * Z * Z * Z) : Z * Z * Z * Z * Z :=
  match ws with
  | [] => st
  | w :: r => rounds (i + 1) r (round i st w)
  end.

Definition block (h : Z * Z * Z * Z * Z) (chunk : list Z) : Z * Z * Z * Z * Z :=
  let w := rev (schedule 64 (rev (words 16 chunk))) in
  let '(h0, h1, h2, h3, h4) := h in
  let '(a, b, c, d, e) := rounds 0 w h in
  (word (h0 + a), word (h1 + b), word (h2 + c), word (h3 + d), word (h4 + e)).

Fixpoint blocks (n : nat) (h : Z * Z * Z * Z * Z) (l : list Z) : Z * Z * Z * Z * Z :=
  match n with
  | O => h
  | S n' =>
      match l with
      | [] => h
      | _ => blocks n' (block h (firstn 64 l)) (skipn 64 l)
      end
  end.

Definition hex_digit (x : Z) : ascii :=
  match x with
  | 0 => "0" | 1 => "1" | 2 => "2" | 3 => "3" | 4 => "4" | 5 => "5"
  | 6 => "6" | 7 => "7" | 8 => "8" | 9 => "9" | 10 => "a" | 11 => "b"
  | 12 => "c" | 13 => "d" | 14 => "e" | _ => "f"
  end%char.

Definition hex_word (x : Z) : string :=
  string_of_list_ascii
    (map (fun i => hex_digit (Z.land (Z.shiftr x (4 * (7 - Z.of_nat i))) 0xF))
         (seq 0 8)).

(** [hashlib.sha1(content).hexdigest()]. *)
Definition sha1 (content : string) : string :=
  let m := bytes_of content in
  let padded := (m ++ padding (Z.of_nat (List.length m)))%list in
  let '(h0, h1, h2, h3, h4) :=
    blocks (List.length padded)
           (0x67452301, 0xEFCDAB89, 0x98BADCFE, 0x10325476, 0xC3D2E1F0)
           padded in
  hex_word h0 ++ hex_word h1 ++ hex_word h2 ++ hex_word h3 ++ hex_word h4.

End hashlib.

(* ================================================================== *)
(** * [json.dumps] *)

Module json_encoder.

(** The double quote, as a one-character string. *)
Definition dquote : string := String (ascii_of_nat 34) EmptyString.

Definition hex4 (n : nat) : string :=
  let d := fun k => hashlib.hex_digit (Z.land (Z.shiftr (Z.of_nat n) (4 * k)) 0xF) in
  String (d 3%Z) (String (d 2%Z) (String (d 1%Z) (String (d 0%Z) EmptyString))).

(** The replacement of one character inside a string ([ESCAPE_DCT], with
    [ensure_ascii=False]). *)
Definition escape_char (c : ascii) : string :=
  match nat_of_ascii c with
  | 92 => "\\"
  | 34 => "\" ++ dquote
  | 8 => "\b"
  | 12 => "\f"
  | 10 => "\n"
  | 13 => "\r"
  | 9 => "\t"
  | n => if (n <? 32)%nat then "\u" ++ hex4 n else String c EmptyString
  end.

Fixpoint escape (s : string) : string :=
  match s with
  | EmptyString => EmptyString
  | String c r => escape_char c ++ escape r
  end.

Definition quote (s : string) : string := dquote ++ escape s ++ dquote.

(** [sorted(dct.items())] for a dictionary: by key. *)
Fixpoint insert_item (kv : string * string) (l : list (string * string))
  : list (string * string) :=
  match l with
  | [] => [kv]
  | x :: r =>
      if String.leb (fst kv) (fst x) then kv :: l else x :: insert_item kv r
  end.

Definition sort_items (l : list (string * string)) : list (string * string) :=
  fold_right insert_item [] l.

Definition newline : string := String "010"%char EmptyString.

Fixpoint spaces (n : nat) : string :=
  match n with
  | O => EmptyString
  | S n' => String " "%char (spaces n')
  end.

(** The text between the brackets of a list or a dictionary of [items] at
    nesting [level]. *)
Definition enclose (indent : option nat) (level : nat) (items : list string)
  : string :=
  match indent with
  | None => Py.join ", " items
  | Some w =>
      let newline_indent := newline ++ spaces (w * S level) in
      newline_indent ++ Py.join ("," ++ newline_indent) items
        ++ newline ++ spaces (w * level)
  end.

(** [json.dumps(o, sort_keys=True, ensure_ascii=False, indent=indent)] at
    nesting [level]. *)
Fixpoint encode (indent : option nat) (level : nat) (o : json) : string :=
  match o with
  | JNull => "null"
  | JBool true => "true"
  | JBool false => "false"
  | JStr s => quote s
  | JList [] => "[]"
  | JList l => "[" ++ enclose indent level (map (encode indent (S level)) l) ++ "]"
  | JObj [] => "{}"
  | JObj d =>
      let items :=
        sort_items
          (map (fun kv => (fst kv, encode indent (S level) (snd kv))) d) in
      "{" ++ enclose indent level
               (map (fun kv => quote (fst kv) ++ ": " ++ snd kv) items)
          ++ "}"
  end.

Definition dumps (o : json) : string := encode None 0 o.

End json_encoder.

(** [to_json(ontology)]. *)
Definition to_json (ontology : json) : string :=
  json_encoder.encode (Some 4) 0 ontology.

(* ================================================================== *)
(** * The surroundings: file system, trace, oracle *)

(** What [os.stat] sees at a path: a regular file with its content, or a
    directory; [writable] is the answer of [os.access(path, os.W_OK)].
    Paths reach the file system normalised by [os.path.abspath]. *)
Inductive fnode : Type :=
| File (writable : bool) (content : string)
| Dir (writable : bool).

Definition filesystem : Type := string -> option fnode.

Definition fs_update (p : string) (n : option fnode) (fs : filesystem)
  : filesystem :=
  fun q => if q =? p then n else fs q.

(** The effects of the program, in the order they happen. *)
Inductive event : Type :=
| Log (level message : string)
| Request (url : string)
| Popen (args : list string) (cwd : option string) (code : Z)
| Removed (path : string)
| Written (path content : string)
| Makedirs (path : string)
| Symlinked (src dst : string)
| Stdout (text : string)
| Stderr (text : string)
| Printed (text : string).

(** The answer to [urlopen(request)]: one of the three exceptions
    [Package.download] catches, any other exception, or a response with
    the content [response.read()] returns. *)
Inductive response : Type :=
| BadStatusLine
| HTTPError (code : string)
| URLError (reason : string)
| Fails (e : exn)
| Content (content : string).

(** What [__import__(module, fromlist=[name])], [getattr] of the module and
    the call of the attribute with [(pipeline, ontology)] come to, for
    anything but a package class of the script: an [ImportError] or an
    [AttributeError] with its text, another [Exception] with the text of
    ['%s %s' % (type(e), e)], a [SystemExit], or an object.  Of an object
    that is no package the run sees its truth value and whether the use the
    action makes of it returns or raises; what else that use does is not
    part of the model. *)
Inductive foreign : Type :=
| NoModule (text : string)
| NoAttribute (text : string)
| Broken (text : string)
| Exits (code : Z)
| Made (use : option (result unit)).

(** What the surroundings answer.  The first argument of [urlopen], [popen],
    [symlink], [file_write] and [now] is the number of events before the
    call, so that the same request can be answered differently later.
    [popen] is [Popen(...)] followed by [communicate()]: the exit status,
    the two captured streams and what the child did to the file system, or
    the exception [Popen] raises.  [file_write] is [write(text)] on one of
    the two files [execute] opens, ["output"] and ["error"]. *)
Record oracle : Type := {
  urlopen : nat -> string -> response;
  popen : nat -> list string -> option string -> filesystem
          -> result (Z * string * string) * filesystem;
  symlink : nat -> string -> string -> filesystem -> result filesystem;
  file_write : nat -> string -> string -> result unit;
  imported : string -> string -> foreign;
  now : nat -> string;
  environ : dict;
  abspath : string -> string;
  realpath : string -> string;
  platform_system : string;
  getcwd : string;
  json_loads : string -> result json;
  recursion_limit : nat
}.

(** The state of a run: the file system, the trace, and the two documents
    of [PackageManager], [self.ontology] and [self.cache].  The progress
    records live inside [cache]: [self.persisted_instruction] and the
    [node] of every package are references into it. *)
Record state : Type := {
  fs : filesystem;
  trace : list event;
  ontology : json;
  cache : json
}.

Definition M (A : Type) : Type := state -> result A * state.

Definition ret {A} (a : A) : M A := fun s => (Ok a, s).

Definition raise {A} (e : exn) : M A := fun s => (Raise e, s).

Definition bind {A B} (m : M A) (k : A -> M B) : M B :=
  fun s =>
    match m s with
    | (Ok a, s') => k a s'
    | (Raise e, s') => (Raise e, s')
    end.

Declare Scope monad_scope.
Delimit Scope monad_scope with monad.
Notation "x <- m ;; k" := (bind m (fun x => k))
  (at level 61, m at next level, right associativity) : monad_scope.
Notation "m ;; k" := (bind m (fun _ => k))
  (at level 61, right associativity) : monad_scope.
Local Open Scope monad_scope.

Definition lift {A} (r : result A) : M A := fun s => (r, s).

Definition when (b : bool) (m : M unit) : M unit := if b then m else ret tt.

Definition get_state : M state := fun s => (Ok s, s).

Definition set_fs (f : filesystem) : M unit :=
  fun s => (Ok tt, {| fs := f; trace := trace s;
                      ontology := ontology s; cache := cache s |}).

Definition set_cache (c : json) : M unit :=
  fun s => (Ok tt, {| fs := fs s; trace := trace s;
                      ontology := ontology s; cache := c |}).

Definition set_ontology (o : json) : M unit :=
  fun s => (Ok tt, {| fs := fs s; trace := trace s;
                      ontology := o; cache := cache s |}).

Definition emit (e : event) : M unit :=
  fun s => (Ok tt, {| fs := fs s; trace := (trace s ++ [e])%list;
                      ontology := ontology s; cache := cache s |}).

(** The number of events so far. *)
Definition clock : M nat := fun s => (Ok (List.length (trace s)), s).

Definition log (level message : string) : M unit := emit (Log level message).

(* ================================================================== *)
(** * Operations of [os] *)

Module os.

Definition present (f : filesystem) (p : string) : bool :=
  match f p with Some _ => true | None => false end.

Definition writable (f : filesystem) (p : string) : bool :=
  match f p with
  | Some (File w _) => w
  | Some (Dir w) => w
  | None => false
  end.

(** [os.path.exists(p)] and [os.access(p, os.W_OK)]. *)
Definition exists_ (p : string) : M bool := fun s => (Ok (present (fs s) p), s).
Definition access_W_OK (p : string) : M bool := fun s => (Ok (writable (fs s) p), s).

(** [os.remove(p)]: a regular file in a writable directory. *)
Definition remove (p : string) : M unit :=
  s <- get_state ;;
  match fs s p with
  | Some (File _ _) =>
      if writable (fs s) (os_path.dirname p)
      then set_fs (fs_update p None (fs s)) ;; emit (Removed p)
      else raise (OSError p)
  | _ => raise (OSError p)
  end.

(** [open(p, 'rb').read()]. *)
Definition read (p : string) : M string :=
  s <- get_state ;;
  match fs s p with
  | Some (File _ content) => ret content
  | _ => raise (OSError p)
  end.

(** [open(p, 'wb').write(content)]: over a writable file, or as a new file
    in a writable directory. *)
Definition write (p content : string) : M unit :=
  s <- get_state ;;
  match fs s p with
  | Some (File true _) =>
      set_fs (fs_update p (Some (File true content)) (fs s)) ;;
      emit (Written p content)
  | Some _ => raise (OSError p)
  | None =>
      match fs s (os_path.dirname p) with
      | Some (Dir true) =>
          set_fs (fs_update p (Some (File true content)) (fs s)) ;;
          emit (Written p content)
      | _ => raise (OSError p)
      end
  end.

(** The path of a directory without the slashes at its end, which the
    kernel passes over. *)
Definition trimmed (name : string) : string :=
  if os_path.all_sep name then name
  else Py.rstrip (String os_path.sep EmptyString) name.

(** [os.mkdir(name)]. *)
Definition mkdir (name : string) : M unit :=
  s <- get_state ;;
  let path := trimmed name in
  match fs s path with
  | Some _ => raise (OSError name)
  | None =>
      match fs s (os_path.dirname path) with
      | Some (Dir true) => set_fs (fs_update path (Some (Dir true)) (fs s))
      | _ => raise (OSError name)
      end
  end.

(** [os.makedirs(name)]; [depth] is the recursion depth left.  The
    exception of the recursive call that [os.makedirs] passes over is the
    one of a directory that exists, which [mkdir] raises at the path
    itself. *)
Fixpoint makedirs_rec (depth : nat) (name : string) : M unit :=
  match depth with
  | O => raise RecursionError
  | S depth' =>
      let '(head, tail) := os_path.split name in
      let '(head, tail) :=
        if tail =? "" then os_path.split head else (head, tail) in
      head_exists <- exists_ head ;;
      if negb (head =? "") && negb (tail =? "") && negb head_exists
      then (fun s =>
              match makedirs_rec depth' head s with
              | (Raise (OSError p), s') =>
                  if (p =? head) && present (fs s') head
                  then (Ok tt, s') else (Raise (OSError p), s')
              | other => other
              end) ;;
           if tail =? "." then ret tt else mkdir name
      else mkdir name
  end.

End os.

(** [str(n)] for an integer. *)
Definition str_Z (n : Z) : string :=
  DecimalString.NilZero.string_of_int (Z.to_int n).

(* ================================================================== *)
(** * Directory preparation and removal *)

Section PathResolver.

Variable E : oracle.

(** [os.makedirs(name)]. *)
Definition makedirs (name : string) : M unit :=
  os.makedirs_rec (recursion_limit E) name ;; emit (Makedirs name).

(** [Popen(args=command, cwd=cwd, stdout=PIPE, stderr=PIPE)], then
    [communicate()] and [returncode]. *)
Definition communicate (command : list string) (cwd : option string)
  : M (Z * string * string) :=
  match command with
  | [] => raise IndexError
  | _ =>
      t <- clock ;;
      s <- get_state ;;
      let '(r, f) := popen E t command cwd (fs s) in
      set_fs f ;;
      match r with
      | Ok (code, output, error) =>
          emit (Popen command cwd code) ;; ret (code, output, error)
      | Raise e => raise e
      end
  end.

(** The function [check_permission] local to [prepare_path]; [depth] is the
    recursion depth left. *)
Fixpoint prepare_path_check_permission (depth : nat) (path : string)
  : M (option string) :=
  match depth with
  | O => raise RecursionError
  | S depth' =>
      let directory := os_path.dirname path in
      writable <- os.access_W_OK directory ;;
      present <- os.exists_ directory ;;
      if writable && present then ret (Some directory)
      else if negb (writable || present)
           then prepare_path_check_permission depth' directory
      else if present && negb writable
           then raise (NameError "PermissionDeniedError")
      else ret None
  end.

Definition prepare_path (path : string) (overwrite : bool) : M unit :=
  available <- prepare_path_check_permission (recursion_limit E) path ;;
  path_exists <- os.exists_ path ;;
  if path_exists then
    if negb overwrite then raise (NameError "NoOverwriteError") else ret tt
  else
    let directory := os_path.dirname path in
    match available with
    | Some a =>
        if negb (directory =? a)
        then log "debug" ("creating directory " ++ directory) ;;
             makedirs directory
        else ret tt
    | None =>
        log "debug" ("creating directory " ++ directory) ;;
        makedirs directory
    end.

(** The function [check_permission] local to [prepare_directory]. *)
Fixpoint prepare_directory_check_permission (depth : nat) (directory : string)
  : M (option string) :=
  match depth with
  | O => raise RecursionError
  | S depth' =>
      writable <- os.access_W_OK directory ;;
      present <- os.exists_ directory ;;
      if writable && present then ret (Some directory)
      else if negb (writable || present)
           then prepare_directory_check_permission
                  depth' (os_path.dirname directory)
      else if present && negb writable
           then raise (NameError "PermissionDeniedError")
      else ret None
  end.

Definition prepare_directory (directory : string) : M unit :=
  available <- prepare_directory_check_permission (recursion_limit E) directory ;;
  match available with
  | Some a =>
      if negb (a =? directory)
      then log "debug" ("creating directory " ++ directory) ;;
           makedirs directory
      else ret tt
  | None =>
      log "debug" ("creating directory " ++ directory) ;;
      makedirs directory
  end.

(** [remove_directory(directory, log)]; the directory is the value of a
    field, [os.path.exists] raises [TypeError] on one that is not a
    string. *)
Definition remove_directory (directory : json) : M unit :=
  d <- lift (as_str directory) ;;
  present <- os.exists_ d ;;
  if present then
    log "info" (Py.format "removing {}" [d]) ;;
    r <- communicate ["rm"; "-rf"; d] None ;;
    let '(code, output, error) := r in
    if negb (code =? 0)%Z then
      emit (Printed (Py.join " " [Py.repr_bytes output; Py.repr_bytes error;
                                  str_Z code])) ;;
      raise (CommandFailedError
               (Py.format "failed to remove directory {}" [d]))
    else ret tt
  else ret tt.

End PathResolver.

(* ================================================================== *)
(** * Packages *)

(** The classes a descriptor's [job implementation] can name. *)
Inductive job_implementation : Type :=
| ClassPackage
| ClassMake
| ClassBZip2
| ClassLibDeflate
| ClassRapidJSON
| ClassSAMTools.

(** What a package reads of its pipeline (the [PackageManager]): the
    platform, the prefixes of the resolved instruction, and where
    [persisted_instruction] is inside [cache]. *)
Record pipeline : Type := {
  platform : json;
  install_prefix : string;
  download_prefix : string;
  package_prefix : string;
  bin_prefix : string;
  include_prefix : string;
  lib_prefix : string;
  persisted_instruction : list string
}.

(** A package object: its class, its pipeline, and its [node], a reference
    to [persisted_instruction['package'][digest]]. *)
Record package : Type := {
  class : job_implementation;
  the_pipeline : pipeline;
  digest : string
}.

Definition node_path (self : package) : list string :=
  (persisted_instruction (the_pipeline self) ++ ["package"; digest self])%list.

(** The value of [self.node[key]] in a state, when the key is there. *)
Definition field (self : package) (key : string) (s : state) : option json :=
  jget (node_path self ++ [key])%list (cache s).

(** [self.node[key]]. *)
Definition node_get (self : package) (key : string) : M json :=
  fun s =>
    match field self key s with
    | Some v => (Ok v, s)
    | None => (Raise (KeyError key), s)
    end.

(** [self.node[key] = value]. *)
Definition node_set (self : package) (key : string) (value : json) : M unit :=
  s <- get_state ;;
  set_cache (jset (node_path self ++ [key])%list value (cache s)).

(** [key in self.node]. *)
Definition node_has (self : package) (key : string) : M bool :=
  fun s =>
    match field self key s with
    | Some _ => (Ok true, s)
    | None => (Ok false, s)
    end.

(** [x == s] for a string [s]. *)
Definition eq_str (x : json) (s : string) : bool :=
  match x with
  | JStr s' => s' =? s
  | _ => false
  end.

(** Sequencing of computations that only raise. *)
Definition rbind {A B} (r : result A) (k : A -> result B) : result B :=
  match r with
  | Ok a => k a
  | Raise e => Raise e
  end.

Notation "x <~ r ;; k" := (rbind r (fun x => k))
  (at level 61, r at next level, right associativity) : monad_scope.

Module Package.

Section Methods.

Variable E : oracle.

(** The keys [__init__] sets to [None] when the descriptor does not have
    them. *)
Definition default_keys : list string :=
  [ "sha1"; "version"; "remote url"; "package url"; "download url";
    "remote filename"; "remote basename"; "extension"; "compression";
    "display name"; "path in archive"; "document sha1 digest" ].

(** [node[key]] on the dictionary [__init__] is given. *)
Definition item (key : string) (node : dict) : result json :=
  match Dict.lookup key node with
  | Some v => Ok v
  | None => Raise (KeyError key)
  end.

Definition set_default (node : dict) (key : string) : dict :=
  if Dict.has_key key node then node else Dict.set key JNull node.

(** The part of [__init__] under [if node['remote url'] is not None]. *)
Definition normalize_remote (pl : pipeline) (node : dict) : result dict :=
  remote_url_field <~ item "remote url" node ;;
  remote_url <~ match remote_url_field with
                | JList [] => Raise IndexError
                | JList (u :: _) => Ok u
                | u => Ok u
                end ;;
  remote_filename <~ item "remote filename" node ;;
  node <~ (if is_None remote_filename then
             u <~ as_str remote_url ;;
             Ok (Dict.set "remote filename" (JStr (snd (os_path.split u))) node)
           else Ok node) ;;
  remote_filename <~ item "remote filename" node ;;
  remote_filename <~ as_str remote_filename ;;
  let '(remote_basename, compression) := os_path.splitext remote_filename in
  node_compression <~ item "compression" node ;;
  let node :=
    if is_None node_compression && negb (compression =? "")
    then Dict.set "compression" (JStr (Py.strip "." compression)) node
    else node in
  let '(remote_basename, extension) := os_path.splitext remote_basename in
  node_extension <~ item "extension" node ;;
  let node :=
    if is_None node_extension && negb (extension =? "")
    then Dict.set "extension" (JStr (Py.strip "." extension)) node
    else node in
  node_remote_basename <~ item "remote basename" node ;;
  let node :=
    if is_None node_remote_basename && negb (remote_basename =? "")
    then Dict.set "remote basename" (JStr remote_basename) node
    else node in
  node_download_url <~ item "download url" node ;;
  node <~ (if is_None node_download_url then
             f <~ item "remote filename" node ;;
             f <~ as_str f ;;
             Ok (Dict.set "download url"
                   (JStr (os_path.join (download_prefix pl) f)) node)
           else Ok node) ;;
  node_path_in_archive <~ item "path in archive" node ;;
  node <~ (if is_None node_path_in_archive then
             b <~ item "remote basename" node ;;
             Ok (Dict.set "path in archive" b node)
           else Ok node) ;;
  node_version <~ item "version" node ;;
  node_remote_basename <~ item "remote basename" node ;;
  if is_None node_version && truthy node_remote_basename then
    b <~ str_with "strip" node_remote_basename ;;
    name <~ item "name" node ;;
    chars <~ match name with
             | JNull => Ok Py.whitespace
             | _ => as_str name
             end ;;
    Ok (Dict.set "version" (JStr (Py.strip "-" (Py.strip chars b))) node)
  else Ok node.

(** [__init__] up to the digest: the descriptor with its defaults and its
    derived fields. *)
Definition normalize (pl : pipeline) (node : dict) : result dict :=
  let node := fold_left set_default default_keys node in
  remote_url <~ item "remote url" node ;;
  node <~ (if negb (is_None remote_url) then normalize_remote pl node
           else Ok node) ;;
  package_url <~ item "package url" node ;;
  path_in_archive <~ item "path in archive" node ;;
  node <~ (if is_None package_url && negb (is_None path_in_archive) then
             p <~ as_str path_in_archive ;;
             Ok (Dict.set "package url"
                   (JStr (os_path.join (package_prefix pl) p)) node)
           else Ok node) ;;
  display_name <~ item "display name" node ;;
  node <~ (if is_None display_name then
             name <~ item "name" node ;;
             let node := Dict.set "display name" name node in
             version <~ item "version" node ;;
             if negb (is_None version) then
               n <~ as_str name ;;
               v <~ as_str version ;;
               Ok (Dict.set "display name" (JStr (Py.join " " [n; v])) node)
             else Ok node
           else Ok node) ;;
  let expand := fun (node : dict) (url : string) =>
    v <~ item url node ;;
    if negb (is_None v) then
      p <~ as_str v ;;
      Ok (Dict.set url (JStr (abspath E p)) node)
    else Ok node in
  node <~ expand node "package url" ;;
  expand node "download url".

(** [hashlib.sha1(json.dumps(node, sort_keys=True, ensure_ascii=False)
    .encode('utf8')).hexdigest()]. *)
Definition document_sha1_digest (node : dict) : string :=
  hashlib.sha1 (json_encoder.dumps (JObj node)).

Definition fresh_progress (node : dict) : dict :=
  Dict.set "installed" (JBool false)
    (Dict.set "built" (JBool false)
       (Dict.set "configured" (JBool false)
          (Dict.set "unpacked" (JBool false) node))).

(** [Package.__init__(self, pipeline, node)] for an object of class [c]:
    the object, and the dictionary [node] as the constructor leaves it. *)
Definition __init__ (c : job_implementation) (pl : pipeline) (node : dict)
  : M (package * dict) :=
  node <- lift (normalize pl node) ;;
  let d := document_sha1_digest node in
  let node := Dict.set "document sha1 digest" (JStr d) node in
  let self := {| class := c; the_pipeline := pl; digest := d |} in
  s <- get_state ;;
  match jget (persisted_instruction pl ++ ["package"])%list (cache s) with
  | Some (JObj packages) =>
      if negb (Dict.has_key d packages) then
        let node := fresh_progress node in
        set_cache (jset (node_path self) (JObj node) (cache s)) ;;
        ret (self, node)
      else ret (self, node)
  | Some _ => raise TypeError
  | None => raise (KeyError "package")
  end.

(** [self.env]: the environment of the child processes, kept in the node
    once made. *)
Definition env (self : package) : M json :=
  has <- node_has self "env" ;;
  (if has then
     e <- node_get self "env" ;;
     when (is_None e) (node_set self "env" (JObj (environ E)))
   else node_set self "env" (JObj (environ E))) ;;
  node_get self "env".

(** [self.download_url], [self.package_url] where a path is needed. *)
Definition path_of (self : package) (key : string) : M string :=
  v <- node_get self key ;;
  lift (as_str v).

Definition DownloadError_ (message : json) : exn :=
  DownloadError (Py.format "invalid checksum {}" [py_str message]).

(** Does a url start with a scheme: characters other than [/] and [:],
    then [:]? *)
Fixpoint has_scheme (seen : bool) (url : string) : bool :=
  match url with
  | EmptyString => false
  | String c r =>
      if Ascii.eqb c ":" then seen
      else if Ascii.eqb c "/" then false
      else has_scheme true r
  end.

(** [Request(url, None)]: the url of the request.  For a string the parsing
    of the url is part of the answer to the request; of anything else
    [Request] takes [str(url)], and raises [ValueError] when what comes
    before its fragment has no scheme. *)
Definition requested (url : json) : result string :=
  match url with
  | JStr u => Ok u
  | _ =>
      let text := py_str url in
      let i := Py.rfind "#" text in
      let base := if (i <? 0)%Z then text else Py.slice_to i text in
      let shown :=
        if (i <? 0)%Z || (Py.slice_from (i + 1) text =? "") then base else text in
      if has_scheme false base then Ok text
      else Raise (ValueError ("unknown url type: " ++ Py.repr shown))
  end.

(** The loop of [download] over the mirrors, from the mirror it is at, with
    the last [error]; leaving the loop without a success raises
    [DownloadError(error)]. *)
Fixpoint download_from (self : package) (remote_url : list json) (error : json)
  : M unit :=
  match remote_url with
  | [] => raise (DownloadError_ error)
  | url :: rest =>
      log "debug" ("fetching " ++ py_str url) ;;
      u <- lift (requested url) ;;
      t <- clock ;;
      emit (Request u) ;;
      match urlopen E t u with
      | BadStatusLine =>
          let error := Py.format "Bad http status error when requesting {}" [u] in
          log "warning" error ;;
          download_from self rest (JStr error)
      | HTTPError code =>
          let error :=
            Py.format "Server returned an error when requesting {}: {}" [u; code] in
          log "warning" error ;;
          download_from self rest (JStr error)
      | URLError reason =>
          let error :=
            Py.format "Could not reach server when requesting {}: {}" [u; reason] in
          log "warning" error ;;
          download_from self rest (JStr error)
      | Fails e => raise e
      | Content content =>
          let checksum := hashlib.sha1 content in
          sha1 <- node_get self "sha1" ;;
          if negb (is_None sha1) && negb (eq_str sha1 checksum) then
            display_name <- node_get self "display name" ;;
            let error :=
              Py.format "{} checksum {} differs from {}"
                        [py_str display_name; checksum; py_str sha1] in
            log "warning" error ;;
            download_from self rest (JStr error)
          else
            download_url <- path_of self "download url" ;;
            prepare_path E download_url true ;;
            os.write download_url content ;;
            display_name <- node_get self "display name" ;;
            log "info" ("downloaded archive saved " ++ py_str display_name
                          ++ " " ++ py_str sha1)
      end
  end.

Definition download (self : package) : M unit :=
  download_url <- node_get self "download url" ;;
  if negb (is_None download_url) then
    sha1 <- node_get self "sha1" ;;
    download_url <- lift (as_str download_url) ;;
    (if is_None sha1 then
       present <- os.exists_ download_url ;;
       when present
         (log "debug" ("removing old real time archive " ++ download_url) ;;
          os.remove download_url)
     else ret tt) ;;
    present <- os.exists_ download_url ;;
    content <-
      (if present then
         content <- os.read download_url ;;
         let checksum := hashlib.sha1 content in
         if negb (is_None sha1) && negb (eq_str sha1 checksum) then
           log "warning" ("removing corrupt archive " ++ download_url) ;;
           os.remove download_url ;;
           ret None
         else ret (Some content)
       else ret None) ;;
    match content with
    | None =>
        remote_url <- node_get self "remote url" ;;
        let remote_url :=
          match remote_url with
          | JList l => l
          | u => [u]
          end in
        download_from self remote_url JNull
    | Some _ => ret tt
    end
  else ret tt.

Definition clean_package (self : package) : M unit :=
  download_url <- node_get self "download url" ;;
  if negb (is_None download_url) then
    package_url <- node_get self "package url" ;;
    remove_directory E package_url ;;
    node_set self "unpacked" (JBool false) ;;
    node_set self "configured" (JBool false) ;;
    node_set self "built" (JBool false) ;;
    node_set self "installed" (JBool false)
  else ret tt.

Definition clean (self : package) : M unit :=
  node_set self "configured" (JBool false) ;;
  node_set self "built" (JBool false) ;;
  node_set self "installed" (JBool false).

(** The three [print] calls of a failed command: [print(code)],
    [print(output.decode('utf8'))] and [print(error.decode('utf8'))]. *)
Definition print_failure (code : Z) (output error : string) : M unit :=
  emit (Printed (str_Z code)) ;;
  output <- lift (decode output) ;;
  emit (Printed output) ;;
  error <- lift (decode error) ;;
  emit (Printed error).

(** [write(text)] on one of the two files of the run. *)
Definition file_write_ (name : string) (written : string -> event)
  (text : string) : M unit :=
  t <- clock ;;
  match file_write E t name text with
  | Ok _ => emit (written text)
  | Raise e => raise e
  end.

(** [self.stdout.write(output.decode('utf8'))] and
    [self.stderr.write(error.decode('utf8'))]. *)
Definition write_streams (output error : string) : M unit :=
  output <- lift (decode output) ;;
  file_write_ "output" Stdout output ;;
  error <- lift (decode error) ;;
  file_write_ "error" Stderr error.

Definition unpack (self : package) : M unit :=
  unpacked <- node_get self "unpacked" ;;
  if negb (truthy unpacked) then
    clean_package self ;;
    download_url <- node_get self "download url" ;;
    if negb (is_None download_url) then
      download self ;;
      display_name <- node_get self "display name" ;;
      log "info" ("unpacking " ++ py_str display_name) ;;
      compression <- node_get self "compression" ;;
      command <-
        (if eq_str compression "gz" || eq_str compression "bz2" then
           d <- path_of self "download url" ;;
           ret (["tar"; "-x"]
                  ++ (if eq_str compression "gz" then ["-z"]
                      else if eq_str compression "bz2" then ["-j"] else [])
                  ++ ["-f"; d])%list
         else if eq_str compression "zip" then
           d <- path_of self "download url" ;;
           ret ["unzip"; "-x"; d]
         else ret []) ;;
      env self ;;
      r <- communicate E command (Some (package_prefix (the_pipeline self))) ;;
      let '(code, output, error) := r in
      if (code =? 0)%Z then
        node_set self "unpacked" (JBool true) ;;
        write_streams output error
      else
        print_failure code output error ;;
        raise (CommandFailedError (Py.format "tar returned {}" [str_Z code]))
    else ret tt
  else ret tt.

Definition configure (self : package) : M unit :=
  configured <- node_get self "configured" ;;
  if negb (truthy configured) then
    unpack self ;;
    node_set self "configured" (JBool true)
  else ret tt.

Definition build (self : package) : M unit :=
  built <- node_get self "built" ;;
  if negb (truthy built) then
    configure self ;;
    node_set self "built" (JBool true)
  else ret tt.

Definition install (self : package) : M unit :=
  installed <- node_get self "installed" ;;
  if negb (truthy installed) then
    build self ;;
    node_set self "installed" (JBool true)
  else ret tt.

End Methods.

End Package.

(** [[str(i) for i in command]] and the strings [Popen] needs. *)
Definition strs (command : list json) : result (list string) :=
  fold_right (fun x acc => l <~ acc ;; s <~ as_str x ;; Ok (s :: l))
             (Ok []) command.

(** The items [command.extend(x)] appends. *)
Definition iterate (x : json) : result (list json) :=
  match x with
  | JList l => Ok l
  | JObj d => Ok (map (fun kv => JStr (fst kv)) d)
  | JStr s => Ok (map (fun c => JStr (String c EmptyString))
                      (list_ascii_of_string s))
  | _ => Raise TypeError
  end.

Module Make.

Section Methods.

Variable E : oracle.

(** [self.node['env'][key] = value]. *)
Definition env_set (self : package) (key value : string) : M unit :=
  e <- Package.env E self ;;
  match e with
  | JObj d => node_set self "env" (JObj (Dict.set key (JStr value) d))
  | _ => raise TypeError
  end.

(** [Make.__init__(self, pipeline, node)]. *)
Definition __init__ (c : job_implementation) (pl : pipeline) (node : dict)
  : M (package * dict) :=
  r <- Package.__init__ E c pl node ;;
  let '(self, node) := r in
  let default := fun (key : string) =>
    when (negb (Dict.has_key key node)) (node_set self key JNull) in
  default "configure optional" ;;
  default "make build optional" ;;
  default "make build target" ;;
  let default_in_node := fun (key : string) (value : json) =>
    has <- node_has self key ;;
    when (negb has) (node_set self key value) in
  default_in_node "make install target" (JStr "install") ;;
  default_in_node "make clean target" (JStr "clean") ;;
  default_in_node "include prefix in make" (JBool false) ;;
  env_set self "CFLAGS" (Py.format "-I{}" [include_prefix pl]) ;;
  env_set self "LDFLAGS" (Py.format "-L{}" [lib_prefix pl]) ;;
  ret (self, node).

(** [Popen(args=command, env=self.env, cwd=self.package_url, ...)] with
    [communicate()], after the [log.debug] of the command. *)
Definition spawn (self : package) (command : list json)
  : M (Z * string * string) :=
  log "debug" (Py.join " " (map py_str command)) ;;
  Package.env E self ;;
  cwd <- Package.path_of self "package url" ;;
  args <- lift (strs command) ;;
  communicate E args (Some cwd).

Definition failed (code : Z) (output error message : string) : M unit :=
  Package.print_failure code output error ;;
  raise (CommandFailedError (Py.format message [str_Z code])).

(** [command.append('PREFIX={}'.format(self.install_prefix))] under
    [if self.include_prefix_in_make]. *)
Definition with_prefix (self : package) (command : list json) : M (list json) :=
  include_prefix_in_make <- node_get self "include prefix in make" ;;
  if truthy include_prefix_in_make
  then ret (command
              ++ [JStr (Py.format "PREFIX={}"
                                  [install_prefix (the_pipeline self)])])%list
  else ret command.

(** [command.extend(self.node[key])] under [if self.node[key]]. *)
Definition with_optional (self : package) (key : string) (command : list json)
  : M (list json) :=
  optional <- node_get self key ;;
  if truthy optional
  then more <- lift (iterate optional) ;; ret (command ++ more)%list
  else ret command.

Definition reset (self : package) : M unit :=
  node_set self "configured" (JBool false) ;;
  node_set self "built" (JBool false) ;;
  node_set self "installed" (JBool false).

Definition clean (self : package) : M unit :=
  package_url <- node_get self "package url" ;;
  if negb (is_None package_url) then
    p <- lift (as_str package_url) ;;
    makefile <- os.exists_ (os_path.join p "Makefile") ;;
    make_clean_target <-
      (if makefile then node_get self "make clean target" else ret JNull) ;;
    if makefile && truthy make_clean_target then
      display_name <- node_get self "display name" ;;
      log "info" ("cleaning make environment " ++ py_str display_name) ;;
      command <- with_prefix self [JStr "make"; make_clean_target] ;;
      r <- spawn self command ;;
      let '(code, output, error) := r in
      if (code =? 0)%Z then
        reset self ;;
        Package.write_streams E output error
      else failed code output error "make clean returned {}"
    else reset self
  else ret tt.

Definition configure (self : package) : M unit :=
  configured <- node_get self "configured" ;;
  if negb (truthy configured) then
    package_url <- node_get self "package url" ;;
    if negb (is_None package_url) then
      Package.unpack E self ;;
      p <- Package.path_of self "package url" ;;
      script <- os.exists_ (os_path.join p "configure") ;;
      if script then
        display_name <- node_get self "display name" ;;
        log "info" ("configuring make environment " ++ py_str display_name) ;;
        command <-
          with_optional self "configure optional"
            [JStr "./configure";
             JStr (Py.format "--prefix={}" [install_prefix (the_pipeline self)])] ;;
        r <- spawn self command ;;
        let '(code, output, error) := r in
        if (code =? 0)%Z then
          node_set self "configured" (JBool true) ;;
          Package.write_streams E output error
        else failed code output error "configure returned {}"
      else node_set self "configured" (JBool true)
    else ret tt
  else ret tt.

Definition build (self : package) : M unit :=
  built <- node_get self "built" ;;
  if negb (truthy built) then
    configure self ;;
    package_url <- node_get self "package url" ;;
    if negb (is_None package_url) then
      display_name <- node_get self "display name" ;;
      log "info" ("building with make " ++ py_str display_name) ;;
      make_build_target <- node_get self "make build target" ;;
      command <-
        with_prefix self
          (if truthy make_build_target
           then [JStr "make"; make_build_target] else [JStr "make"]) ;;
      command <- with_optional self "make build optional" command ;;
      r <- spawn self command ;;
      let '(code, output, error) := r in
      if (code =? 0)%Z then
        node_set self "built" (JBool true) ;;
        Package.write_streams E output error
      else failed code output error "make returned {}"
    else ret tt
  else ret tt.

(** [Make.install]; [self_build] is the method [self.build()] resolves to
    in the class of the object. *)
Definition install (self_build : package -> M unit) (self : package) : M unit :=
  installed <- node_get self "installed" ;;
  if negb (truthy installed) then
    self_build self ;;
    package_url <- node_get self "package url" ;;
    if negb (is_None package_url) then
      display_name <- node_get self "display name" ;;
      log "info" ("installing with make " ++ py_str display_name) ;;
      make_install_target <- node_get self "make install target" ;;
      command <- with_prefix self [JStr "make"; make_install_target] ;;
      command <- with_optional self "make build optional" command ;;
      r <- spawn self command ;;
      let '(code, output, error) := r in
      if (code =? 0)%Z then
        node_set self "installed" (JBool true) ;;
        Package.write_streams E output error
      else failed code output error "make install returned {}"
    else ret tt
  else ret tt.

End Methods.

End Make.

Module BZip2.

Section Methods.

Variable E : oracle.

(** [os.symlink(src, dst)]. *)
Definition os_symlink (src dst : string) : M unit :=
  t <- clock ;;
  s <- get_state ;;
  match symlink E t src dst (fs s) with
  | Ok f => set_fs f ;; emit (Symlinked src dst)
  | Raise e => raise e
  end.

(** The [while] loop of [install_dynamic]; [n] bounds its turns by the
    length of [split_version]. *)
Fixpoint link_versions (n : nat) (self : package) (so_basename full : string)
  (split_version : list string) : M unit :=
  match n with
  | O => ret tt
  | S n' =>
      if (1 <? List.length split_version)%nat then
        let split_version := removelast split_version in
        let partial_version := Py.join "." split_version in
        let partial_versioned_so_basename :=
          Py.format "{}.{}" [so_basename; partial_version] in
        let partial_versioned_so_install_path :=
          os_path.join (lib_prefix (the_pipeline self))
                       partial_versioned_so_basename in
        log "info" ("symlinking " ++ full ++ " to "
                      ++ partial_versioned_so_install_path) ;;
        os_symlink full partial_versioned_so_install_path ;;
        link_versions n' self so_basename full split_version
      else ret tt
  end.

Definition install_dynamic (self : package) : M unit :=
  let so_basename := "libbz2.so" in
  version <- node_get self "version" ;;
  let full_versioned_so_basename :=
    Py.format "{}.{}" [so_basename; py_str version] in
  package_url <- Package.path_of self "package url" ;;
  let full_versioned_so_package_path :=
    os_path.join package_url full_versioned_so_basename in
  let full_versioned_so_install_path :=
    os_path.join (lib_prefix (the_pipeline self)) full_versioned_so_basename in
  log "debug" ("copying " ++ full_versioned_so_package_path ++ " to "
                 ++ full_versioned_so_install_path) ;;
  Package.env E self ;;
  r <- communicate E ["rsync"; "--copy-links"; full_versioned_so_package_path;
                      full_versioned_so_install_path] (Some package_url) ;;
  let '(code, output, error) := r in
  (if (code =? 0)%Z then Package.write_streams E output error
   else Make.failed code output error "rsync returned {}") ;;
  v <- lift (as_str version) ;;
  let split_version := Py.split "."%char v in
  link_versions (List.length split_version) self so_basename
                full_versioned_so_basename split_version.

Definition build (self : package) : M unit :=
  if eq_str (platform (the_pipeline self)) "Linux" then
    built <- node_get self "built" ;;
    if negb (truthy built) then
      Make.configure E self ;;
      package_url <- node_get self "package url" ;;
      if negb (is_None package_url) then
        display_name <- node_get self "display name" ;;
        log "info" ("building " ++ py_str display_name ++ " dynamic library") ;;
        command <-
          Make.with_prefix self
            [JStr "make"; JStr "--file"; JStr "Makefile-libbz2_so"] ;;
        r <- Make.spawn E self command ;;
        let '(code, output, error) := r in
        if (code =? 0)%Z then
          Package.write_streams E output error ;;
          install_dynamic self ;;
          Make.build E self
        else Make.failed code output error "make returned {}"
      else ret tt
    else ret tt
  else Make.build E self.

End Methods.

End BZip2.

Module LibDeflate.

Section Methods.

Variable E : oracle.

(** One [rsync --copy-links source target] of [install]. *)
Definition copy (self : package) (package_url source target : string) : M unit :=
  log "debug" ("copying " ++ source ++ " to " ++ target) ;;
  Package.env E self ;;
  r <- communicate E ["rsync"; "--copy-links"; source; target] (Some package_url) ;;
  let '(code, output, error) := r in
  if (code =? 0)%Z then Package.write_streams E output error
  else Make.failed code output error "rsync returned {}".

Definition install (self : package) : M unit :=
  installed <- node_get self "installed" ;;
  if negb (truthy installed) then
    Make.build E self ;;
    package_url <- node_get self "package url" ;;
    if negb (is_None package_url) then
      p <- lift (as_str package_url) ;;
      let pl := the_pipeline self in
      copy self p (os_path.join p "libdeflate.a") (lib_prefix pl) ;;
      copy self p (os_path.join p "libdeflate.h") (include_prefix pl) ;;
      when (eq_str (platform pl) "Linux")
           (copy self p (os_path.join p "libdeflate.so") (lib_prefix pl)) ;;
      node_set self "installed" (JBool true)
    else ret tt
  else ret tt.

End Methods.

End LibDeflate.

Module RapidJSON.

Section Methods.

Variable E : oracle.

Definition install (self : package) : M unit :=
  installed <- node_get self "installed" ;;
  if negb (truthy installed) then
    Package.build E self ;;
    package_url <- node_get self "package url" ;;
    if negb (is_None package_url) then
      display_name <- node_get self "display name" ;;
      let pl := the_pipeline self in
      log "debug" ("copying " ++ py_str display_name ++ " header files to "
                     ++ include_prefix pl) ;;
      p <- lift (as_str package_url) ;;
      Package.env E self ;;
      r <- communicate E ["rsync"; "--recursive"; os_path.join p "include/";
                          include_prefix pl] (Some p) ;;
      let '(code, output, error) := r in
      if (code =? 0)%Z then
        node_set self "installed" (JBool true) ;;
        Package.write_streams E output error
      else Make.failed code output error "rsync returned {}"
    else ret tt
  else ret tt.

End Methods.

End RapidJSON.

Module SAMTools.

Section Methods.

Variable E : oracle.

Definition __init__ (c : job_implementation) (pl : pipeline) (node : dict)
  : M (package * dict) :=
  r <- Make.__init__ E c pl node ;;
  let '(self, node) := r in
  node_set self "configure optional"
    (JList [JStr (Py.format "--with-htslib={}" [install_prefix pl])]) ;;
  ret (self, node).

End Methods.

End SAMTools.

(* ================================================================== *)
(** * The methods of an object, by its class *)

Section Dispatch.

Variable E : oracle.

(** [package.clean()]. *)
Definition clean (self : package) : M unit :=
  match class self with
  | ClassPackage | ClassRapidJSON => Package.clean self
  | _ => Make.clean E self
  end.

(** [package.clean_package()] and [package.unpack()]: no class overrides
    them. *)
Definition clean_package (self : package) : M unit := Package.clean_package E self.
Definition unpack (self : package) : M unit := Package.unpack E self.

(** [package.configure()]. *)
Definition configure (self : package) : M unit :=
  match class self with
  | ClassPackage | ClassRapidJSON => Package.configure E self
  | _ => Make.configure E self
  end.

(** [package.build()]. *)
Definition build (self : package) : M unit :=
  match class self with
  | ClassPackage | ClassRapidJSON => Package.build E self
  | ClassBZip2 => BZip2.build E self
  | _ => Make.build E self
  end.

(** [package.install()]. *)
Definition install (self : package) : M unit :=
  match class self with
  | ClassPackage => Package.install E self
  | ClassRapidJSON => RapidJSON.install E self
  | ClassLibDeflate => LibDeflate.install E self
  | _ => Make.install E build self
  end.

(** [package.installed]. *)
Definition installed (self : package) : M json := node_get self "installed".

End Dispatch.

(* ================================================================== *)
(** * [Package.create] *)

Section Create.

Variable E : oracle.

(** [try: m except Exception as e: handler e]. *)
Definition try_except {A} (m : M A) (handler : exn -> M A) : M A :=
  fun s =>
    match m s with
    | (Ok a, s') => (Ok a, s')
    | (Raise e, s') => handler e s'
    end.

(** The classes of the module [pheniqs-build-api] a name can resolve to. *)
Definition class_named (name : string) : option job_implementation :=
  if name =? "Package" then Some ClassPackage
  else if name =? "Make" then Some ClassMake
  else if name =? "BZip2" then Some ClassBZip2
  else if name =? "LibDeflate" then Some ClassLibDeflate
  else if name =? "RapidJSON" then Some ClassRapidJSON
  else if name =? "SAMTools" then Some ClassSAMTools
  else None.

(** The names the module of the script binds besides its package classes:
    what it imports, its two tables, its functions and its other classes.
    The names between two underscores are the ones the interpreter gives
    every module. *)
Definition other_names : list string :=
  [ "io"; "os"; "sys"; "json"; "signal"; "logging"; "hashlib"; "platform";
    "deepcopy"; "datetime"; "date"; "Popen"; "PIPE"; "ArgumentParser";
    "urllib"; "Request"; "urlopen"; "URLError"; "HTTPError"; "BadStatusLine";
    "log_levels"; "interface_configuration"; "termination_handler";
    "to_json"; "merge"; "remove_directory"; "prepare_path";
    "prepare_directory"; "split_class"; "DownloadError"; "CommandFailedError";
    "CommandLineParser"; "PackageManager"; "main" ].

Definition bound_in_script (name : string) : bool :=
  existsb (String.eqb name) other_names || Py.startswith "__" name.

(** [implementation_class(pipeline, ontology)]. *)
Definition construct (c : job_implementation) (pl : pipeline) (node : dict)
  : M (package * dict) :=
  match c with
  | ClassPackage | ClassRapidJSON => Package.__init__ E c pl node
  | ClassSAMTools => SAMTools.__init__ E c pl node
  | _ => Make.__init__ E c pl node
  end.

(** What [Package.create] returns when it is not [None]: a package, or an
    object of another class. *)
Inductive instance : Type :=
| Own (p : package)
| Alien (use : result unit).

(** The two records of the handler of [AttributeError]. *)
Definition not_defined (module name text : string) : M (option instance) :=
  log "error"
      ("class " ++ name ++ " not defined in module " ++ module
         ++ " when attempting to instantiate job implementation") ;;
  log "debug" text ;;
  ret None.

(** What [create] makes of an attribute that is no package class of the
    script. *)
Definition create_foreign (ontology : dict) (module name : string) (f : foreign)
  : M (option instance) :=
  match f with
  | NoModule text =>
      action <- lift (Package.item "action" ontology) ;;
      log "error"
          ("no module named " ++ module
             ++ " found when attempting to instantiate "
             ++ py_str action ++ " job implementation") ;;
      log "debug" text ;;
      ret None
  | NoAttribute text => not_defined module name text
  | Broken text => log "error" text ;; ret None
  | Exits code => raise (SystemExit code)
  | Made None => ret None
  | Made (Some use) => ret (Some (Alien use))
  end.

(** [Package.create(pipeline, ontology)].  The script is imported under the
    name of its file, [pheniqs-build-api]; a name it does not bind is an
    [AttributeError] of [getattr], a name it binds to something else than a
    package class and every name of another module is answered by the
    surroundings, and an empty module name is a [ValueError] of
    [__import__].  An exception of the constructor is caught like one of
    the import: an [AttributeError] by the handler of [AttributeError];
    of the record of any other [Exception] the text,
    ['%s %s' % (type(e), e)], is not kept; a [SystemExit] is no
    [Exception]. *)
Definition create (pl : pipeline) (ontology : dict) : M (option instance) :=
  match ontology with
  | [] => ret None
  | _ =>
      match Dict.lookup "job implementation" ontology with
      | Some implementation =>
          qualified <- lift (str_with "rfind" implementation) ;;
          let '(module, name) := split_class qualified in
          if module =? "" then
            log "error" "<class 'ValueError'> Empty module name" ;;
            ret None
          else if module =? "pheniqs-build-api" then
            match class_named name with
            | Some c =>
                try_except
                  (r <- construct c pl ontology ;; ret (Some (Own (fst r))))
                  (fun e =>
                     match e with
                     | AttributeError text => not_defined module name text
                     | SystemExit code => raise e
                     | _ => log "error" "exception in job implementation" ;;
                            ret None
                     end)
            | None =>
                if bound_in_script name
                then create_foreign ontology module name (imported E module name)
                else not_defined module name
                       ("module 'pheniqs-build-api' has no attribute '"
                          ++ name ++ "'")
            end
          else create_foreign ontology module name (imported E module name)
      | None => log "error" "unknown job implementation" ;; ret None
      end
  end.

End Create.

(* ================================================================== *)
(** * [PackageManager] *)

Module PackageManager.

Section Methods.

Variable E : oracle.

(** [self.instruction] and [self.instruction[key]]. *)
Definition instruction : M dict :=
  s <- get_state ;;
  match jget ["instruction"] (ontology s) with
  | Some (JObj d) => ret d
  | Some _ => raise TypeError
  | None => raise (KeyError "instruction")
  end.

Definition instruction_item (key : string) : M json :=
  i <- instruction ;;
  lift (Package.item key i).

(** [PackageManager.__init__(self, ontology)]: the two documents of the
    object. *)
Definition __init__ (configuration : json) : M unit :=
  let default :=
    JObj [("instruction",
           JObj [("home", JStr "~/.pheniqs");
                 ("platform", JStr (platform_system E));
                 ("current working directoy", JStr (getcwd E))])] in
  o <- lift (merge default configuration) ;;
  set_ontology o ;;
  set_cache JNull ;;
  home <- instruction_item "home" ;;
  home <- lift (as_str home) ;;
  s <- get_state ;;
  set_ontology (jset ["instruction"; "home"]
                     (JStr (realpath E (abspath E home))) (ontology s)) ;;
  i <- instruction ;;
  match Dict.lookup "verbosity" i with
  | Some verbosity =>
      if truthy verbosity then
        match verbosity with
        | JStr level =>
            if existsb (String.eqb level)
                       ["debug"; "info"; "warning"; "error"; "critical"]
            then ret tt
            else raise (KeyError level)
        | JBool _ => raise (KeyError (py_str verbosity))
        | _ => raise TypeError
        end
      else ret tt
  | None => ret tt
  end.

Definition cache_path : M string :=
  p <- instruction_item "cache path" ;;
  lift (as_str p).

Definition str_now : M json :=
  t <- clock ;;
  ret (JStr (now E t)).

Definition load_cache : M unit :=
  i <- instruction ;;
  if Dict.has_key "cache path" i then
    p <- cache_path ;;
    present <- os.exists_ p ;;
    when present
      (content <- os.read p ;;
       c <- lift (json_loads E content) ;;
       set_cache c) ;;
    s <- get_state ;;
    (if is_None (cache s) then
       created <- str_now ;;
       set_cache (JObj [("environment", JObj []); ("created", created)])
     else ret tt) ;;
    loaded <- str_now ;;
    s <- get_state ;;
    match cache s with
    | JObj _ => set_cache (jset ["loaded"] loaded (cache s))
    | _ => raise TypeError
    end
  else ret tt.

Definition save_cache : M unit :=
  s <- get_state ;;
  match ontology s with
  | JObj o =>
      if Dict.has_key "cache path" o then
        log "debug" "persisting cache" ;;
        p <- cache_path ;;
        os.write p "" ;;
        saved <- str_now ;;
        s <- get_state ;;
        match cache s with
        | JObj _ =>
            set_cache (jset ["saved"] saved (cache s)) ;;
            s <- get_state ;;
            os.write p (to_json (cache s))
        | _ => raise TypeError
        end
      else ret tt
  | _ => raise TypeError
  end.

(** [os.path.abspath(os.path.expanduser(os.path.expandvars(x)))] on the
    value of a field. *)
Definition expand (x : json) : result json :=
  p <~ as_str x ;;
  Ok (JStr (abspath E p)).

(** The changes [execute] makes to the package ["pheniqs"] of a preset. *)
Definition revise (prefix : json) (revision : string) (package : json)
  : result json :=
  match package with
  | JObj p =>
      name <~ Package.item "name" p ;;
      if eq_str name "pheniqs" then
        optional <~ Package.item "make build optional" p ;;
        optional <~ match optional with
                    | JList l =>
                        Ok (JList (l ++ [JStr (Py.format "PHENIQS_VERSION=git-{}"
                                                         [revision])])%list)
                    | _ => Raise TypeError
                    end ;;
        let p := Dict.set "make build optional" optional p in
        let p := Dict.set "remote filename"
                          (JStr (Py.format "pheniqs-{}.zip" [revision])) p in
        let p := Dict.set "remote url"
                          (JStr (Py.format "{}/zip/{}" [py_str prefix; revision])) p in
        Ok (JObj (Dict.set "version" (JStr (Py.format "git-{}" [revision])) p))
      else Ok package
  | _ => Raise TypeError
  end.

Fixpoint revise_all (prefix : json) (revision : string) (packages : list json)
  : result (list json) :=
  match packages with
  | [] => Ok []
  | p :: r =>
      p <~ revise prefix revision p ;;
      r <~ revise_all prefix revision r ;;
      Ok (p :: r)
  end.

(** The first part of [execute]: the preset of the run, read from the file
    [instruction['path']] or taken from [ontology['preset']]. *)
Definition resolve_preset : M dict :=
  i <- instruction ;;
  if Dict.has_key "path" i then
    path <- instruction_item "path" ;;
    path <- lift (as_str path) ;;
    let resolved := abspath E (realpath E path) in
    present <- os.exists_ resolved ;;
    if present then
      log "debug" ("loading " ++ path) ;;
      content <- os.read resolved ;;
      preset <- lift (json_loads E content) ;;
      match preset with
      | JObj d =>
          ret (Dict.set "document sha1 digest" (JStr (hashlib.sha1 resolved)) d)
      | _ => raise TypeError
      end
    else raise (CommandFailedError (Py.format "failed to open {}" [path]))
  else if Dict.has_key "preset" i then
    chosen <- instruction_item "preset" ;;
    s <- get_state ;;
    presets <- match jget ["preset"] (ontology s) with
               | Some (JObj d) => ret d
               | Some _ => raise TypeError
               | None => raise (KeyError "preset")
               end ;;
    match chosen with
    | JStr key =>
        match Dict.lookup key presets with
        | Some (JObj preset) =>
            revision <-
              (if Dict.has_key "revision" i then
                 r <- instruction_item "revision" ;; ret (py_str r)
               else ret "HEAD") ;;
            let name := Py.format "{}-{}" [key; revision] in
            home <- lift (Package.item "home" preset) ;;
            home <- lift (as_str home) ;;
            let preset := Dict.set "home" (JStr (os_path.join home name)) preset in
            packages <- lift (Package.item "package" preset) ;;
            prefix <- match jget ["pheniqs code url prefix"] (ontology s) with
                      | Some v => ret v
                      | None => ret JNull
                      end ;;
            packages <- match packages with
                        | JList l => lift (revise_all prefix revision l)
                        | _ => raise TypeError
                        end ;;
            let preset := Dict.set "package" (JList packages) preset in
            ret (Dict.set "document sha1 digest" (JStr (hashlib.sha1 name)) preset)
        | Some _ => raise TypeError
        | None =>
            raise (CommandFailedError
                     (Py.format "preset {} does not exist" [key]))
        end
    | _ => raise (CommandFailedError
                    (Py.format "preset {} does not exist" [py_str chosen]))
    end
  else raise (CommandFailedError "uknown preset to execute").

(** The defaults and the absolute paths of a preset. *)
Definition complete_preset (preset : dict) : result dict :=
  let preset :=
    fold_left Package.set_default
      [ "home"; "platform"; "package"; "cache path"; "install prefix";
        "download prefix"; "package prefix"; "bin prefix"; "include prefix";
        "lib prefix" ] preset in
  let default := fun (preset : dict) (key : string) (value : dict -> result json) =>
    v <~ Package.item key preset ;;
    if negb (truthy v) then
      d <~ value preset ;; Ok (Dict.set key d preset)
    else Ok preset in
  let under := fun (base name : string) (preset : dict) =>
    b <~ Package.item base preset ;;
    b <~ as_str b ;;
    Ok (JStr (os_path.join b name)) in
  preset <~ default preset "home" (fun _ => Ok (JStr "~/.pheniqs")) ;;
  preset <~ default preset "platform" (fun _ => Ok (JStr (platform_system E))) ;;
  preset <~ default preset "cache path" (under "home" "cache.json") ;;
  preset <~ default preset "install prefix" (under "home" "install") ;;
  preset <~ default preset "download prefix" (under "home" "download") ;;
  preset <~ default preset "package prefix" (under "home" "package") ;;
  preset <~ default preset "bin prefix" (under "install prefix" "bin") ;;
  preset <~ default preset "include prefix" (under "install prefix" "include") ;;
  preset <~ default preset "lib prefix" (under "install prefix" "lib") ;;
  fold_left
    (fun acc path =>
       preset <~ acc ;;
       v <~ Package.item path preset ;;
       v <~ expand v ;;
       Ok (Dict.set path v preset))
    [ "home"; "cache path"; "install prefix"; "download prefix";
      "package prefix"; "bin prefix"; "include prefix"; "lib prefix" ]
    (Ok preset).

(** The pipeline the packages of the run read. *)
Definition the_pipeline_of (i : dict) : result pipeline :=
  let prefix := fun key => v <~ Package.item key i ;; as_str v in
  platform <~ Package.item "platform" i ;;
  install <~ prefix "install prefix" ;;
  download <~ prefix "download prefix" ;;
  package <~ prefix "package prefix" ;;
  bin <~ prefix "bin prefix" ;;
  include <~ prefix "include prefix" ;;
  lib <~ prefix "lib prefix" ;;
  d <~ Package.item "document sha1 digest" i ;;
  d <~ as_str d ;;
  Ok {| platform := platform; install_prefix := install;
        download_prefix := download; package_prefix := package;
        bin_prefix := bin; include_prefix := include; lib_prefix := lib;
        persisted_instruction := ["environment"; d] |}.

(** [io.open(path, 'a')]. *)
Definition open_append (path : string) : M unit :=
  s <- get_state ;;
  match fs s path with
  | Some (File true _) => ret tt
  | Some _ => raise (OSError path)
  | None =>
      match fs s (os_path.dirname path) with
      | Some (Dir true) => set_fs (fs_update path (Some (File true "")) (fs s))
      | _ => raise (OSError path)
      end
  end.

(** [self.package_implementation]. *)
Definition package_implementation : M dict :=
  s <- get_state ;;
  match jget ["package implementation"] (ontology s) with
  | Some (JObj d) => ret d
  | Some _ => raise TypeError
  | None => raise (KeyError "package implementation")
  end.

(** The action of the run on one package: the chain of [if] and [elif] on
    [self.action] in the loop of [execute]. *)
Definition perform (action : json) (package : package) : M unit :=
  if eq_str action "clean" then
    display_name <- node_get package "display name" ;;
    log "info" ("cleaning " ++ py_str display_name) ;;
    clean E package
  else if eq_str action "build" then
    installed <- installed package ;;
    if negb (truthy installed) then install E package
    else
      display_name <- node_get package "display name" ;;
      log "info" (py_str display_name ++ " is already installed")
  else if eq_str action "clean.package" then
    display_name <- node_get package "display name" ;;
    log "info" ("clearing " ++ py_str display_name) ;;
    clean_package E package
  else ret tt.

(** The body of [if package:] in the loop of [execute]: the action, then
    [save_cache]. *)
Definition act (package : package) : M unit :=
  action <- instruction_item "action" ;;
  perform action package ;;
  save_cache.

(** The same for an object that is no package: the use the action makes of
    it, when it is one of the three, then [save_cache]. *)
Definition act_alien (use : result unit) : M unit :=
  action <- instruction_item "action" ;;
  (if eq_str action "clean" || eq_str action "build"
      || eq_str action "clean.package"
   then lift use else ret tt) ;;
  save_cache.

(** The loop of [execute] over [self.instruction['package']]. *)
Fixpoint packages (pl : pipeline) (l : list json) : M unit :=
  match l with
  | [] => ret tt
  | o :: rest =>
      o <- match o with
           | JObj d => ret d
           | _ => raise TypeError
           end ;;
      key <- lift (Package.item "name" o) ;;
      implementation <- package_implementation ;;
      o <- match key with
           | JStr k =>
               match Dict.lookup k implementation with
               | Some i =>
                   m <- lift (merge (JObj o) i) ;;
                   match m with
                   | JObj d => ret d
                   | _ => raise TypeError
                   end
               | None => ret o
               end
           | JList _ | JObj _ => raise TypeError
           | _ => ret o
           end ;;
      package <- create E pl o ;;
      match package with
      | Some (Own package) => act package
      | Some (Alien use) => act_alien use
      | None => ret tt
      end ;;
      packages pl rest
  end.

(** [execute].  The preset of a run that names one is changed in place
    inside [ontology['preset']]; nothing reads it there afterwards, and the
    document keeps it as it was. *)
Definition execute : M unit :=
  preset <- resolve_preset ;;
  preset <- lift (complete_preset preset) ;;
  i <- instruction ;;
  merged <- lift (merge (JObj i) (JObj preset)) ;;
  s <- get_state ;;
  set_ontology (jset ["instruction"] merged (ontology s)) ;;
  load_cache ;;
  d <- instruction_item "document sha1 digest" ;;
  s <- get_state ;;
  (match jget ["environment"] (cache s) with
   | Some (JObj environment) =>
       match d with
       | JStr d =>
           when (negb (Dict.has_key d environment))
                (set_cache (jset ["environment"; d]
                                 (JObj [("package", JObj [])]) (cache s)))
       | _ => raise TypeError
       end
   | Some _ => raise TypeError
   | None => raise (KeyError "environment")
   end) ;;
  package <- instruction_item "package" ;;
  if truthy package then
    i <- instruction ;;
    pl <- lift (the_pipeline_of i) ;;
    home <- instruction_item "home" ;;
    home <- lift (as_str home) ;;
    prepare_directory E home ;;
    prepare_directory E (install_prefix pl) ;;
    prepare_directory E (download_prefix pl) ;;
    prepare_directory E (package_prefix pl) ;;
    open_append (os_path.join home "output") ;;
    open_append (os_path.join home "error") ;;
    l <- lift (iterate package) ;;
    packages pl l
  else ret tt.

End Methods.

End PackageManager.

(** The exit status of [main] after [PackageManager(configuration)] and
    [execute()]: 0 when they return or exit with the status 0, 1 when
    another exception leaves them, after a record at critical severity for
    the kinds [main] catches. *)
Definition main (E : oracle) (configuration : json) : M Z :=
  try_except
    (PackageManager.__init__ E configuration ;;
     PackageManager.execute E ;;
     ret 0%Z)
    (fun e =>
       match e with
       | DownloadError m | CommandFailedError m =>
           log "critical" m ;; ret 1%Z
       | SystemExit code =>
           if (code =? 0)%Z then ret 0%Z
           else log "critical" (str_Z code) ;; ret 1%Z
       | _ => ret 1%Z
       end).

(* ================================================================== *)
(** * Sample surroundings, for the examples *)

Module Sample.

(** What [rm -rf d] leaves of a file system. *)
Definition rm_tree (d : string) (f : filesystem) : filesystem :=
  fun q => if (q =? d) || String.prefix (d ++ "/") q then None else f q.

Definition payload : string := "archive bytes".

(** A world where the first mirror cannot be reached, the second one
    serves [payload], [rm -rf] removes, [tar] makes the directory of the
    package and every other command succeeds. *)
Definition E : oracle := {|
  urlopen := fun _ u =>
    if u =? "http://b/x-1.0.tar.gz" then Content payload
    else URLError "timed out";
  popen := fun _ args _ f =>
    match args with
    | ["rm"; "-rf"; d] => (Ok (0%Z, "", ""), rm_tree d f)
    | "tar" :: _ =>
        (Ok (0%Z, "", ""), fs_update "/w/package/x-1.0" (Some (Dir true)) f)
    | _ => (Ok (0%Z, "out", "err"), f)
    end;
  symlink := fun _ _ _ f => Ok f;
  file_write := fun _ _ _ => Ok tt;
  imported := fun module _ => NoModule ("No module named " ++ Py.repr module);
  now := fun _ => "2020-01-01 00:00:00";
  environ := [("PATH", JStr "/usr/bin")];
  abspath := fun p => p;
  realpath := fun p => p;
  platform_system := "Linux";
  getcwd := "/w";
  json_loads := fun _ => Raise (ValueError "no document");
  recursion_limit := 1000
|}.

Definition files : filesystem :=
  fun p =>
    if p =? "/" then Some (Dir true)
    else if p =? "/w" then Some (Dir true)
    else if p =? "/w/package" then Some (Dir true)
    else if p =? "/ro" then Some (Dir false)
    else None.

Definition pl : pipeline := {|
  platform := JStr "Linux";
  install_prefix := "/w/install";
  download_prefix := "/w/download";
  package_prefix := "/w/package";
  bin_prefix := "/w/install/bin";
  include_prefix := "/w/install/include";
  lib_prefix := "/w/install/lib";
  persisted_instruction := ["environment"; "plan"]
|}.

(** The state of a run of [action] before its first package. *)
Definition start (action : string) : state := {|
  fs := files;
  trace := [];
  ontology := JObj [("instruction", JObj [("action", JStr action)])];
  cache := JObj [("environment", JObj [("plan", JObj [("package", JObj [])])])]
|}.

(** A descriptor with two mirrors and the checksum of [payload]. *)
Definition archive : dict :=
  [ ("name", JStr "x");
    ("remote url", JList [JStr "http://a/x-1.0.tar.gz"; JStr "http://b/x-1.0.tar.gz"]);
    ("sha1", JStr "c7406ff5b3bb4e6bd8ba3ac8b8669c7421919fa7");
    ("job implementation", JStr "pheniqs-build-api.Make") ].

(** A descriptor of sources that are already in place: a package url and no
    remote url. *)
Definition local : dict :=
  [ ("name", JStr "zlib");
    ("package url", JStr "/w/package/zlib");
    ("job implementation", JStr "pheniqs-build-api.Make") ].

End Sample.
(* ================================================================== *)
(** * Vocabulary of the statements *)

(** The [k]-th ancestor of a path. *)
Definition ancestor (k : nat) (p : string) : string := Nat.iter k os_path.dirname p.

(** The record of a package in a state. *)
Definition node_of (self : package) (s : state) : option dict :=
  match jget (node_path self) (cache s) with
  | Some (JObj d) => Some d
  | _ => None
  end.

Definition with_cache (c : json) (s : state) : state :=
  {| fs := fs s; trace := trace s; ontology := ontology s; cache := c |}.

Definition no_command (e : event) : Prop :=
  match e with Popen _ _ _ => False | _ => True end.

(** A computation that leaves the two documents alone and appends events
    that are not child processes. *)
Definition quiet {A} (m : M A) : Prop :=
  forall s,
    cache (snd (m s)) = cache s /\
    ontology (snd (m s)) = ontology s /\
    exists evs, trace (snd (m s)) = (trace s ++ evs)%list /\ Forall no_command evs.

Module Abstract.

(** The four stage flags of a record. *)
Record progress : Type := mk {
  unpacked : bool;
  configured : bool;
  built : bool;
  installed : bool
}.

Definition none : progress := mk false false false false.

(** [self.node[key] = value] on the flags. *)
Definition update (key : string) (value : bool) (f : progress) : progress :=
  if key =? "unpacked" then mk value (configured f) (built f) (installed f)
  else if key =? "configured" then mk (unpacked f) value (built f) (installed f)
  else if key =? "built" then mk (unpacked f) (configured f) value (installed f)
  else if key =? "installed" then mk (unpacked f) (configured f) (built f) value
  else f.

(** An outcome of a method: did it return, and the flags it leaves.  A
    method that has set its flag can still raise: the captured streams are
    decoded and written after the assignment. *)
Definition outcome : Type := (bool * progress)%type.

Definition fails (f : progress) : outcome := (false, f).
Definition returns (f : progress) : outcome := (true, f).

(** The outcomes of a method followed by another one. *)
Definition then_ (l : list outcome) (k : progress -> list outcome) : list outcome :=
  flat_map (fun o : outcome => if fst o then k (snd o) else [fails (snd o)]) l.

Definition reset (f : progress) : progress := mk (unpacked f) false false false.

(** The outcomes of the methods, for a descriptor that has a download url
    ([hd]) or a package url ([hp]). *)
Definition clean_package (hd : bool) (f : progress) : list outcome :=
  fails f :: (if hd then [returns none] else [returns f]).

Definition package_clean (f : progress) : list outcome := [returns (reset f)].

Definition make_clean (hp : bool) (f : progress) : list outcome :=
  fails f :: (if hp then [returns (reset f); fails (reset f)] else [returns f]).

Definition unpack (hd : bool) (f : progress) : list outcome :=
  if unpacked f then [returns f]
  else fails f ::
       then_ (clean_package hd f)
             (fun f1 => if hd then [fails f1; returns (update "unpacked" true f1);
                                    fails (update "unpacked" true f1)]
                        else [fails f1; returns f1]).

Definition package_configure (hd : bool) (f : progress) : list outcome :=
  if configured f then [returns f]
  else fails f ::
       then_ (unpack hd f) (fun f1 => [returns (update "configured" true f1)]).

Definition package_build (hd : bool) (f : progress) : list outcome :=
  if built f then [returns f]
  else fails f ::
       then_ (package_configure hd f)
             (fun f1 => [returns (update "built" true f1)]).

Definition package_install (hd : bool) (f : progress) : list outcome :=
  if installed f then [returns f]
  else fails f ::
       then_ (package_build hd f)
             (fun f1 => [returns (update "installed" true f1)]).

Definition make_configure (hd hp : bool) (f : progress) : list outcome :=
  if configured f then [returns f]
  else fails f ::
       (if hp then
          then_ (unpack hd f)
                (fun f1 => [fails f1; returns (update "configured" true f1);
                            fails (update "configured" true f1)])
        else [returns f]).

Definition make_build (hd hp : bool) (f : progress) : list outcome :=
  if built f then [returns f]
  else fails f ::
       then_ (make_configure hd hp f)
             (fun f1 => fails f1 ::
                        (if hp then [returns (update "built" true f1);
                                     fails (update "built" true f1)]
                         else [returns f1])).

Definition bzip2_build (linux hd hp : bool) (f : progress) : list outcome :=
  if linux then
    if built f then [returns f]
    else fails f ::
         then_ (make_configure hd hp f)
               (fun f1 => fails f1 ::
                          (if hp then make_build hd hp f1 else [returns f1]))
  else make_build hd hp f.

(** [install] of the classes whose [install] runs commands after [build]. *)
Definition install_after (build : progress -> list outcome) (hp : bool)
  (f : progress) : list outcome :=
  if installed f then [returns f]
  else fails f ::
       then_ (build f)
             (fun f1 => fails f1 ::
                        (if hp then [returns (update "installed" true f1);
                                     fails (update "installed" true f1)]
                         else [returns f1])).

Definition make_family (c : job_implementation) : bool :=
  match c with
  | ClassPackage | ClassRapidJSON => false
  | _ => true
  end.

(** The methods [clean], [configure], [build] and [install] of a class. *)
Definition clean (c : job_implementation) (hp : bool) (f : progress) : list outcome :=
  if make_family c then make_clean hp f else package_clean f.

Definition configure (c : job_implementation) (hd hp : bool) (f : progress)
  : list outcome :=
  if make_family c then make_configure hd hp f else package_configure hd f.

Definition build (c : job_implementation) (linux hd hp : bool) (f : progress)
  : list outcome :=
  match c with
  | ClassPackage | ClassRapidJSON => package_build hd f
  | ClassBZip2 => bzip2_build linux hd hp f
  | _ => make_build hd hp f
  end.

Definition install (c : job_implementation) (linux hd hp : bool) (f : progress)
  : list outcome :=
  match c with
  | ClassPackage => package_install hd f
  | ClassRapidJSON => install_after (package_build hd) hp f
  | ClassLibDeflate => install_after (make_build hd hp) hp f
  | _ => install_after (build c linux hd hp) hp f
  end.

End Abstract.

(** The truth value of a flag of the record, and whether a field of the
    record is there and not [None]. *)
Definition flag (self : package) (key : string) (s : state) : bool :=
  match field self key s with Some v => truthy v | None => false end.

Definition given (self : package) (key : string) (s : state) : bool :=
  match field self key s with Some v => negb (is_None v) | None => false end.

Definition alive (self : package) (s : state) : bool :=
  match node_of self s with Some _ => true | None => false end.

Definition progress_of (self : package) (s : state) : Abstract.progress :=
  Abstract.mk (flag self "unpacked" s) (flag self "configured" s)
              (flag self "built" s) (flag self "installed" s).

Definition is_ok {A} (r : result A) : bool :=
  match r with Ok _ => true | Raise _ => false end.

Definition on_linux (self : package) : bool :=
  eq_str (platform (the_pipeline self)) "Linux".

(** The flag of a key. *)
Definition get_flag (key : string) (f : Abstract.progress) : bool :=
  if key =? "unpacked" then Abstract.unpacked f
  else if key =? "configured" then Abstract.configured f
  else if key =? "built" then Abstract.built f
  else Abstract.installed f.

Definition is_flag (key : string) : bool :=
  (key =? "unpacked") || (key =? "configured") || (key =? "built")
  || (key =? "installed").

Definition progress_eqb (f g : Abstract.progress) : bool :=
  Bool.eqb (Abstract.unpacked f) (Abstract.unpacked g)
  && Bool.eqb (Abstract.configured f) (Abstract.configured g)
  && Bool.eqb (Abstract.built f) (Abstract.built g)
  && Bool.eqb (Abstract.installed f) (Abstract.installed g).

Definition outcome_eqb (o p : Abstract.outcome) : bool :=
  Bool.eqb (fst o) (fst p) && progress_eqb (snd o) (snd p).

(** Every outcome of [l] is an outcome of [l']. *)
Definition among (l l' : list Abstract.outcome) : bool :=
  forallb (fun o => existsb (outcome_eqb o) l') l.

(** A method of a record that is there whose effect on the flags is one of
    the outcomes [a] lists; the record stays, with its download url and its
    package url. *)
Definition follows (self : package)
  (a : bool -> bool -> Abstract.progress -> list Abstract.outcome)
  (m : M unit) : Prop :=
  forall s r s',
    alive self s = true ->
    m s = (r, s') ->
    In (is_ok r, progress_of self s')
       (a (given self "download url" s) (given self "package url" s)
          (progress_of self s)) /\
    given self "download url" s' = given self "download url" s /\
    given self "package url" s' = given self "package url" s /\
    alive self s' = true.

(** A computation after which the flags of the record, its download url
    and its package url are what they were. *)
Definition inert (self : package) {A} (m : M A) : Prop :=
  forall s,
    progress_of self (snd (m s)) = progress_of self s /\
    given self "download url" (snd (m s)) = given self "download url" s /\
    given self "package url" (snd (m s)) = given self "package url" s /\
    alive self (snd (m s)) = alive self s.

(** [self.node[key] = value] for a key that is not one of the flags or
    the two urls. *)
Definition passive (key : string) : bool :=
  negb (key =? "unpacked") && negb (key =? "configured")
  && negb (key =? "built") && negb (key =? "installed")
  && negb (key =? "download url") && negb (key =? "package url").

(** The methods a run calls on a package. *)
Inductive method : Type :=
| Clean
| CleanPackage
| Unpack
| Configure
| Build
| Install.

Definition call (E : oracle) (m : method) (self : package) : M unit :=
  match m with
  | Clean => clean E self
  | CleanPackage => clean_package E self
  | Unpack => unpack E self
  | Configure => configure E self
  | Build => build E self
  | Install => install E self
  end.

Definition outcomes (m : method) (c : job_implementation) (linux hd hp : bool)
  (f : Abstract.progress) : list Abstract.outcome :=
  match m with
  | Clean => Abstract.clean c hp f
  | CleanPackage => Abstract.clean_package hd f
  | Unpack => Abstract.unpack hd f
  | Configure => Abstract.configure c hd hp f
  | Build => Abstract.build c linux hd hp f
  | Install => Abstract.install c linux hd hp f
  end.

(** The order of the flags, for a descriptor with a download url or
    without one. *)
Definition ordered (hd : bool) (f : Abstract.progress) : bool :=
  implb (Abstract.installed f) (Abstract.built f)
  && implb (Abstract.built f) (Abstract.configured f)
  && implb (hd && Abstract.configured f) (Abstract.unpacked f).

(** A package built with make that has no package url never gets past its
    first stage. *)
Definition idle (c : job_implementation) (hp : bool) (f : Abstract.progress) : bool :=
  implb (Abstract.make_family c && negb hp)
        (negb (Abstract.configured f) && negb (Abstract.built f)
         && negb (Abstract.installed f)).

Definition invariant (c : job_implementation) (hd hp : bool) (f : Abstract.progress)
  : bool :=
  ordered hd f && idle c hp f.

Definition stage_keys : list string :=
  ["unpacked"; "configured"; "built"; "installed"].

(** The record of a package as [Package.__init__] makes it: the four flags
    false, and the two urls and the display name of the normalised
    descriptor, whatever their values. *)
Definition fresh (self : package) (s : state) : Prop :=
  Forall (fun k => field self k s = Some (JBool false)) stage_keys /\
  Forall (fun k => field self k s <> None)
         ["download url"; "package url"; "display name"].

(** The states a progress record goes through: the record as
    [Package.__init__] makes it, then any call of a method of the package,
    and anything that leaves the record alone (the other packages, the
    surroundings). *)
Inductive reachable (E : oracle) (self : package) : state -> Prop :=
| reach_fresh s :
    fresh self s ->
    reachable E self s
| reach_call s m :
    reachable E self s ->
    reachable E self (snd (call E m self s))
| reach_other s s' :
    reachable E self s ->
    node_of self s' = node_of self s ->
    reachable E self s'.

(** The keys of a record that every reachable state has. *)
Definition known_keys : list string :=
  (stage_keys ++ ["download url"; "package url"; "display name"])%list.

Module SampleRuns.

(** The package object [Package.create] makes of a descriptor, and the state
    it leaves. *)
Definition made (d : dict) : result (option instance) * state :=
  create Sample.E Sample.pl d (Sample.start "build").

Definition object (d : dict) : package :=
  match fst (made d) with
  | Ok (Some (Own p)) => p
  | _ => {| class := ClassPackage; the_pipeline := Sample.pl; digest := "" |}
  end.

Definition created (d : dict) : state := snd (made d).

(** The state after [install()] on the new object. *)
Definition installed (d : dict) : state :=
  snd (call Sample.E Install (object d) (created d)).

(** The state after [clean()] on the installed package. *)
Definition cleaned (d : dict) : state :=
  snd (call Sample.E Clean (object d) (installed d)).

(** The state after [clean_package()] on the installed package. *)
Definition emptied (d : dict) : state :=
  snd (call Sample.E CleanPackage (object d) (installed d)).

End SampleRuns.

(** A computation whose final state is related to its first state by a
    relation that holds across every step: a change of the file system, an
    event, an assignment to a key of the record that is [allowed]. *)
Definition respects (R : state -> state -> Prop) {A} (m : M A) : Prop :=
  forall s, R s (snd (m s)).

Record steady (self : package) (allowed : string -> bool)
  (R : state -> state -> Prop) : Prop := {
  steady_refl : forall s, R s s;
  steady_trans : forall s1 s2 s3, R s1 s2 -> R s2 s3 -> R s1 s3;
  steady_fs : forall s f,
      R s {| fs := f; trace := trace s; ontology := ontology s; cache := cache s |};
  steady_emit : forall s e,
      R s {| fs := fs s; trace := (trace s ++ [e])%list;
             ontology := ontology s; cache := cache s |};
  steady_set : forall s k v,
      allowed k = true ->
      R s (with_cache (jset (node_path self ++ [k]) v (cache s)) s)
}.

(** The keys of a record that [clean] does not assign: every key but the
    three later flags and the environment of the child processes, which is
    made when a command first needs it. *)
Definition kept (key : string) : bool :=
  negb (key =? "configured") && negb (key =? "built")
  && negb (key =? "installed") && negb (key =? "env").

Definition same_fields (self : package) (s s' : state) : Prop :=
  forall k, kept k = true -> field self k s' = field self k s.

Definition keeps_keys (self : package) (s s' : state) : Prop :=
  forall k, field self k s <> None -> field self k s' <> None.

Definition appends (s s' : state) : Prop :=
  exists evs, trace s' = (trace s ++ evs)%list.
(** An event that is not a child process with a non-zero exit status. *)
Definition zero_exit (e : event) : bool :=
  match e with
  | Popen _ _ code => (code =? 0)%Z
  | _ => true
  end.

Definition always {A} (a : A) : bool := true.

Definition exit_zero (r : Z * string * string) : bool := (fst (fst r) =? 0)%Z.

(** A computation that appends events, and when it returns a value that is
    [ok], every child process among them has exit status 0. *)
Definition checked {A} (ok : A -> bool) (m : M A) : Prop :=
  forall s, exists evs,
    trace (snd (m s)) = (trace s ++ evs)%list /\
    (forall a, fst (m s) = Ok a -> ok a = true -> forallb zero_exit evs = true).

(** A computation that appends events and raises. *)
Definition stops {A} (m : M A) : Prop :=
  forall s,
    (exists evs, trace (snd (m s)) = (trace s ++ evs)%list) /\
    is_ok (fst (m s)) = false.

(** The flag a stage method sets. *)
Definition stage_key (m : method) : option string :=
  match m with
  | Unpack => Some "unpacked"
  | Configure => Some "configured"
  | Build => Some "built"
  | Install => Some "installed"
  | Clean | CleanPackage => None
  end.

(** The flags of the stages up to the one of a stage method. *)
Definition upto (m : method) (f : Abstract.progress) : bool :=
  match m with
  | Unpack => Abstract.unpacked f
  | Configure => Abstract.unpacked f && Abstract.configured f
  | Build => Abstract.unpacked f && Abstract.configured f && Abstract.built f
  | Install =>
      Abstract.unpacked f && Abstract.configured f && Abstract.built f
      && Abstract.installed f
  | Clean | CleanPackage => true
  end.

(** What an outcome of a stage method has to satisfy: after a return, for
    a descriptor with a download url and a package url, the flags up to the
    stage are set. *)
Definition stage_outcome (m : method) (hd hp : bool) (o : Abstract.outcome) : bool :=
  match stage_key m with
  | Some k => implb (fst o && hd && hp) (upto m (snd o))
  | None => true
  end.

(** A computation that does not set the flag [k] of a record: when the flag
    is unset before, it is unset after. *)
Definition unset (self : package) (k : string) {A} (m : M A) : Prop :=
  forall s, flag self k s = false -> flag self k (snd (m s)) = false.

(** A computation that sets the flag [k] of a record only when every child
    process it has run had exit status 0: it appends events, and when one
    of them is a child process with another exit status, the flag, unset
    before, is unset after. *)
Definition strict (self : package) (k : string) {A} (m : M A) : Prop :=
  forall s,
    flag self k s = false ->
    exists evs,
      trace (snd (m s)) = (trace s ++ evs)%list /\
      (forallb zero_exit evs = false -> flag self k (snd (m s)) = false).

(** A state with more events. *)
Definition with_events (evs : list event) (s : state) : state :=
  {| fs := fs s; trace := (trace s ++ evs)%list;
     ontology := ontology s; cache := cache s |}.

Definition is_log (e : event) : bool :=
  match e with Log _ _ => true | _ => false end.

(** What the flags are after [install] returned: the package is installed,
    or it has no package url and its class has nothing to run for it. *)
Definition settled (c : job_implementation) (hp : bool) (f : Abstract.progress)
  : bool :=
  Abstract.installed f
  || (negb hp
      && match c with
         | ClassPackage => false
         | ClassRapidJSON => Abstract.built f
         | _ => negb (Abstract.configured f) && negb (Abstract.built f)
         end).

(** What [download] makes of the answer of a mirror: the mirror is rejected
    with an error that is logged, its payload is accepted, or the request
    raises something else. *)
Inductive verdict : Type :=
| Rejected (error : string)
| Accepted (content : string)
| Fatal (e : exn).

(** The verdict on the mirror [u] asked at time [t], for a descriptor with
    the checksum [sha1] and the display name [display_name]. *)
Definition judge (E : oracle) (sha1 display_name : json) (t : nat) (u : string)
  : verdict :=
  match urlopen E t u with
  | BadStatusLine =>
      Rejected (Py.format "Bad http status error when requesting {}" [u])
  | HTTPError code =>
      Rejected (Py.format "Server returned an error when requesting {}: {}" [u; code])
  | URLError reason =>
      Rejected (Py.format "Could not reach server when requesting {}: {}" [u; reason])
  | Fails e => Fatal e
  | Content content =>
      if negb (is_None sha1) && negb (eq_str sha1 (hashlib.sha1 content))
      then Rejected (Py.format "{} checksum {} differs from {}"
                               [py_str display_name; hashlib.sha1 content;
                                py_str sha1])
      else Accepted content
  end.

(** The mirrors of a list that are rejected one after the other, the first
    one asked when the trace has [t] events: their events, the last error,
    and the mirrors that are left. *)
Fixpoint rejected_prefix (E : oracle) (sha1 display_name : json) (t : nat)
  (l : list string) (error : json) : list event * json * list string :=
  match l with
  | [] => ([], error, [])
  | u :: rest =>
      match judge E sha1 display_name (S t) u with
      | Rejected msg =>
          let '(evs, last, others) :=
            rejected_prefix E sha1 display_name (3 + t) rest (JStr msg) in
          (Log "debug" ("fetching " ++ u) :: Request u :: Log "warning" msg :: evs,
           last, others)
      | _ => ([], error, l)
      end
  end.

(** The mirrors of a descriptor: [remote url] is a list or one url. *)
Definition mirrors (remote_url : json) : list json :=
  match remote_url with
  | JList l => l
  | u => [u]
  end.

(** The files written, in the order of the events. *)
Definition writes (evs : list event) : list (string * string) :=
  flat_map (fun e => match e with Written p c => [(p, c)] | _ => [] end) evs.

(** The requests made, in the order of the events. *)
Definition requests (evs : list event) : list string :=
  flat_map (fun e => match e with Request u => [u] | _ => [] end) evs.

(** The checksum of a descriptor accepts a content: none is declared, or
    it is the digest of the content. *)
Definition verified (sha1 : json) (content : string) : Prop :=
  is_None sha1 = true \/ sha1 = JStr (hashlib.sha1 content).

(** Events that write nothing, or one file at [p] with a content the
    checksum accepts. *)
Definition tidy (sha1 : json) (p : string) (evs : list event) : Prop :=
  writes evs = [] \/
  exists content, writes evs = [(p, content)] /\ verified sha1 content.

Module SampleMain.

(** A configuration as [CommandLineParser.configuration] gives it for
    [build --preset static]: the name, the instruction, the classes of the
    packages and the presets. *)
Definition configuration : json :=
  JObj [ ("name", JStr "build api");
         ("instruction", JObj [("action", JStr "build"); ("preset", JStr "static")]);
         ("package implementation",
          JObj [("x", JObj [("job implementation", JStr "pheniqs-build-api.Make")])]);
         ("pheniqs code url prefix", JStr "https://codeload.github.com/biosails/pheniqs");
         ("preset",
          JObj [("static",
                 JObj [ ("home", JStr "/w/home");
                        ("download prefix", JStr "/w/download");
                        ("package prefix", JStr "/w/package");
                        ("package",
                         JList [JObj [ ("name", JStr "x");
                                       ("remote url",
                                        JList [JStr "http://a/x-1.0.tar.gz";
                                               JStr "http://b/x-1.0.tar.gz"]);
                                       ("sha1",
                                        JStr "c7406ff5b3bb4e6bd8ba3ac8b8669c7421919fa7") ]]) ])]) ].

(** The state a process starts in. *)
Definition boot : state :=
  {| fs := Sample.files; trace := []; ontology := JNull; cache := JNull |}.

(** The result of [main] on the configuration, and the state it ends in. *)
Definition ran : result Z * state := main Sample.E configuration boot.

(** The document [ontology] at the end of the run. *)
Definition document : dict :=
  match ontology (snd ran) with
  | JObj o => o
  | _ => []
  end.

End SampleMain.

(** Two states with the same document [ontology]. *)
Definition same_ontology (s s' : state) : Prop := ontology s' = ontology s.

(** The part of [unpack] that follows [download]: the command of the
    compression, and the flag once the command has exit status 0. *)
Definition extract (E : oracle) (self : package) : M unit :=
  display_name <- node_get self "display name" ;;
  log "info" ("unpacking " ++ py_str display_name) ;;
  compression <- node_get self "compression" ;;
  command <-
    (if eq_str compression "gz" || eq_str compression "bz2" then
       d <- Package.path_of self "download url" ;;
       ret (["tar"; "-x"]
              ++ (if eq_str compression "gz" then ["-z"]
                  else if eq_str compression "bz2" then ["-j"] else [])
              ++ ["-f"; d])%list
     else if eq_str compression "zip" then
       d <- Package.path_of self "download url" ;;
       ret ["unzip"; "-x"; d]
     else ret []) ;;
  Package.env E self ;;
  r <- communicate E command (Some (package_prefix (the_pipeline self))) ;;
  let '(code, output, error) := r in
  if (code =? 0)%Z then
    node_set self "unpacked" (JBool true) ;;
    Package.write_streams E output error
  else
    Package.print_failure code output error ;;
    raise (CommandFailedError (Py.format "tar returned {}" [str_Z code])).

(** The assumption on the surroundings that [remove_directory] makes: an
    [rm -rf d] with exit status 0 has removed [d]. *)
Definition rm_removes (E : oracle) (d : string) : Prop :=
  forall t f code output error f',
    popen E t ["rm"; "-rf"; d] None f = (Ok (code, output, error), f') ->
    code = 0%Z ->
    os.present f' d = false.

(** A record whose four flags are [False]. *)
Definition cleared (self : package) (s : state) : Prop :=
  Forall (fun k => field self k s = Some (JBool false)) stage_keys.

(** The fields of a record that no method of a package assigns: every
    key but the four flags and the environment of the child processes. *)
Definition descriptor_key (key : string) : bool :=
  negb (is_flag key) && negb (key =? "env").

Definition same_descriptor (self : package) (s s' : state) : Prop :=
  forall k, descriptor_key k = true -> field self k s' = field self k s.

(** Two dictionaries with the same fields and the same values, in whatever
    order. *)
Definition same_items (d1 d2 : dict) : Prop :=
  forall k, Dict.lookup k d1 = Dict.lookup k d2.

(** A dictionary as Python has it: no key twice. *)
Definition unique_keys (d : dict) : Prop := NoDup (Dict.keys d).

Definition alike (d1 d2 : dict) : Prop :=
  same_items d1 d2 /\ unique_keys d1 /\ unique_keys d2.

(** Two results of a computation on dictionaries: the same exception, or
    dictionaries that are alike. *)
Definition agree (r1 r2 : result dict) : Prop :=
  match r1, r2 with
  | Ok a, Ok b => alike a b
  | Raise e1, Raise e2 => e1 = e2
  | _, _ => False
  end.

Module SampleDigest.

(** The sample descriptor with another checksum. *)
Definition with_checksum (w : string) : dict :=
  Dict.set "sha1" (JStr w) Sample.archive.

Definition changed : dict :=
  with_checksum "da39a3ee5e6b4b0d3255bfef95601890afd80709".

(** A checksum for every number: so many zeros. *)
Fixpoint zeros (n : nat) : string :=
  match n with
  | O => EmptyString
  | S n' => String "0"%char (zeros n')
  end.

(** The digest [Package.__init__] computes for a descriptor. *)
Definition digest_of (d : dict) : result string :=
  match Package.normalize Sample.E Sample.pl d with
  | Ok n => Ok (Package.document_sha1_digest n)
  | Raise e => Raise e
  end.

End SampleDigest.

Module SampleBare.

(** A descriptor with a class that builds with make and neither an archive
    nor sources in place. *)
Definition descriptor : dict :=
  [ ("name", JStr "y");
    ("job implementation", JStr "pheniqs-build-api.Make") ].

End SampleBare.

(** [command.append('PREFIX={}'.format(self.install_prefix))] under
    [if self.include_prefix_in_make], by the value of the field. *)
Definition prefixed (self : package) (command : list json) (include_prefix : json)
  : list json :=
  if truthy include_prefix
  then (command
          ++ [JStr (Py.format "PREFIX={}" [install_prefix (the_pipeline self)])])%list
  else command.

(** [command.extend(optional)] under [if optional], by the value of the
    field. *)
Definition extended (command : list json) (optional : json)
  : result (list json) :=
  if truthy optional
  then more <~ iterate optional ;; Ok (command ++ more)%list
  else Ok command.

(** What a stage that runs a command leaves: after the events [before],
    counted from the state [s1], the child process [args] in the directory
    [cwd] with the exit status [code] the surroundings give, then no other
    child process; with exit status 0 the field [key] is [True], with any
    other the stage raises and the field is what it was in [s1]. *)
Definition ran (self : package) (key : string) (s1 : state)
  (before : list event) (args : list string) (cwd : string) (code : Z)
  (r : result unit * state) : Prop :=
  exists evs,
    trace (snd r)
    = (trace s1 ++ before ++ Popen args (Some cwd) code :: evs)%list /\
    Forall no_command evs /\
    (code = 0%Z -> field self key (snd r) = Some (JBool true)) /\
    (code <> 0%Z ->
     is_ok (fst r) = false /\ field self key (snd r) = field self key s1).

(** The command of the extraction, by the compression of the archive. *)
Definition extract_command (compression : json) (download_url : string)
  : list string :=
  if eq_str compression "gz" then ["tar"; "-x"; "-z"; "-f"; download_url]
  else if eq_str compression "bz2" then ["tar"; "-x"; "-j"; "-f"; download_url]
  else if eq_str compression "zip" then ["unzip"; "-x"; download_url]
  else [].

(** The commands of the child processes among events, in their order. *)
Definition commands (evs : list event) : list (list string) :=
  flat_map (fun e => match e with Popen args _ _ => [args] | _ => [] end) evs.

Module SampleRerun.

(** A second process on the file system the first one has left: [main]
    again, which makes its two documents anew. *)
Definition again : result Z * state :=
  main Sample.E SampleMain.configuration (snd SampleMain.ran).

(** The events of the second process. *)
Definition events : list event :=
  skipn (List.length (trace (snd SampleMain.ran))) (trace (snd again)).

End SampleRerun.

(** The items of a dictionary in the order of their keys, as [sort_keys]
    puts them. *)
Fixpoint insert_field (kv : string * json) (l : dict) : dict :=
  match l with
  | [] => [kv]
  | x :: r =>
      if String.leb (fst kv) (fst x) then kv :: l else x :: insert_field kv r
  end.

Definition sort_fields (d : dict) : dict := fold_right insert_field [] d.

(** A value with the items of every dictionary in it in the order of their
    keys: what a serialisation with [sort_keys] shows of the value. *)
Fixpoint canonical (j : json) : json :=
  match j with
  | JList l => JList (map canonical l)
  | JObj d => JObj (sort_fields (map (fun kv => (fst kv, canonical (snd kv))) d))
  | _ => j
  end.

Module json_decoder.

(** [s] without the [prefix] it starts with. *)
Fixpoint strip (prefix s : string) : option string :=
  match prefix with
  | EmptyString => Some s
  | String c p =>
      match s with
      | String c' r => if Ascii.eqb c c' then strip p r else None
      | EmptyString => None
      end
  end.

(** The control character whose four hexadecimal digits [s] starts with. *)
Fixpoint unicode_escape (l : list nat) (s : string) : option (ascii * string) :=
  match l with
  | [] => None
  | n :: r =>
      match strip (json_encoder.hex4 n) s with
      | Some rest => Some (ascii_of_nat n, rest)
      | None => unicode_escape r s
      end
  end.

(** The first character inside a string of a serialisation, read back, and
    what follows it; nothing at the closing quote. *)
Definition unescape_char (s : string) : option (ascii * string) :=
  match s with
  | EmptyString => None
  | String c r =>
      match nat_of_ascii c with
      | 34 => None
      | 92 =>
          match r with
          | EmptyString => None
          | String t r' =>
              match nat_of_ascii t with
              | 92 => Some (ascii_of_nat 92, r')
              | 34 => Some (ascii_of_nat 34, r')
              | 98 => Some (ascii_of_nat 8, r')
              | 102 => Some (ascii_of_nat 12, r')
              | 110 => Some (ascii_of_nat 10, r')
              | 114 => Some (ascii_of_nat 13, r')
              | 116 => Some (ascii_of_nat 9, r')
              | 117 => unicode_escape (seq 0 32) r'
              | _ => None
              end
          end
      | _ => Some (c, r)
      end
  end.

End json_decoder.

(** The sixteen digits of [hexdigest], and the texts of [n] of them. *)
Definition hex_digits : list ascii :=
  map (fun i => hashlib.hex_digit (Z.of_nat i)) (seq 0 16).

Fixpoint hex_texts (n : nat) : list string :=
  match n with
  | O => [EmptyString]
  | S n' => flat_map (fun c => map (String c) (hex_texts n')) hex_digits
  end.

(* ================================================================== *)
(** * Facts: the monad *)

Arguments os_path.split : simpl never.
Arguments os_path.dirname : simpl never.
Arguments os_path.join : simpl never.
Arguments os_path.splitext : simpl never.
Arguments Py.format : simpl never.
Arguments Py.join : simpl never.
Arguments Py.strip : simpl never.
Arguments Py.split : simpl never.
Arguments hashlib.sha1 : simpl never.
Arguments json_encoder.dumps : simpl never.
Arguments json_encoder.encode : simpl never.
Arguments str_Z : simpl never.
Arguments Z.eqb : simpl never.

Lemma bind_run {A B} (m : M A) (k : A -> M B) s :
  bind m k s =
  match m s with
  | (Ok a, s') => k a s'
  | (Raise e, s') => (Raise e, s')
  end.
Proof. reflexivity. Qed.

Lemma bind_ok {A B} (m : M A) (k : A -> M B) s a s' :
  m s = (Ok a, s') -> bind m k s = k a s'.
Proof. intros H. unfold bind. rewrite H. reflexivity. Qed.

Lemma bind_raise {A B} (m : M A) (k : A -> M B) s e s' :
  m s = (Raise e, s') -> bind m k s = (Raise e, s').
Proof. intros H. unfold bind. rewrite H. reflexivity. Qed.

(* ================================================================== *)
(** * Facts: the ancestor walk *)

Lemma ancestor_S k p : ancestor (S k) p = ancestor k (os_path.dirname p).
Proof. unfold ancestor. rewrite Nat.iter_succ_r. reflexivity. Qed.

Lemma ancestor_0 p : ancestor 0 p = p.
Proof. reflexivity. Qed.

Arguments ancestor : simpl never.

Lemma writable_present f p : os.writable f p = true -> os.present f p = true.
Proof.
  unfold os.writable, os.present. destruct (f p) as [[w c|w]|]; congruence.
Qed.

Section WalkFacts.

Variable E : oracle.

Lemma directory_walk_found s : forall depth directory k,
  k < depth ->
  (forall j, j < k -> os.present (fs s) (ancestor j directory) = false) ->
  os.writable (fs s) (ancestor k directory) = true ->
  prepare_directory_check_permission depth directory s
  = (Ok (Some (ancestor k directory)), s).
Proof.
  induction depth as [|depth IH]; intros directory k Hk Habs Hw; [lia|].
  simpl. unfold bind, os.access_W_OK, os.exists_. simpl.
  destruct k as [|k].
  - rewrite ?ancestor_S, ?ancestor_0 in *. rewrite Hw, (writable_present _ _ Hw). reflexivity.
  - assert (H0 : os.present (fs s) directory = false) by (apply (Habs 0); lia).
    assert (Hw0 : os.writable (fs s) directory = false).
    { destruct (os.writable (fs s) directory) eqn:W; [|reflexivity].
      apply writable_present in W. congruence. }
    rewrite H0, Hw0. simpl. rewrite ancestor_S.
    apply IH; [lia| |rewrite <- ancestor_S; exact Hw].
    intros j Hj. rewrite <- ancestor_S. apply Habs. lia.
Qed.

Lemma directory_walk_denied s : forall depth directory k,
  k < depth ->
  (forall j, j < k -> os.present (fs s) (ancestor j directory) = false) ->
  os.present (fs s) (ancestor k directory) = true ->
  os.writable (fs s) (ancestor k directory) = false ->
  prepare_directory_check_permission depth directory s
  = (Raise (NameError "PermissionDeniedError"), s).
Proof.
  induction depth as [|depth IH]; intros directory k Hk Habs Hp Hw; [lia|].
  simpl. unfold bind, os.access_W_OK, os.exists_. simpl.
  destruct k as [|k].
  - rewrite ?ancestor_S, ?ancestor_0 in *. rewrite Hw, Hp. reflexivity.
  - assert (H0 : os.present (fs s) directory = false) by (apply (Habs 0); lia).
    assert (Hw0 : os.writable (fs s) directory = false).
    { destruct (os.writable (fs s) directory) eqn:W; [|reflexivity].
      apply writable_present in W. congruence. }
    rewrite H0, Hw0. simpl.
    apply (IH _ k); [lia| | rewrite <- ancestor_S; exact Hp
                    | rewrite <- ancestor_S; exact Hw].
    intros j Hj. rewrite <- ancestor_S. apply Habs. lia.
Qed.

Lemma path_walk_found s : forall depth path k,
  k < depth ->
  (forall j, j < k -> os.present (fs s) (ancestor (S j) path) = false) ->
  os.writable (fs s) (ancestor (S k) path) = true ->
  prepare_path_check_permission depth path s
  = (Ok (Some (ancestor (S k) path)), s).
Proof.
  induction depth as [|depth IH]; intros path k Hk Habs Hw; [lia|].
  simpl. unfold bind, os.access_W_OK, os.exists_. simpl.
  destruct k as [|k].
  - rewrite ?ancestor_S, ?ancestor_0 in *. rewrite Hw, (writable_present _ _ Hw). reflexivity.
  - assert (H0 : os.present (fs s) (os_path.dirname path) = false)
      by (apply (Habs 0); lia).
    assert (Hw0 : os.writable (fs s) (os_path.dirname path) = false).
    { destruct (os.writable (fs s) (os_path.dirname path)) eqn:W; [|reflexivity].
      apply writable_present in W. congruence. }
    rewrite H0, Hw0. simpl. rewrite ancestor_S.
    apply IH; [lia| |rewrite <- ancestor_S; exact Hw].
    intros j Hj. rewrite <- ancestor_S. apply Habs. lia.
Qed.

Lemma path_walk_denied s : forall depth path k,
  k < depth ->
  (forall j, j < k -> os.present (fs s) (ancestor (S j) path) = false) ->
  os.present (fs s) (ancestor (S k) path) = true ->
  os.writable (fs s) (ancestor (S k) path) = false ->
  prepare_path_check_permission depth path s
  = (Raise (NameError "PermissionDeniedError"), s).
Proof.
  induction depth as [|depth IH]; intros path k Hk Habs Hp Hw; [lia|].
  simpl. unfold bind, os.access_W_OK, os.exists_. simpl.
  destruct k as [|k].
  - rewrite ?ancestor_S, ?ancestor_0 in *. rewrite Hw, Hp. reflexivity.
  - assert (H0 : os.present (fs s) (os_path.dirname path) = false)
      by (apply (Habs 0); lia).
    assert (Hw0 : os.writable (fs s) (os_path.dirname path) = false).
    { destruct (os.writable (fs s) (os_path.dirname path)) eqn:W; [|reflexivity].
      apply writable_present in W. congruence. }
    rewrite H0, Hw0. simpl.
    apply (IH _ k); [lia| | rewrite <- ancestor_S; exact Hp
                    | rewrite <- ancestor_S; exact Hw].
    intros j Hj. rewrite <- ancestor_S. apply Habs. lia.
Qed.

End WalkFacts.
(* ================================================================== *)
(** * Facts: dictionaries and paths of keys *)

Lemma lookup_set_same k v d : Dict.lookup k (Dict.set k v d) = Some v.
Proof.
  induction d as [|[k' v'] d IH]; simpl.
  - rewrite String.eqb_refl. reflexivity.
  - destruct (k' =? k) eqn:Hk; simpl; rewrite Hk; [reflexivity|exact IH].
Qed.

Lemma lookup_set_other k k' v d :
  k <> k' -> Dict.lookup k (Dict.set k' v d) = Dict.lookup k d.
Proof.
  intros Hne. induction d as [|[k0 v0] d IH]; simpl.
  - destruct (k' =? k) eqn:Hk; [apply String.eqb_eq in Hk; congruence|reflexivity].
  - destruct (k0 =? k') eqn:Hk0; simpl.
    + apply String.eqb_eq in Hk0. subst k0.
      destruct (k' =? k) eqn:Hk; [apply String.eqb_eq in Hk; congruence|reflexivity].
    + destruct (k0 =? k); [reflexivity|exact IH].
Qed.

Lemma jget_app p q j :
  jget (p ++ q) j = match jget p j with Some v => jget q v | None => None end.
Proof.
  revert j. induction p as [|k p IH]; intros j; simpl; [reflexivity|].
  destruct j; try reflexivity.
  destruct (Dict.lookup k d); [apply IH|reflexivity].
Qed.

Lemma jset_cons k p v j :
  p <> [] ->
  jset (k :: p) v j =
  match j with
  | JObj d => match Dict.lookup k d with
              | Some sub => JObj (Dict.set k (jset p v sub) d)
              | None => j
              end
  | _ => j
  end.
Proof. destruct p; [congruence|reflexivity]. Qed.

Lemma jget_jset_node p k v j d :
  jget p j = Some (JObj d) ->
  jget p (jset (p ++ [k]) v j) = Some (JObj (Dict.set k v d)).
Proof.
  revert j. induction p as [|a p IH]; intros j H; simpl in H.
  - inversion H; subst. reflexivity.
  - destruct j; try discriminate.
    destruct (Dict.lookup a d0) as [sub|] eqn:Ha; [|discriminate].
    change ((a :: p) ++ [k])%list with (a :: (p ++ [k]))%list.
    rewrite jset_cons by (destruct p; discriminate).
    rewrite Ha. simpl. rewrite lookup_set_same. apply IH, H.
Qed.

Lemma field_node self k s :
  field self k s =
  match node_of self s with Some d => Dict.lookup k d | None => None end.
Proof.
  unfold field, node_of. rewrite jget_app.
  destruct (jget (node_path self) (cache s)) as [[]|]; simpl; try reflexivity.
  destruct (Dict.lookup k d); reflexivity.
Qed.

Lemma field_node_some self k s v :
  field self k s = Some v -> exists d, node_of self s = Some d /\ Dict.lookup k d = Some v.
Proof.
  rewrite field_node. destruct (node_of self s) as [d|]; [|discriminate].
  intros H. exists d. auto.
Qed.

Lemma node_set_run self k v s :
  node_set self k v s
  = (Ok tt, with_cache (jset (node_path self ++ [k]) v (cache s)) s).
Proof. reflexivity. Qed.

Lemma node_of_set self k v s d :
  node_of self s = Some d ->
  node_of self (with_cache (jset (node_path self ++ [k]) v (cache s)) s)
  = Some (Dict.set k v d).
Proof.
  unfold node_of. simpl.
  destruct (jget (node_path self) (cache s)) as [[]|] eqn:H; try discriminate.
  intros H'. inversion H'; subst.
  rewrite (jget_jset_node _ _ _ _ _ H). reflexivity.
Qed.

Lemma field_set self k k' v s d :
  node_of self s = Some d ->
  field self k' (with_cache (jset (node_path self ++ [k]) v (cache s)) s)
  = if k' =? k then Some v else Dict.lookup k' d.
Proof.
  intros H. rewrite field_node, (node_of_set _ _ _ _ _ H).
  destruct (k' =? k) eqn:Hk.
  - apply String.eqb_eq in Hk. subst. apply lookup_set_same.
  - apply String.eqb_neq in Hk. apply lookup_set_other. exact Hk.
Qed.
(* ================================================================== *)
(** * Facts: computations that run no child process *)

Lemma quiet_ret {A} (a : A) : quiet (ret a).
Proof. intros s. simpl. repeat split. exists []. rewrite app_nil_r. auto. Qed.

Lemma quiet_raise {A} e : quiet (@raise A e).
Proof. intros s. simpl. repeat split. exists []. rewrite app_nil_r. auto. Qed.

Lemma quiet_lift {A} (r : result A) : quiet (lift r).
Proof. intros s. simpl. repeat split. exists []. rewrite app_nil_r. auto. Qed.

Lemma quiet_bind {A B} (m : M A) (k : A -> M B) :
  quiet m -> (forall a, quiet (k a)) -> quiet (bind m k).
Proof.
  intros Hm Hk s. unfold bind. specialize (Hm s).
  destruct (m s) as [[a|e] s1]; simpl in *; [|exact Hm].
  destruct Hm as (Hc & Ho & evs & Ht & Hf).
  destruct (Hk a s1) as (Hc' & Ho' & evs' & Ht' & Hf').
  repeat split; [congruence|congruence|].
  exists (evs ++ evs')%list. rewrite Ht', Ht, app_assoc. split; [reflexivity|].
  apply Forall_app; auto.
Qed.

Lemma quiet_get_state : quiet get_state.
Proof. intros s. simpl. repeat split. exists []. rewrite app_nil_r. auto. Qed.

Lemma quiet_clock : quiet clock.
Proof. intros s. simpl. repeat split. exists []. rewrite app_nil_r. auto. Qed.

Lemma quiet_set_fs f : quiet (set_fs f).
Proof. intros s. simpl. repeat split. exists []. rewrite app_nil_r. auto. Qed.

Lemma quiet_emit e : no_command e -> quiet (emit e).
Proof. intros He s. simpl. repeat split. exists [e]. auto. Qed.

Lemma quiet_log l m : quiet (log l m).
Proof. apply quiet_emit. exact I. Qed.

Lemma quiet_when b (m : M unit) : quiet m -> quiet (when b m).
Proof. destruct b; simpl; [auto|intros _; apply quiet_ret]. Qed.

Lemma quiet_exists p : quiet (os.exists_ p).
Proof. intros s. simpl. repeat split. exists []. rewrite app_nil_r. auto. Qed.

Lemma quiet_access p : quiet (os.access_W_OK p).
Proof. intros s. simpl. repeat split. exists []. rewrite app_nil_r. auto. Qed.

Lemma quiet_node_get self k : quiet (node_get self k).
Proof.
  intros s. unfold node_get. destruct (field self k s); simpl;
    repeat split; exists []; rewrite app_nil_r; auto.
Qed.

Lemma quiet_node_has self k : quiet (node_has self k).
Proof.
  intros s. unfold node_has. destruct (field self k s); simpl;
    repeat split; exists []; rewrite app_nil_r; auto.
Qed.

Create HintDb quiet.
#[export] Hint Resolve quiet_ret quiet_raise quiet_lift quiet_get_state quiet_clock
  quiet_set_fs quiet_log quiet_exists quiet_access quiet_node_get
  quiet_node_has : quiet.

(** One step through the syntax of a computation. *)
Ltac quiet_step :=
  match goal with
  | |- quiet (bind _ _) => apply quiet_bind; [|intros ?]
  | |- quiet (when _ _) => apply quiet_when
  | |- quiet (emit _) => apply quiet_emit; exact I
  | |- quiet (if ?b then _ else _) => destruct b
  | |- quiet (match ?x with _ => _ end) => destruct x
  | |- quiet (let '(_, _) := ?x in _) => destruct x
  | |- quiet _ => solve [auto with quiet]
  end.

Ltac quiet_tac := repeat quiet_step.

Lemma quiet_remove p : quiet (os.remove p).
Proof. unfold os.remove. quiet_tac. Qed.

Lemma quiet_read p : quiet (os.read p).
Proof. unfold os.read. quiet_tac. Qed.

Lemma quiet_write p c : quiet (os.write p c).
Proof. unfold os.write. quiet_tac. Qed.

Lemma quiet_mkdir p : quiet (os.mkdir p).
Proof. unfold os.mkdir. quiet_tac. Qed.

#[export] Hint Resolve quiet_remove quiet_read quiet_write quiet_mkdir : quiet.

Lemma quiet_makedirs_rec depth : forall name, quiet (os.makedirs_rec depth name).
Proof.
  induction depth as [|depth IH]; intros name; cbn [os.makedirs_rec]; [auto with quiet|].
  destruct (os_path.split name) as [head tail].
  destruct (if tail =? "" then os_path.split head else (head, tail)) as [head' tail'].
  apply quiet_bind; [auto with quiet|intros present].
  destruct (negb (head' =? "") && negb (tail' =? "") && negb present);
    [|auto with quiet].
  apply quiet_bind; [|intros _; destruct (tail' =? "."); auto with quiet].
  intros s. specialize (IH head' s).
  destruct (os.makedirs_rec depth head' s) as [[[]|e] s1]; simpl in *; auto.
  destruct e; simpl; auto.
  destruct ((path =? head') && os.present (fs s1) head'); simpl; auto.
Qed.

Section QuietFacts.

Variable E : oracle.

Lemma quiet_makedirs name : quiet (makedirs E name).
Proof.
  unfold makedirs. apply quiet_bind; [apply quiet_makedirs_rec|intros _].
  apply quiet_emit. exact I.
Qed.

Lemma quiet_path_walk depth : forall path, quiet (prepare_path_check_permission depth path).
Proof.
  induction depth as [|depth IH]; intros path; simpl; [auto with quiet|].
  quiet_tac.
Qed.

Lemma quiet_directory_walk depth :
  forall d, quiet (prepare_directory_check_permission depth d).
Proof.
  induction depth as [|depth IH]; intros path; simpl; [auto with quiet|].
  quiet_tac.
Qed.

Lemma quiet_prepare_path path overwrite : quiet (prepare_path E path overwrite).
Proof.
  unfold prepare_path.
  apply quiet_bind; [apply quiet_path_walk|intros available].
  quiet_tac; apply quiet_makedirs.
Qed.

Lemma quiet_prepare_directory d : quiet (prepare_directory E d).
Proof.
  unfold prepare_directory.
  apply quiet_bind; [apply quiet_directory_walk|intros available].
  quiet_tac; apply quiet_makedirs.
Qed.

Lemma quiet_path_of self k : quiet (Package.path_of self k).
Proof. unfold Package.path_of. quiet_tac. Qed.

Lemma quiet_download_from self : forall l error,
  quiet (Package.download_from E self l error).
Proof.
  induction l as [|url l IH]; intros error; simpl; [auto with quiet|].
  quiet_tac; try apply IH; try apply quiet_prepare_path; try apply quiet_path_of.
Qed.

Lemma quiet_download self : quiet (Package.download E self).
Proof.
  unfold Package.download.
  quiet_tac; try apply quiet_download_from.
Qed.

Lemma quiet_write_streams o e : quiet (Package.write_streams E o e).
Proof. unfold Package.write_streams, Package.file_write_. quiet_tac. Qed.

Lemma quiet_print_failure c o e : quiet (Package.print_failure c o e).
Proof. unfold Package.print_failure. quiet_tac. Qed.

Lemma quiet_failed c o e m : quiet (Make.failed c o e m).
Proof. unfold Make.failed. quiet_tac. apply quiet_print_failure. Qed.

End QuietFacts.

#[export] Hint Resolve quiet_makedirs quiet_prepare_path quiet_prepare_directory
  quiet_path_of quiet_download quiet_write_streams quiet_print_failure
  quiet_failed : quiet.
(* ================================================================== *)
(** * The progress record, seen from outside *)

(* ================================================================== *)

Lemma same_cache_field self k s s' : cache s' = cache s -> field self k s' = field self k s.
Proof. unfold field. intros ->. reflexivity. Qed.

Lemma same_cache_flag self k s s' : cache s' = cache s -> flag self k s' = flag self k s.
Proof. unfold flag. intros H. rewrite (same_cache_field _ _ _ _ H). reflexivity. Qed.

Lemma same_cache_given self k s s' : cache s' = cache s -> given self k s' = given self k s.
Proof. unfold given. intros H. rewrite (same_cache_field _ _ _ _ H). reflexivity. Qed.

Lemma same_cache_alive self s s' : cache s' = cache s -> alive self s' = alive self s.
Proof. unfold alive, node_of. intros ->. reflexivity. Qed.

Lemma same_cache_progress self s s' :
  cache s' = cache s -> progress_of self s' = progress_of self s.
Proof. unfold progress_of. intros H. rewrite !(same_cache_flag _ _ _ _ H). reflexivity. Qed.

Lemma field_alive self k s v : field self k s = Some v -> alive self s = true.
Proof.
  intros H. apply field_node_some in H. destruct H as (d & Hd & _).
  unfold alive. rewrite Hd. reflexivity.
Qed.

Lemma node_get_inv self k s r s' :
  node_get self k s = (r, s') ->
  s' = s /\
  match r with
  | Ok v => field self k s = Some v
  | Raise e => field self k s = None
  end.
Proof.
  unfold node_get. destruct (field self k s); intros H; inversion H; auto.
Qed.

Lemma node_set_inv self k v s r s' :
  node_set self k v s = (r, s') ->
  alive self s = true ->
  r = Ok tt /\
  alive self s' = true /\
  (forall k', flag self k' s' = if k' =? k then truthy v else flag self k' s) /\
  (forall k', given self k' s' = if k' =? k then negb (is_None v) else given self k' s).
Proof.
  rewrite node_set_run. intros H Ha. inversion H; subst. clear H.
  unfold alive in Ha. destruct (node_of self s) as [d|] eqn:Hd; [|discriminate].
  split; [reflexivity|]. split.
  - unfold alive. rewrite (node_of_set _ _ _ _ _ Hd). reflexivity.
  - split; intros k'; unfold flag, given; rewrite (field_set _ _ k' _ _ _ Hd);
      rewrite field_node, Hd; destruct (k' =? k); reflexivity.
Qed.

Lemma progress_update self k v s s' :
  (forall k', flag self k' s' = if k' =? k then truthy v else flag self k' s) ->
  progress_of self s' = Abstract.update k (truthy v) (progress_of self s).
Proof.
  intros H. unfold progress_of, Abstract.update. rewrite !H.
  rewrite (String.eqb_sym "unpacked"), (String.eqb_sym "configured"),
    (String.eqb_sym "built"), (String.eqb_sym "installed").
  destruct (k =? "unpacked") eqn:E1.
  { apply String.eqb_eq in E1. subst. reflexivity. }
  destruct (k =? "configured") eqn:E2.
  { apply String.eqb_eq in E2. subst. reflexivity. }
  destruct (k =? "built") eqn:E3.
  { apply String.eqb_eq in E3. subst. reflexivity. }
  destruct (k =? "installed") eqn:E4.
  { apply String.eqb_eq in E4. subst. reflexivity. }
  reflexivity.
Qed.
(* ================================================================== *)
(** * Facts: computations that leave the progress record as it is *)

Lemma set_same k v d : Dict.lookup k d = Some v -> Dict.set k v d = d.
Proof.
  induction d as [|[k' v'] d IH]; simpl; [discriminate|].
  destruct (k' =? k) eqn:Hk; intros H.
  - inversion H; subst. reflexivity.
  - rewrite (IH H). reflexivity.
Qed.

Lemma jset_absent p k v : forall j,
  (forall d, jget p j <> Some (JObj d)) -> jset (p ++ [k]) v j = j.
Proof.
  induction p as [|a p IH]; intros j H; simpl in H.
  - simpl. destruct j; try reflexivity. exfalso. apply (H d). reflexivity.
  - change ((a :: p) ++ [k])%list with (a :: (p ++ [k]))%list.
    rewrite jset_cons by (destruct p; discriminate).
    destruct j; try reflexivity.
    destruct (Dict.lookup a d) as [sub|] eqn:Ha; [|reflexivity].
    rewrite (IH sub H). rewrite (set_same _ _ _ Ha). reflexivity.
Qed.

Lemma inert_ret self {A} (a : A) : inert self (ret a).
Proof. intros s. simpl. auto. Qed.

Lemma inert_raise self {A} e : inert self (@raise A e).
Proof. intros s. simpl. auto. Qed.

Lemma inert_lift self {A} (r : result A) : inert self (lift r).
Proof. intros s. simpl. auto. Qed.

Lemma inert_bind self {A B} (m : M A) (k : A -> M B) :
  inert self m -> (forall a, inert self (k a)) -> inert self (bind m k).
Proof.
  intros Hm Hk s. unfold bind. specialize (Hm s).
  destruct (m s) as [[a|e] s1]; simpl in *; [|exact Hm].
  destruct Hm as (H1 & H2 & H3 & H4). destruct (Hk a s1) as (K1 & K2 & K3 & K4).
  repeat split; congruence.
Qed.

Lemma inert_same_cache self {A} (m : M A) :
  (forall s, cache (snd (m s)) = cache s) -> inert self m.
Proof.
  intros H s. specialize (H s).
  rewrite (same_cache_progress _ _ _ H), !(same_cache_given _ _ _ _ H),
    (same_cache_alive _ _ _ H). auto.
Qed.

Lemma inert_quiet self {A} (m : M A) : quiet m -> inert self m.
Proof. intros H. apply inert_same_cache. intros s. apply (H s). Qed.

Lemma inert_when self b (m : M unit) : inert self m -> inert self (when b m).
Proof. destruct b; simpl; [auto|intros _; apply inert_ret]. Qed.

Lemma inert_node_set self k v : passive k = true -> inert self (node_set self k v).
Proof.
  intros Hp s. destruct (alive self s) eqn:Ha.
  - destruct (node_set self k v s) as [r s'] eqn:Hs. simpl.
    destruct (node_set_inv _ _ _ _ _ _ Hs Ha) as (_ & Ha' & Hf & Hg).
    unfold passive in Hp.
    repeat rewrite andb_true_iff in Hp. repeat rewrite negb_true_iff in Hp.
    destruct Hp as (((((P1 & P2) & P3) & P4) & P5) & P6).
    unfold progress_of. rewrite !Hf, !Hg.
    rewrite (String.eqb_sym "unpacked"), (String.eqb_sym "configured"),
      (String.eqb_sym "built"), (String.eqb_sym "installed"),
      (String.eqb_sym "download url"), (String.eqb_sym "package url").
    rewrite P1, P2, P3, P4, P5, P6. auto.
  - rewrite node_set_run. simpl.
    assert (Hj : jset (node_path self ++ [k]) v (cache s) = cache s).
    { apply jset_absent. intros d Hd. unfold alive, node_of in Ha.
      rewrite Hd in Ha. discriminate. }
    assert (Hc : cache (with_cache (jset (node_path self ++ [k]) v (cache s)) s) = cache s)
      by exact Hj.
    rewrite (same_cache_progress _ _ _ Hc), !(same_cache_given _ _ _ _ Hc),
      (same_cache_alive _ _ _ Hc). auto.
Qed.

Create HintDb inert.
#[export] Hint Resolve inert_ret inert_raise inert_lift : inert.
#[export] Hint Extern 1 (inert _ _) =>
  (apply inert_quiet; solve [auto with quiet]) : inert.

Ltac inert_step :=
  match goal with
  | |- inert _ (bind _ _) => apply inert_bind; [|intros ?]
  | |- inert _ (when _ _) => apply inert_when
  | |- inert _ (node_set _ _ _) => apply inert_node_set; reflexivity
  | |- inert _ (emit _) => apply inert_quiet, quiet_emit; exact I
  | |- inert _ (if ?b then _ else _) => destruct b
  | |- inert _ (match ?x with _ => _ end) => destruct x
  | |- inert _ (let '(_, _) := ?x in _) => destruct x
  | |- inert _ _ => solve [auto with inert]
  end.

Ltac inert_tac := repeat inert_step.

Section InertFacts.

Variable E : oracle.
Variable self : package.

Lemma inert_communicate command cwd : inert self (communicate E command cwd).
Proof.
  apply inert_same_cache. intros s. unfold communicate.
  destruct command as [|c l]; [reflexivity|].
  unfold bind, clock, get_state. simpl.
  destruct (popen E (Datatypes.length (trace s)) (c :: l) cwd (fs s)) as [[[[code o] e]|e] f];
    reflexivity.
Qed.

Lemma inert_remove_directory d : inert self (remove_directory E d).
Proof.
  unfold remove_directory. inert_tac; try apply inert_communicate.
Qed.

Lemma inert_download : inert self (Package.download E self).
Proof. apply inert_quiet, quiet_download. Qed.

Lemma inert_env : inert self (Package.env E self).
Proof. unfold Package.env. inert_tac. Qed.

Lemma inert_path_of k : inert self (Package.path_of self k).
Proof. apply inert_quiet, quiet_path_of. Qed.

Lemma inert_write_streams o e : inert self (Package.write_streams E o e).
Proof. apply inert_quiet, quiet_write_streams. Qed.

Lemma inert_failed c o e m : inert self (Make.failed c o e m).
Proof. apply inert_quiet, quiet_failed. Qed.

Lemma inert_print_failure c o e : inert self (Package.print_failure c o e).
Proof. apply inert_quiet, quiet_print_failure. Qed.

Lemma inert_spawn command : inert self (Make.spawn E self command).
Proof.
  unfold Make.spawn.
  inert_tac; auto using inert_env, inert_path_of, inert_communicate.
Qed.

Lemma inert_with_prefix command : inert self (Make.with_prefix self command).
Proof. unfold Make.with_prefix. inert_tac. Qed.

Lemma inert_with_optional k command : inert self (Make.with_optional self k command).
Proof. unfold Make.with_optional. inert_tac. Qed.

Lemma inert_os_symlink src dst : inert self (BZip2.os_symlink E src dst).
Proof.
  apply inert_same_cache. intros s. unfold BZip2.os_symlink.
  unfold bind, clock, get_state. simpl.
  destruct (symlink E (Datatypes.length (trace s)) src dst (fs s)); reflexivity.
Qed.

Lemma inert_link_versions n : forall so full l,
  inert self (BZip2.link_versions E n self so full l).
Proof.
  induction n as [|n IH]; intros so full l; simpl; [auto with inert|].
  inert_tac; auto using inert_os_symlink.
Qed.

Lemma inert_install_dynamic : inert self (BZip2.install_dynamic E self).
Proof.
  unfold BZip2.install_dynamic.
  inert_tac;
    auto using inert_env, inert_path_of, inert_communicate, inert_write_streams,
      inert_failed, inert_link_versions.
Qed.

Lemma inert_copy p a b : inert self (LibDeflate.copy E self p a b).
Proof.
  unfold LibDeflate.copy.
  inert_tac; auto using inert_env, inert_communicate, inert_write_streams, inert_failed.
Qed.

End InertFacts.

#[export] Hint Resolve inert_communicate inert_remove_directory inert_download
  inert_env inert_path_of inert_write_streams inert_failed inert_print_failure
  inert_spawn inert_with_prefix inert_with_optional inert_os_symlink
  inert_link_versions inert_install_dynamic inert_copy : inert.
(* ================================================================== *)
(** * Facts: what the methods do to the flags *)

Lemma given_field self k s v : field self k s = Some v -> given self k s = negb (is_None v).
Proof. unfold given. intros ->. reflexivity. Qed.

Lemma flag_field self k s v : field self k s = Some v -> flag self k s = truthy v.
Proof. unfold flag. intros ->. reflexivity. Qed.

Lemma progress_eqb_eq f g : progress_eqb f g = true -> f = g.
Proof.
  destruct f as [u c b i], g as [u' c' b' i']. unfold progress_eqb. simpl.
  rewrite !andb_true_iff. intros [[[H1 H2] H3] H4].
  apply Bool.eqb_prop in H1, H2, H3, H4. congruence.
Qed.

Lemma outcome_eqb_eq o p : outcome_eqb o p = true -> o = p.
Proof.
  destruct o as [x f], p as [y g]. unfold outcome_eqb. simpl.
  rewrite andb_true_iff. intros [H1 H2].
  apply Bool.eqb_prop in H1. apply progress_eqb_eq in H2. congruence.
Qed.

Lemma among_incl l l' : among l l' = true -> forall o, In o l -> In o l'.
Proof.
  unfold among. rewrite forallb_forall. intros H o Ho.
  specialize (H o Ho). apply existsb_exists in H. destruct H as (p & Hp & He).
  apply outcome_eqb_eq in He. subst. exact Hp.
Qed.

Lemma in_then l k f1 o :
  In (true, f1) l -> In o (k f1) -> In o (Abstract.then_ l k).
Proof.
  intros H1 H2. unfold Abstract.then_. apply in_flat_map.
  exists (true, f1). split; [exact H1|exact H2].
Qed.

Lemma in_then_fails l k f1 :
  In (false, f1) l -> In (false, f1) (Abstract.then_ l k).
Proof.
  intros H1. unfold Abstract.then_. apply in_flat_map.
  exists (false, f1). split; [exact H1|left; reflexivity].
Qed.

Lemma get_flag_progress self k s :
  is_flag k = true -> get_flag k (progress_of self s) = flag self k s.
Proof.
  unfold is_flag, get_flag. intros H.
  destruct (k =? "unpacked") eqn:E1; [apply String.eqb_eq in E1; subst; reflexivity|].
  destruct (k =? "configured") eqn:E2; [apply String.eqb_eq in E2; subst; reflexivity|].
  destruct (k =? "built") eqn:E3; [apply String.eqb_eq in E3; subst; reflexivity|].
  destruct (k =? "installed") eqn:E4; [apply String.eqb_eq in E4; subst; reflexivity|].
  discriminate.
Qed.

(** [self.node[key] = value] for a flag of a record that is there. *)
Lemma node_set_flag self k b s r s' :
  node_set self k (JBool b) s = (r, s') ->
  alive self s = true ->
  is_flag k = true ->
  r = Ok tt /\
  progress_of self s' = Abstract.update k b (progress_of self s) /\
  given self "download url" s' = given self "download url" s /\
  given self "package url" s' = given self "package url" s /\
  alive self s' = true.
Proof.
  intros H Ha Hk. destruct (node_set_inv _ _ _ _ _ _ H Ha) as (-> & Ha' & F & G).
  split; [reflexivity|]. split; [exact (progress_update _ _ _ _ _ F)|].
  rewrite !G. unfold is_flag in Hk.
  rewrite (String.eqb_sym "download url"), (String.eqb_sym "package url").
  repeat rewrite orb_true_iff in Hk.
  destruct Hk as [[[Hk|Hk]|Hk]|Hk]; apply String.eqb_eq in Hk; subst; auto.
Qed.

Section Follows.

Variable self : package.

Lemma follows_weaken (a a' : bool -> bool -> Abstract.progress -> list Abstract.outcome) m :
  (forall hd hp f, among (a hd hp f) (a' hd hp f) = true) ->
  follows self a m -> follows self a' m.
Proof.
  intros Hi H s r s' Ha Hm. destruct (H s r s' Ha Hm) as (H1 & H2 & H3 & H4).
  split; [|auto]. eapply among_incl; [apply Hi|exact H1].
Qed.

Lemma follows_ret : follows self (fun _ _ f => [Abstract.returns f]) (ret tt).
Proof.
  intros s r s' Ha H. unfold ret in H. inversion H; subst.
  simpl. auto.
Qed.

Lemma follows_inert (m : M unit) :
  inert self m ->
  follows self (fun _ _ f => [Abstract.fails f; Abstract.returns f]) m.
Proof.
  intros Hi s r s' Ha H. destruct (Hi s) as (P1 & P2 & P3 & P4).
  rewrite H in *. simpl in *. rewrite P1, P2, P3, P4.
  split; [|auto]. destruct r as [[]|e]; simpl; auto.
Qed.

Lemma follows_raises (m : M unit) :
  inert self m ->
  (forall s, is_ok (fst (m s)) = false) ->
  follows self (fun _ _ f => [Abstract.fails f]) m.
Proof.
  intros Hi Hr s r s' Ha H. destruct (Hi s) as (P1 & P2 & P3 & P4).
  specialize (Hr s). rewrite H in *. simpl in *. rewrite P1, P2, P3, P4, Hr.
  simpl. auto.
Qed.

Lemma follows_returns (m : M unit) :
  inert self m ->
  (forall s, is_ok (fst (m s)) = true) ->
  follows self (fun _ _ f => [Abstract.returns f]) m.
Proof.
  intros Hi Hr s r s' Ha H. destruct (Hi s) as (P1 & P2 & P3 & P4).
  specialize (Hr s). rewrite H in *. simpl in *. rewrite P1, P2, P3, P4, Hr.
  simpl. auto.
Qed.

Lemma follows_bind_inert {A} (m : M A) (k : A -> M unit) a :
  inert self m ->
  (forall x, follows self a (k x)) ->
  follows self (fun hd hp f => Abstract.fails f :: a hd hp f) (bind m k).
Proof.
  intros Hi Hk s r s' Ha H. rewrite bind_run in H.
  destruct (Hi s) as (P1 & P2 & P3 & P4).
  destruct (m s) as [[x|e] s1]; simpl in *.
  - assert (Ha1 : alive self s1 = true) by congruence.
    destruct (Hk x s1 r s' Ha1 H) as (H1 & H2 & H3 & H4).
    rewrite P1, P2, P3 in H1.
    split; [right; exact H1|]. repeat split; congruence.
  - inversion H; subst. rewrite P1, P2, P3.
    split; [left; reflexivity|]. repeat split; congruence.
Qed.

Lemma follows_seq (m1 m2 : M unit) a1 a2 :
  follows self a1 m1 ->
  follows self a2 m2 ->
  follows self (fun hd hp f => Abstract.then_ (a1 hd hp f) (a2 hd hp))
          (bind m1 (fun _ => m2)).
Proof.
  intros F1 F2 s r s' Ha H. rewrite bind_run in H.
  destruct (m1 s) as [[[]|e] s1] eqn:H1.
  - destruct (F1 _ _ _ Ha H1) as (I1 & G1 & G2 & Ha1).
    destruct (F2 _ _ _ Ha1 H) as (I2 & G3 & G4 & Ha2).
    rewrite G1, G2 in I2.
    split; [eapply in_then; [exact I1|exact I2]|].
    repeat split; congruence.
  - destruct (F1 _ _ _ Ha H1) as (I1 & G1 & G2 & Ha1).
    inversion H; subst.
    split; [apply in_then_fails; exact I1|]. auto.
Qed.

Lemma follows_if (b : bool) (m1 m2 : M unit) a1 a2 :
  follows self a1 m1 ->
  follows self a2 m2 ->
  follows self (fun hd hp f => a1 hd hp f ++ a2 hd hp f)%list
          (if b then m1 else m2).
Proof.
  intros F1 F2 s r s' Ha H. destruct b.
  - destruct (F1 _ _ _ Ha H) as (I & G). split; [apply in_or_app; left; exact I|exact G].
  - destruct (F2 _ _ _ Ha H) as (I & G). split; [apply in_or_app; right; exact I|exact G].
Qed.

Lemma follows_node_set k b :
  is_flag k = true ->
  follows self (fun _ _ f => [Abstract.returns (Abstract.update k b f)])
          (node_set self k (JBool b)).
Proof.
  intros Hk s r s' Ha H.
  destruct (node_set_flag _ _ _ _ _ _ H Ha Hk) as (-> & P & G1 & G2 & Ha').
  rewrite P. simpl. auto.
Qed.

(** [x = self.node[key]], then [if not x: m]. *)
Lemma follows_unless_flag k (m : M unit) a :
  is_flag k = true ->
  follows self a m ->
  follows self (fun hd hp f => if get_flag k f then [Abstract.returns f]
                               else Abstract.fails f :: a hd hp f)
          (bind (node_get self k)
                (fun x => if negb (truthy x) then m else ret tt)).
Proof.
  intros Hk F s r s' Ha H. rewrite bind_run in H.
  destruct (node_get self k s) as [[x|e] s1] eqn:Hg;
    apply node_get_inv in Hg; destruct Hg as [-> Hf].
  - rewrite (get_flag_progress _ _ _ Hk), (flag_field _ _ _ _ Hf).
    destruct (truthy x); simpl in H.
    + unfold ret in H. inversion H; subst. simpl. auto.
    + destruct (F _ _ _ Ha H) as (I & G). split; [right; exact I|exact G].
  - inversion H; subst.
    rewrite (get_flag_progress _ _ _ Hk). unfold flag. rewrite Hf.
    simpl. auto.
Qed.

(** [x = self.node[key]], then [if x is not None: k x] for one of the two
    urls. *)
Lemma follows_if_download (k : json -> M unit) a :
  (forall x, follows self a (k x)) ->
  follows self (fun hd hp f => Abstract.fails f ::
                               (if hd then a hd hp f else [Abstract.returns f]))
          (bind (node_get self "download url")
                (fun x => if negb (is_None x) then k x else ret tt)).
Proof.
  intros F s r s' Ha H. rewrite bind_run in H.
  destruct (node_get self "download url" s) as [[x|e] s1] eqn:Hg;
    apply node_get_inv in Hg; destruct Hg as [-> Hf].
  - rewrite (given_field _ _ _ _ Hf) at 1.
    destruct (negb (is_None x)) eqn:Hn.
    + destruct (F _ _ _ _ Ha H) as (I & G). split; [right; exact I|exact G].
    + unfold ret in H. inversion H; subst. simpl. auto.
  - inversion H; subst. simpl. auto.
Qed.

Lemma follows_if_package (k : json -> M unit) a :
  (forall x, follows self a (k x)) ->
  follows self (fun hd hp f => Abstract.fails f ::
                               (if hp then a hd hp f else [Abstract.returns f]))
          (bind (node_get self "package url")
                (fun x => if negb (is_None x) then k x else ret tt)).
Proof.
  intros F s r s' Ha H. rewrite bind_run in H.
  destruct (node_get self "package url" s) as [[x|e] s1] eqn:Hg;
    apply node_get_inv in Hg; destruct Hg as [-> Hf].
  - rewrite (given_field _ _ _ _ Hf) at 1.
    destruct (negb (is_None x)) eqn:Hn.
    + destruct (F _ _ _ _ Ha H) as (I & G). split; [right; exact I|exact G].
    + unfold ret in H. inversion H; subst. simpl. auto.
  - inversion H; subst. simpl. auto.
Qed.

End Follows.

(** A failed command raises, whatever its streams hold. *)
Lemma failed_raises code output error message s :
  is_ok (fst (Make.failed code output error message s)) = false.
Proof.
  unfold Make.failed, Package.print_failure, bind, lift, decode, emit.
  destruct (Py.utf8 (map nat_of_ascii (list_ascii_of_string output)));
    [|reflexivity].
  destruct (Py.utf8 (map nat_of_ascii (list_ascii_of_string error)));
    reflexivity.
Qed.

Create HintDb follows.

(** One step through the syntax of a method. *)
Ltac follows_step :=
  match goal with
  | |- follows _ _ (ret tt) => apply follows_ret
  | |- follows _ _ (node_set _ _ (JBool _)) => apply follows_node_set; reflexivity
  | |- follows _ _ (if _ then _ else _) => eapply follows_if
  | |- follows _ _ (let '(_, _) := ?r in _) => destruct r
  | |- follows _ _ (bind (node_set _ _ (JBool _)) _) =>
      eapply follows_seq; [apply follows_node_set; reflexivity|]
  | |- follows _ _ (bind _ _) =>
      first [ eapply follows_unless_flag; [reflexivity|]
            | eapply follows_if_download; intros ?
            | eapply follows_if_package; intros ?
            | eapply follows_seq; [solve [eauto with follows]|]
            | apply follows_raises; [solve [inert_tac]|intros ?; reflexivity]
            | eapply follows_bind_inert; [solve [inert_tac]|intros ?] ]
  | |- follows _ _ _ =>
      first [ solve [eauto with follows]
            | apply follows_raises;
              [solve [inert_tac]
              |intros ?; first [reflexivity | apply failed_raises]]
            | apply follows_returns; [solve [inert_tac]|intros ?; reflexivity]
            | apply follows_inert; solve [inert_tac] ]
  end.

(** A method follows its outcomes: step through it, then compare the
    outcomes met with the ones listed, for every value of the flags. *)
Ltac follows_tac :=
  eapply follows_weaken; [|repeat follows_step];
  [intros [] [] [[] [] [] []]; vm_compute; reflexivity].

Section FlagFacts.

Variable E : oracle.
Variable self : package.

Lemma clean_package_follows :
  follows self (fun hd _ => Abstract.clean_package hd) (Package.clean_package E self).
Proof. unfold Package.clean_package. follows_tac. Qed.

Hint Resolve clean_package_follows : follows.

Lemma package_clean_follows :
  follows self (fun _ _ => Abstract.package_clean) (Package.clean self).
Proof. unfold Package.clean. follows_tac. Qed.

Lemma unpack_follows :
  follows self (fun hd _ => Abstract.unpack hd) (Package.unpack E self).
Proof. unfold Package.unpack. follows_tac. Qed.

Hint Resolve unpack_follows : follows.

Lemma package_configure_follows :
  follows self (fun hd _ => Abstract.package_configure hd) (Package.configure E self).
Proof. unfold Package.configure. follows_tac. Qed.

Hint Resolve package_configure_follows : follows.

Lemma package_build_follows :
  follows self (fun hd _ => Abstract.package_build hd) (Package.build E self).
Proof. unfold Package.build. follows_tac. Qed.

Hint Resolve package_build_follows : follows.

Lemma package_install_follows :
  follows self (fun hd _ => Abstract.package_install hd) (Package.install E self).
Proof. unfold Package.install. follows_tac. Qed.

Lemma make_reset_follows :
  follows self (fun _ _ => Abstract.package_clean) (Make.reset self).
Proof. unfold Make.reset. follows_tac. Qed.

Hint Resolve make_reset_follows : follows.

Lemma make_clean_follows :
  follows self (fun _ hp => Abstract.make_clean hp) (Make.clean E self).
Proof. unfold Make.clean. follows_tac. Qed.

Lemma make_configure_follows :
  follows self Abstract.make_configure (Make.configure E self).
Proof. unfold Make.configure. follows_tac. Qed.

Hint Resolve make_configure_follows : follows.

Lemma make_build_follows :
  follows self Abstract.make_build (Make.build E self).
Proof. unfold Make.build. follows_tac. Qed.

Hint Resolve make_build_follows : follows.

Lemma bzip2_build_follows :
  follows self (Abstract.bzip2_build (on_linux self)) (BZip2.build E self).
Proof.
  unfold BZip2.build. fold (on_linux self). destruct (on_linux self).
  - follows_tac.
  - follows_tac.
Qed.

Lemma libdeflate_install_follows :
  follows self (fun hd hp => Abstract.install_after (Abstract.make_build hd hp) hp)
          (LibDeflate.install E self).
Proof. unfold LibDeflate.install. follows_tac. Qed.

Lemma rapidjson_install_follows :
  follows self (fun hd hp => Abstract.install_after (Abstract.package_build hd) hp)
          (RapidJSON.install E self).
Proof. unfold RapidJSON.install. follows_tac. Qed.

Hint Resolve package_clean_follows make_clean_follows package_install_follows
  bzip2_build_follows libdeflate_install_follows rapidjson_install_follows : follows.

Lemma clean_follows :
  follows self (fun _ hp => Abstract.clean (class self) hp) (clean E self).
Proof.
  unfold clean, Abstract.clean. destruct (class self); simpl; auto with follows.
Qed.

Lemma configure_follows :
  follows self (Abstract.configure (class self)) (configure E self).
Proof.
  unfold configure, Abstract.configure.
  destruct (class self); simpl; auto with follows.
Qed.

Lemma build_follows :
  follows self (Abstract.build (class self) (on_linux self)) (build E self).
Proof.
  unfold build, Abstract.build. destruct (class self); simpl; auto with follows.
Qed.

Lemma install_follows :
  follows self (Abstract.install (class self) (on_linux self)) (install E self).
Proof.
  unfold install, Abstract.install.
  pose proof build_follows as Hb.
  destruct (class self) eqn:Hc; simpl; auto with follows;
    destruct (on_linux self); unfold Make.install; follows_tac.
Qed.

End FlagFacts.
(* ================================================================== *)
(** * Facts: relations between the state before and after *)

Section Respects.

Variable E : oracle.
Variable self : package.
Variable allowed : string -> bool.
Variable R : state -> state -> Prop.
Hypothesis HR : steady self allowed R.

Lemma respects_ret {A} (a : A) : respects R (ret a).
Proof. intros s. apply (steady_refl _ _ _ HR). Qed.

Lemma respects_raise {A} e : respects R (@raise A e).
Proof. intros s. apply (steady_refl _ _ _ HR). Qed.

Lemma respects_lift {A} (r : result A) : respects R (lift r).
Proof. intros s. apply (steady_refl _ _ _ HR). Qed.

Lemma respects_bind {A B} (m : M A) (k : A -> M B) :
  respects R m -> (forall a, respects R (k a)) -> respects R (bind m k).
Proof.
  intros Hm Hk s. unfold bind. specialize (Hm s).
  destruct (m s) as [[a|e] s1]; simpl in *; [|exact Hm].
  eapply (steady_trans _ _ _ HR); [exact Hm|apply Hk].
Qed.

Lemma respects_when b (m : M unit) : respects R m -> respects R (when b m).
Proof. destruct b; simpl; [auto|intros _; apply respects_ret]. Qed.

Lemma respects_get_state : respects R get_state.
Proof. intros s. apply (steady_refl _ _ _ HR). Qed.

Lemma respects_clock : respects R clock.
Proof. intros s. apply (steady_refl _ _ _ HR). Qed.

Lemma respects_set_fs f : respects R (set_fs f).
Proof. intros s. apply (steady_fs _ _ _ HR). Qed.

Lemma respects_emit e : respects R (emit e).
Proof. intros s. apply (steady_emit _ _ _ HR). Qed.

Lemma respects_node_get k : respects R (node_get self k).
Proof.
  intros s. unfold node_get. destruct (field self k s); apply (steady_refl _ _ _ HR).
Qed.

Lemma respects_node_has k : respects R (node_has self k).
Proof.
  intros s. unfold node_has. destruct (field self k s); apply (steady_refl _ _ _ HR).
Qed.

Lemma respects_exists p : respects R (os.exists_ p).
Proof. intros s. apply (steady_refl _ _ _ HR). Qed.

Lemma respects_access p : respects R (os.access_W_OK p).
Proof. intros s. apply (steady_refl _ _ _ HR). Qed.

Lemma respects_node_set k v : allowed k = true -> respects R (node_set self k v).
Proof. intros Hk s. rewrite node_set_run. apply (steady_set _ _ _ HR), Hk. Qed.

End Respects.

Create HintDb respects.
#[export] Hint Resolve respects_ret respects_raise respects_lift respects_get_state
  respects_clock respects_set_fs respects_emit respects_node_get respects_node_has
  respects_exists respects_access : respects.

Ltac respects_step :=
  match goal with
  | |- respects _ (bind _ _) => eapply respects_bind; [eassumption| |intros ?]
  | |- respects _ (when _ _) => eapply respects_when; [eassumption|]
  | |- respects _ (log _ _) => unfold log
  | |- respects _ (node_set _ _ _) =>
      eapply respects_node_set; [eassumption|solve [auto]]
  | |- respects _ (if ?b then _ else _) => destruct b
  | |- respects _ (match ?x with _ => _ end) => destruct x
  | |- respects _ (let '(_, _) := ?x in _) => destruct x
  | |- respects _ _ => solve [eauto with respects]
  end.

Ltac respects_tac := repeat respects_step.

Section RespectsMethods.

Variable E : oracle.
Variable self : package.
Variable allowed : string -> bool.
Variable R : state -> state -> Prop.
Hypothesis HR : steady self allowed R.
Hypothesis allowed_env : allowed "env" = true.

Lemma respects_remove p : respects R (os.remove p).
Proof. unfold os.remove. respects_tac. Qed.

Lemma respects_read p : respects R (os.read p).
Proof. unfold os.read. respects_tac. Qed.

Lemma respects_write p c : respects R (os.write p c).
Proof. unfold os.write. respects_tac. Qed.

Lemma respects_mkdir p : respects R (os.mkdir p).
Proof. unfold os.mkdir. respects_tac. Qed.

Hint Resolve respects_remove respects_read respects_write respects_mkdir : respects.

Lemma respects_makedirs_rec depth : forall name, respects R (os.makedirs_rec depth name).
Proof.
  induction depth as [|depth IH]; intros name; cbn [os.makedirs_rec];
    [eauto with respects|].
  destruct (os_path.split name) as [head tail].
  destruct (if tail =? "" then os_path.split head else (head, tail)) as [head' tail'].
  eapply respects_bind; [eassumption|eauto with respects|intros present].
  destruct (negb (head' =? "") && negb (tail' =? "") && negb present);
    [|eauto with respects].
  eapply respects_bind;
    [eassumption| |intros _; destruct (tail' =? "."); eauto with respects].
  intros s. specialize (IH head' s).
  destruct (os.makedirs_rec depth head' s) as [[[]|e] s1]; simpl in *; auto.
  destruct e; simpl; auto.
  destruct ((path =? head') && os.present (fs s1) head'); simpl; auto.
Qed.

Lemma respects_makedirs name : respects R (makedirs E name).
Proof.
  unfold makedirs. eapply respects_bind; [eassumption|apply respects_makedirs_rec|].
  intros _. eauto with respects.
Qed.

Lemma respects_path_walk depth :
  forall path, respects R (prepare_path_check_permission depth path).
Proof.
  induction depth as [|depth IH]; intros path; simpl; [eauto with respects|].
  respects_tac.
Qed.

Lemma respects_directory_walk depth :
  forall d, respects R (prepare_directory_check_permission depth d).
Proof.
  induction depth as [|depth IH]; intros path; simpl; [eauto with respects|].
  respects_tac.
Qed.

Hint Resolve respects_makedirs respects_path_walk respects_directory_walk : respects.

Lemma respects_prepare_path path overwrite : respects R (prepare_path E path overwrite).
Proof. unfold prepare_path. respects_tac. Qed.

Lemma respects_prepare_directory d : respects R (prepare_directory E d).
Proof. unfold prepare_directory. respects_tac. Qed.

Lemma respects_communicate command cwd : respects R (communicate E command cwd).
Proof.
  unfold communicate. destruct command as [|c l]; [eauto with respects|].
  eapply respects_bind; [eassumption|eauto with respects|intros t].
  eapply respects_bind; [eassumption|eauto with respects|intros s0].
  destruct (popen E t (c :: l) cwd (fs s0)) as [[[[code o] e]|e] f]; respects_tac.
Qed.

Hint Resolve respects_prepare_path respects_prepare_directory respects_communicate
  : respects.

Lemma respects_remove_directory d : respects R (remove_directory E d).
Proof. unfold remove_directory. respects_tac. Qed.

Lemma respects_path_of k : respects R (Package.path_of self k).
Proof. unfold Package.path_of. respects_tac. Qed.

Hint Resolve respects_remove_directory respects_path_of : respects.

Lemma respects_download_from : forall l error,
  respects R (Package.download_from E self l error).
Proof.
  induction l as [|url l IH]; intros error; simpl; [eauto with respects|].
  respects_tac.
Qed.

Hint Resolve respects_download_from : respects.

Lemma respects_download : respects R (Package.download E self).
Proof. unfold Package.download. respects_tac. Qed.

Lemma respects_env : respects R (Package.env E self).
Proof. unfold Package.env. respects_tac. Qed.

Lemma respects_write_streams o e : respects R (Package.write_streams E o e).
Proof. unfold Package.write_streams, Package.file_write_. respects_tac. Qed.

Lemma respects_print_failure c o e : respects R (Package.print_failure c o e).
Proof. unfold Package.print_failure. respects_tac. Qed.

Hint Resolve respects_download respects_env respects_write_streams
  respects_print_failure : respects.

Lemma respects_failed c o e m : respects R (Make.failed c o e m).
Proof. unfold Make.failed. respects_tac. Qed.

Lemma respects_spawn command : respects R (Make.spawn E self command).
Proof. unfold Make.spawn. respects_tac. Qed.

Lemma respects_with_prefix command : respects R (Make.with_prefix self command).
Proof. unfold Make.with_prefix. respects_tac. Qed.

Lemma respects_with_optional k command : respects R (Make.with_optional self k command).
Proof. unfold Make.with_optional. respects_tac. Qed.

Lemma respects_os_symlink src dst : respects R (BZip2.os_symlink E src dst).
Proof.
  unfold BZip2.os_symlink.
  eapply respects_bind; [eassumption|eauto with respects|intros t].
  eapply respects_bind; [eassumption|eauto with respects|intros s0].
  destruct (symlink E t src dst (fs s0)); respects_tac.
Qed.

Hint Resolve respects_failed respects_spawn respects_with_prefix respects_with_optional
  respects_os_symlink : respects.

Lemma respects_link_versions n : forall so full l,
  respects R (BZip2.link_versions E n self so full l).
Proof.
  induction n as [|n IH]; intros so full l; simpl; [eauto with respects|].
  respects_tac.
Qed.

Hint Resolve respects_link_versions : respects.

Lemma respects_install_dynamic : respects R (BZip2.install_dynamic E self).
Proof. unfold BZip2.install_dynamic. respects_tac. Qed.

Lemma respects_copy p a b : respects R (LibDeflate.copy E self p a b).
Proof. unfold LibDeflate.copy. respects_tac. Qed.

Hint Resolve respects_install_dynamic respects_copy : respects.

(** The two [clean] methods assign the three later flags. *)
Section Clean.

Hypothesis allowed_configured : allowed "configured" = true.
Hypothesis allowed_built : allowed "built" = true.
Hypothesis allowed_installed : allowed "installed" = true.

Lemma respects_package_clean : respects R (Package.clean self).
Proof. unfold Package.clean. respects_tac. Qed.

Lemma respects_make_reset : respects R (Make.reset self).
Proof. unfold Make.reset. respects_tac. Qed.

Hint Resolve respects_make_reset : respects.

Lemma respects_make_clean : respects R (Make.clean E self).
Proof. unfold Make.clean. respects_tac. Qed.

Lemma respects_clean : respects R (clean E self).
Proof.
  unfold clean. destruct (class self);
    auto using respects_package_clean, respects_make_clean.
Qed.

(** Every method, when the first flag may be assigned too. *)
Hypothesis allowed_unpacked : allowed "unpacked" = true.

Lemma respects_clean_package : respects R (Package.clean_package E self).
Proof. unfold Package.clean_package. respects_tac. Qed.

Hint Resolve respects_clean_package : respects.

Lemma respects_unpack : respects R (Package.unpack E self).
Proof. unfold Package.unpack. respects_tac. Qed.

Hint Resolve respects_unpack : respects.

Lemma respects_package_configure : respects R (Package.configure E self).
Proof. unfold Package.configure. respects_tac. Qed.

Hint Resolve respects_package_configure : respects.

Lemma respects_package_build : respects R (Package.build E self).
Proof. unfold Package.build. respects_tac. Qed.

Hint Resolve respects_package_build : respects.

Lemma respects_package_install : respects R (Package.install E self).
Proof. unfold Package.install. respects_tac. Qed.

Lemma respects_make_configure : respects R (Make.configure E self).
Proof. unfold Make.configure. respects_tac. Qed.

Hint Resolve respects_make_configure : respects.

Lemma respects_make_build : respects R (Make.build E self).
Proof. unfold Make.build. respects_tac. Qed.

Hint Resolve respects_make_build : respects.

Lemma respects_bzip2_build : respects R (BZip2.build E self).
Proof. unfold BZip2.build. respects_tac. Qed.

Lemma respects_build : respects R (build E self).
Proof.
  unfold build. destruct (class self);
    auto using respects_package_build, respects_make_build, respects_bzip2_build.
Qed.

Hint Resolve respects_build : respects.

Lemma respects_make_install : respects R (Make.install E (build E) self).
Proof. unfold Make.install. respects_tac. Qed.

Lemma respects_libdeflate_install : respects R (LibDeflate.install E self).
Proof. unfold LibDeflate.install. respects_tac. Qed.

Lemma respects_rapidjson_install : respects R (RapidJSON.install E self).
Proof. unfold RapidJSON.install. respects_tac. Qed.

Lemma respects_install : respects R (install E self).
Proof.
  unfold install. destruct (class self);
    auto using respects_package_install, respects_make_install,
      respects_libdeflate_install, respects_rapidjson_install.
Qed.

Lemma respects_configure : respects R (configure E self).
Proof.
  unfold configure. destruct (class self);
    auto using respects_package_configure, respects_make_configure.
Qed.

Lemma respects_call m : respects R (call E m self).
Proof.
  destruct m; simpl;
    auto using respects_clean, respects_clean_package, respects_unpack,
      respects_configure, respects_build, respects_install.
Qed.

End Clean.

End RespectsMethods.
(* ================================================================== *)
(** * Facts: the fields [clean] keeps *)

Lemma field_after_set self k k' v s :
  field self k' (with_cache (jset (node_path self ++ [k]) v (cache s)) s)
  = if alive self s then (if k' =? k then Some v else field self k' s)
    else field self k' s.
Proof.
  unfold alive. destruct (node_of self s) as [d|] eqn:Hd.
  - rewrite (field_set _ _ _ _ _ _ Hd), (field_node self k' s), Hd. reflexivity.
  - assert (Hj : jset (node_path self ++ [k]) v (cache s) = cache s).
    { apply jset_absent. intros d H. unfold node_of in Hd. rewrite H in Hd.
      discriminate. }
    unfold field, with_cache. simpl. rewrite Hj. reflexivity.
Qed.

Lemma steady_same_fields self :
  steady self (fun k => negb (kept k)) (same_fields self).
Proof.
  split.
  - intros s k _. reflexivity.
  - intros s1 s2 s3 H1 H2 k Hk. rewrite (H2 k Hk). apply H1, Hk.
  - intros s f k _. reflexivity.
  - intros s e k _. reflexivity.
  - intros s k v Hk k' Hk'. rewrite field_after_set.
    destruct (k' =? k) eqn:He.
    + apply String.eqb_eq in He. subst. rewrite Hk' in Hk. discriminate.
    + destruct (alive self s); reflexivity.
Qed.

Lemma steady_keeps_keys self : steady self (fun _ => true) (keeps_keys self).
Proof.
  split.
  - intros s k H. exact H.
  - intros s1 s2 s3 H1 H2 k Hk. apply H2, H1, Hk.
  - intros s f k H. exact H.
  - intros s e k H. exact H.
  - intros s k v _ k' H. rewrite field_after_set.
    destruct (alive self s); [|exact H]. destruct (k' =? k); [discriminate|exact H].
Qed.

Lemma steady_appends self : steady self (fun _ => true) appends.
Proof.
  split.
  - intros s. exists []. rewrite app_nil_r. reflexivity.
  - intros s1 s2 s3 [e1 H1] [e2 H2]. exists (e1 ++ e2)%list.
    rewrite H2, H1, app_assoc. reflexivity.
  - intros s f. exists []. simpl. rewrite app_nil_r. reflexivity.
  - intros s e. exists [e]. reflexivity.
  - intros s k v _. exists []. simpl. rewrite app_nil_r. reflexivity.
Qed.

(* ================================================================== *)
(** * Reachable states of a progress record *)

(* ================================================================== *)

Lemma call_follows E self m :
  follows self (outcomes m (class self) (on_linux self)) (call E m self).
Proof.
  destruct m; simpl.
  - apply clean_follows.
  - apply clean_package_follows.
  - apply unpack_follows.
  - apply configure_follows.
  - apply build_follows.
  - apply install_follows.
Qed.

Lemma invariant_kept m c linux hd hp f :
  invariant c hd hp f = true ->
  forall o, In o (outcomes m c linux hd hp f) -> invariant c hd hp (snd o) = true.
Proof.
  intros Hi o Ho.
  assert (H : forallb (fun o => invariant c hd hp (snd o))
                      (outcomes m c linux hd hp f) = true).
  { revert Hi. destruct m, c, linux, hd, hp, f as [[] [] [] []];
      vm_compute; intros Hi; first [reflexivity|discriminate Hi]. }
  rewrite forallb_forall in H. apply H, Ho.
Qed.

Lemma same_node_field self k s s' :
  node_of self s' = node_of self s -> field self k s' = field self k s.
Proof. intros H. rewrite !field_node, H. reflexivity. Qed.

Lemma fresh_progress_none self s : fresh self s -> progress_of self s = Abstract.none.
Proof.
  intros [H _]. unfold stage_keys in H.
  repeat match goal with
         | H : Forall _ (_ :: _) |- _ => inversion H; subst; clear H
         end.
  unfold progress_of, flag.
  repeat match goal with
         | H : field _ _ _ = Some _ |- _ => rewrite H; clear H
         end.
  reflexivity.
Qed.

Lemma fresh_known self s :
  fresh self s -> Forall (fun k => field self k s <> None) known_keys.
Proof.
  intros [H1 H2]. unfold known_keys. apply Forall_app. split; [|exact H2].
  eapply Forall_impl; [|exact H1]. simpl. intros k Hk. rewrite Hk. discriminate.
Qed.

Lemma reachable_invariant E self s :
  reachable E self s ->
  alive self s = true /\
  invariant (class self) (given self "download url" s)
            (given self "package url" s) (progress_of self s) = true /\
  Forall (fun k => field self k s <> None) known_keys.
Proof.
  induction 1 as [s Hf|s m Hr (Ha & Hi & Hk)|s s' Hr (Ha & Hi & Hk) Hn].
  - pose proof (fresh_known _ _ Hf) as Hk. split; [|split; [|exact Hk]].
    + inversion Hk as [|k l Hu _]; subst.
      destruct (field self "unpacked" s) eqn:Fu; [|congruence].
      eapply field_alive; eauto.
    + rewrite (fresh_progress_none _ _ Hf).
      destruct (class self), (given self "download url" s),
        (given self "package url" s); reflexivity.
  - destruct (call E m self s) as [r s'] eqn:Hc. simpl.
    destruct (call_follows E self m s r s' Ha Hc) as (Hin & G1 & G2 & Ha').
    split; [exact Ha'|]. split.
    + rewrite G1, G2. exact (invariant_kept _ _ _ _ _ _ Hi _ Hin).
    + pose proof (respects_call E self _ _ (steady_keeps_keys self)
                    eq_refl eq_refl eq_refl eq_refl eq_refl m s) as HK.
      rewrite Hc in HK. simpl in HK.
      eapply Forall_impl; [|exact Hk]. intros k. apply HK.
  - assert (Hf : forall k, field self k s' = field self k s)
      by (intros k; apply same_node_field, Hn).
    unfold alive, progress_of, flag, given in *. rewrite Hn, !Hf.
    split; [exact Ha|]. split; [exact Hi|].
    eapply Forall_impl; [|exact Hk]. intros k. rewrite Hf. auto.
Qed.

(** C3: for every descriptor and every reachable state of its progress
    record, installed implies built and built implies configured; for a
    descriptor with a download url, configured implies unpacked. *)
Theorem flags_ordered E self s :
  reachable E self s ->
  (flag self "installed" s = true -> flag self "built" s = true) /\
  (flag self "built" s = true -> flag self "configured" s = true) /\
  (given self "download url" s = true ->
   flag self "configured" s = true -> flag self "unpacked" s = true).
Proof.
  intros H. destruct (reachable_invariant _ _ _ H) as (_ & Hi & _).
  unfold invariant, ordered in Hi. simpl in Hi.
  destruct (flag self "installed" s), (flag self "built" s),
    (flag self "configured" s), (flag self "unpacked" s),
    (given self "download url" s); simpl in Hi; repeat split; intros;
    try reflexivity; try discriminate;
    rewrite ?andb_false_r in Hi; try discriminate Hi.
Qed.

Lemma flags_ordered_witness :
  reachable Sample.E (SampleRuns.object Sample.archive)
            (SampleRuns.installed Sample.archive) /\
  ((flag (SampleRuns.object Sample.archive) "installed"
         (SampleRuns.installed Sample.archive) = true ->
    flag (SampleRuns.object Sample.archive) "built"
         (SampleRuns.installed Sample.archive) = true) /\
   (flag (SampleRuns.object Sample.archive) "built"
         (SampleRuns.installed Sample.archive) = true ->
    flag (SampleRuns.object Sample.archive) "configured"
         (SampleRuns.installed Sample.archive) = true) /\
   (given (SampleRuns.object Sample.archive) "download url"
          (SampleRuns.installed Sample.archive) = true ->
    flag (SampleRuns.object Sample.archive) "configured"
         (SampleRuns.installed Sample.archive) = true ->
    flag (SampleRuns.object Sample.archive) "unpacked"
         (SampleRuns.installed Sample.archive) = true)).
Proof.
  assert (R : reachable Sample.E (SampleRuns.object Sample.archive)
                        (SampleRuns.installed Sample.archive)).
  { unfold SampleRuns.installed. apply reach_call. apply reach_fresh.
    split; repeat constructor; vm_compute; congruence. }
  split; [exact R|]. exact (flags_ordered _ _ _ R).
Defined.

(** C3, as stated, fails: sources that are in place, with a package url and
    no download url, are configured, built and installed without being
    unpacked. *)
Lemma configured_not_unpacked :
  reachable Sample.E (SampleRuns.object Sample.local)
            (SampleRuns.installed Sample.local) /\
  flag (SampleRuns.object Sample.local) "configured"
       (SampleRuns.installed Sample.local) = true /\
  flag (SampleRuns.object Sample.local) "unpacked"
       (SampleRuns.installed Sample.local) = false.
Proof.
  split.
  - unfold SampleRuns.installed. apply reach_call. apply reach_fresh.
    split; repeat constructor; vm_compute; congruence.
  - split; vm_compute; reflexivity.
Qed.
Lemma clean_outcome c hd hp f o :
  invariant c hd hp f = true ->
  In o (Abstract.clean c hp f) ->
  fst o = true ->
  Abstract.configured (snd o) = false /\
  Abstract.built (snd o) = false /\
  Abstract.installed (snd o) = false.
Proof.
  intros Hi Ho Hr.
  assert (H : forallb (fun o => implb (fst o)
                         (negb (Abstract.configured (snd o))
                          && negb (Abstract.built (snd o))
                          && negb (Abstract.installed (snd o))))
                      (Abstract.clean c hp f) = true).
  { revert Hi. destruct c, hd, hp, f as [[] [] [] []];
      vm_compute; intros Hi; first [reflexivity|discriminate Hi]. }
  rewrite forallb_forall in H. specialize (H o Ho). rewrite Hr in H. simpl in H.
  rewrite !andb_true_iff, !negb_true_iff in H. tauto.
Qed.

(** C8: for every package, after a clean action that returns, the three
    later flags are false, and the record is still there with every other
    field as it was: the digest, the unpacked flag, the fields of the
    normalised descriptor. *)
Theorem clean_preserves_identity E self s s' :
  reachable E self s ->
  clean E self s = (Ok tt, s') ->
  flag self "configured" s' = false /\
  flag self "built" s' = false /\
  flag self "installed" s' = false /\
  field self "document sha1 digest" s' = field self "document sha1 digest" s /\
  field self "unpacked" s' = field self "unpacked" s /\
  (forall k, kept k = true -> field self k s' = field self k s) /\
  alive self s' = true.
Proof.
  intros Hr Hc. destruct (reachable_invariant _ _ _ Hr) as (Ha & Hi & _).
  destruct (clean_follows E self s _ _ Ha Hc) as (Hin & _ & _ & Ha').
  destruct (clean_outcome _ _ _ _ _ Hi Hin eq_refl) as (C1 & C2 & C3).
  assert (Hs : same_fields self s s').
  { pose proof (respects_clean E self _ _ (steady_same_fields self)
                  eq_refl eq_refl eq_refl eq_refl s) as H.
    rewrite Hc in H. exact H. }
  simpl in C1, C2, C3. repeat split; auto.
Qed.

Lemma clean_preserves_identity_witness :
  flag (SampleRuns.object Sample.archive) "installed"
       (SampleRuns.cleaned Sample.archive) = false /\
  field (SampleRuns.object Sample.archive) "unpacked"
        (SampleRuns.cleaned Sample.archive)
  = field (SampleRuns.object Sample.archive) "unpacked"
          (SampleRuns.installed Sample.archive).
Proof.
  assert (R : reachable Sample.E (SampleRuns.object Sample.archive)
                        (SampleRuns.installed Sample.archive)).
  { unfold SampleRuns.installed. apply reach_call. apply reach_fresh.
    split; repeat constructor; vm_compute; congruence. }
  assert (Hc : clean Sample.E (SampleRuns.object Sample.archive)
                     (SampleRuns.installed Sample.archive)
               = (Ok tt, SampleRuns.cleaned Sample.archive)).
  { unfold SampleRuns.cleaned. cbn [call].
    destruct (clean Sample.E (SampleRuns.object Sample.archive)
                (SampleRuns.installed Sample.archive)) as [r s1] eqn:Hq.
    assert (Hr : is_ok r = true).
    { change r with (fst (r, s1)). rewrite <- Hq. vm_compute. reflexivity. }
    destruct r as [[]|e]; [reflexivity|discriminate]. }
  destruct (clean_preserves_identity Sample.E (SampleRuns.object Sample.archive)
              (SampleRuns.installed Sample.archive)
              (SampleRuns.cleaned Sample.archive) R Hc)
    as (_ & _ & Hi & _ & Hu & _).
  split; [exact Hi|exact Hu].
Defined.
(* ================================================================== *)
(** * Facts: a method that returns has seen exit status 0 of every command *)

Lemma no_command_zero_exit evs : Forall no_command evs -> forallb zero_exit evs = true.
Proof.
  induction 1 as [|e l He _ IH]; [reflexivity|]. simpl. rewrite IH.
  destruct e; try reflexivity. destruct He.
Qed.

Lemma checked_quiet {A} ok (m : M A) : quiet m -> checked ok m.
Proof.
  intros H s. destruct (H s) as (_ & _ & evs & Ht & Hn).
  exists evs. split; [exact Ht|]. intros _ _ _. apply no_command_zero_exit, Hn.
Qed.

Lemma checked_silent {A} ok (m : M A) :
  (forall s, trace (snd (m s)) = trace s) -> checked ok m.
Proof.
  intros H s. exists []. rewrite app_nil_r. split; [apply H|reflexivity].
Qed.

Lemma stops_checked {A} ok (m : M A) : stops m -> checked ok m.
Proof.
  intros H s. destruct (H s) as [[evs Ht] Hr]. exists evs. split; [exact Ht|].
  intros a Ha _. rewrite Ha in Hr. discriminate.
Qed.

Lemma checked_bind {A B} ok (m : M A) (k : A -> M B) :
  checked always m -> (forall a, checked ok (k a)) -> checked ok (bind m k).
Proof.
  intros Hm Hk s. unfold bind. destruct (Hm s) as (e1 & T1 & Z1).
  destruct (m s) as [[a|e] s1]; simpl in *.
  - destruct (Hk a s1) as (e2 & T2 & Z2). exists (e1 ++ e2)%list.
    split; [rewrite T2, T1, app_assoc; reflexivity|].
    intros b Hb Ho. rewrite forallb_app, (Z1 a eq_refl eq_refl), (Z2 b Hb Ho).
    reflexivity.
  - exists e1. split; [exact T1|]. intros b Hb. discriminate.
Qed.

Lemma checked_bind_exit {B} ok (m : M (Z * string * string))
  (k : Z * string * string -> M B) :
  checked exit_zero m ->
  (forall code o e, (code =? 0)%Z = true -> checked ok (k (code, o, e))) ->
  (forall code o e, (code =? 0)%Z = false -> stops (k (code, o, e))) ->
  checked ok (bind m k).
Proof.
  intros Hm Hk Hs s. unfold bind. destruct (Hm s) as (e1 & T1 & Z1).
  destruct (m s) as [[[[code o] e]|e] s1]; simpl in *.
  - destruct (code =? 0)%Z eqn:Hc.
    + destruct (Hk code o e Hc s1) as (e2 & T2 & Z2). exists (e1 ++ e2)%list.
      split; [rewrite T2, T1, app_assoc; reflexivity|].
      intros b Hb Ho. rewrite forallb_app, (Z1 _ eq_refl Hc), (Z2 b Hb Ho).
      reflexivity.
    + destruct (Hs code o e Hc s1) as [[e2 T2] Hr]. exists (e1 ++ e2)%list.
      split; [rewrite T2, T1, app_assoc; reflexivity|].
      intros b Hb. rewrite Hb in Hr. discriminate.
  - exists e1. split; [exact T1|]. intros b Hb. discriminate.
Qed.

Lemma checked_when ok b (m : M unit) : checked ok m -> checked ok (when b m).
Proof.
  destruct b; simpl; [auto|]. intros _. apply checked_silent. reflexivity.
Qed.

Lemma checked_node_set {ok} self k v : checked ok (node_set self k v).
Proof. apply checked_silent. reflexivity. Qed.

Lemma stops_raise {A} e : stops (@raise A e).
Proof. intros s. split; [exists []; simpl; rewrite app_nil_r|]; reflexivity. Qed.

Lemma stops_after {A B} (m : M A) (k : A -> M B) :
  quiet m -> (forall a, stops (k a)) -> stops (bind m k).
Proof.
  intros Hm Hk s. unfold bind. destruct (Hm s) as (_ & _ & e1 & T1 & _).
  destruct (m s) as [[a|e] s1]; simpl in *.
  - destruct (Hk a s1) as [[e2 T2] Hr]. split; [|exact Hr].
    exists (e1 ++ e2)%list. rewrite T2, T1, app_assoc. reflexivity.
  - split; [exists e1; exact T1|reflexivity].
Qed.

Lemma stops_first {A B} (m : M A) (k : A -> M B) : stops m -> stops (bind m k).
Proof.
  intros Hm s. unfold bind. destruct (Hm s) as [[e1 T1] Hr].
  destruct (m s) as [[a|e] s1]; simpl in *; [discriminate|].
  split; [exists e1; exact T1|reflexivity].
Qed.

Lemma stops_failed c o e m : stops (Make.failed c o e m).
Proof.
  unfold Make.failed. apply stops_after; [apply quiet_print_failure|].
  intros _. apply stops_raise.
Qed.

Create HintDb checked.
#[export] Hint Resolve stops_raise stops_failed : checked.
#[export] Hint Extern 1 (checked _ _) =>
  (apply checked_quiet; solve [auto with quiet]) : checked.
#[export] Hint Extern 1 (checked _ (node_set _ _ _)) => apply checked_node_set : checked.

Ltac stops_step :=
  match goal with
  | H : (?c =? 0)%Z = _ |- context [(?c =? 0)%Z] => rewrite H; cbn [negb]
  | |- stops (raise _) => apply stops_raise
  | |- stops (Make.failed _ _ _ _) => apply stops_failed
  | |- stops (bind (Make.failed _ _ _ _) _) => apply stops_first, stops_failed
  | |- stops (bind _ _) =>
      apply stops_after; [solve [auto with quiet | quiet_tac]|intros ?]
  end.

Ltac checked_exit :=
  apply checked_bind_exit;
  [solve [auto with checked]
  |intros ? ? ? ?; cbv beta iota
  |intros ? ? ? ?; cbv beta iota; solve [repeat stops_step]].

Ltac checked_step :=
  match goal with
  | H : (?c =? 0)%Z = _ |- context [(?c =? 0)%Z] => rewrite H; cbn [negb]
  | |- checked _ (let '(_, _) := ?x in _) => destruct x
  | |- checked _ (bind (communicate _ _ _) _) => checked_exit
  | |- checked _ (bind (Make.spawn _ _ _) _) => checked_exit
  | |- checked _ (bind _ _) => apply checked_bind; [|intros ?]
  | |- checked _ (when _ _) => apply checked_when
  | |- checked _ (if ?b then _ else _) => destruct b
  | |- checked _ (match ?x with _ => _ end) => destruct x
  | |- checked _ _ => solve [auto with checked]
  end.

Ltac checked_tac := repeat checked_step.

Section CheckedFacts.

Variable E : oracle.
Variable self : package.

Lemma checked_communicate command cwd : checked exit_zero (communicate E command cwd).
Proof.
  intros s. unfold communicate. destruct command as [|c l].
  - exists []. simpl. rewrite app_nil_r. split; [reflexivity|discriminate].
  - unfold bind, clock, get_state. simpl.
    destruct (popen E (Datatypes.length (trace s)) (c :: l) cwd (fs s))
      as [[[[code o] e]|e] f]; simpl.
    + exists [Popen (c :: l) cwd code]. split; [reflexivity|].
      intros a Ha Hz. inversion Ha; subst. unfold exit_zero in Hz. simpl in *.
      rewrite Hz. reflexivity.
    + exists []. rewrite app_nil_r. split; [reflexivity|discriminate].
Qed.

Lemma checked_env {ok} : checked ok (Package.env E self).
Proof. unfold Package.env. checked_tac. Qed.

End CheckedFacts.

#[export] Hint Resolve checked_communicate checked_env : checked.

Section CheckedMethods.

Variable E : oracle.
Variable self : package.

Lemma checked_spawn command : checked exit_zero (Make.spawn E self command).
Proof. unfold Make.spawn. checked_tac. Qed.

Lemma checked_remove_directory d : checked always (remove_directory E d).
Proof. unfold remove_directory. checked_tac. Qed.

#[local] Hint Resolve checked_spawn checked_remove_directory : checked.

Lemma checked_clean_package : checked always (Package.clean_package E self).
Proof. unfold Package.clean_package. checked_tac. Qed.

Lemma checked_package_clean : checked always (Package.clean self).
Proof. unfold Package.clean. checked_tac. Qed.

Hint Resolve checked_clean_package checked_package_clean : checked.

Lemma checked_unpack : checked always (Package.unpack E self).
Proof. unfold Package.unpack. checked_tac. Qed.

Hint Resolve checked_unpack : checked.

Lemma checked_package_configure : checked always (Package.configure E self).
Proof. unfold Package.configure. checked_tac. Qed.

Hint Resolve checked_package_configure : checked.

Lemma checked_package_build : checked always (Package.build E self).
Proof. unfold Package.build. checked_tac. Qed.

Hint Resolve checked_package_build : checked.

Lemma checked_package_install : checked always (Package.install E self).
Proof. unfold Package.install. checked_tac. Qed.

Lemma checked_with_prefix {ok} command : checked ok (Make.with_prefix self command).
Proof. unfold Make.with_prefix. checked_tac. Qed.

Lemma checked_with_optional {ok} k command :
  checked ok (Make.with_optional self k command).
Proof. unfold Make.with_optional. checked_tac. Qed.

Lemma checked_make_reset : checked always (Make.reset self).
Proof. unfold Make.reset. checked_tac. Qed.

Hint Resolve checked_with_prefix checked_with_optional checked_make_reset : checked.

Lemma checked_make_clean : checked always (Make.clean E self).
Proof. unfold Make.clean. checked_tac. Qed.

Lemma checked_make_configure : checked always (Make.configure E self).
Proof. unfold Make.configure. checked_tac. Qed.

Hint Resolve checked_make_configure : checked.

Lemma checked_make_build : checked always (Make.build E self).
Proof. unfold Make.build. checked_tac. Qed.

Hint Resolve checked_make_build : checked.

Lemma checked_os_symlink src dst : checked always (BZip2.os_symlink E src dst).
Proof.
  apply checked_quiet. intros s. unfold BZip2.os_symlink, bind, clock, get_state.
  simpl. destruct (symlink E (Datatypes.length (trace s)) src dst (fs s)); simpl.
  - repeat split. exists [Symlinked src dst]. split; [reflexivity|].
    repeat constructor.
  - repeat split. exists []. rewrite app_nil_r. split; [reflexivity|constructor].
Qed.

Hint Resolve checked_os_symlink : checked.

Lemma checked_link_versions n : forall so full l,
  checked always (BZip2.link_versions E n self so full l).
Proof.
  induction n as [|n IH]; intros so full l; simpl; [auto with checked|].
  checked_tac.
Qed.

Hint Resolve checked_link_versions : checked.

Lemma checked_install_dynamic : checked always (BZip2.install_dynamic E self).
Proof. unfold BZip2.install_dynamic. checked_tac. Qed.

Hint Resolve checked_install_dynamic : checked.

Lemma checked_bzip2_build : checked always (BZip2.build E self).
Proof. unfold BZip2.build. checked_tac. Qed.

Lemma checked_build : checked always (build E self).
Proof.
  unfold build. destruct (class self);
    auto using checked_package_build, checked_make_build, checked_bzip2_build.
Qed.

Hint Resolve checked_build : checked.

Lemma checked_make_install : checked always (Make.install E (build E) self).
Proof. unfold Make.install. checked_tac. Qed.

Lemma checked_copy p a b : checked always (LibDeflate.copy E self p a b).
Proof. unfold LibDeflate.copy. checked_tac. Qed.

Hint Resolve checked_copy : checked.

Lemma checked_libdeflate_install : checked always (LibDeflate.install E self).
Proof. unfold LibDeflate.install. checked_tac. Qed.

Lemma checked_rapidjson_install : checked always (RapidJSON.install E self).
Proof. unfold RapidJSON.install. checked_tac. Qed.

Lemma checked_call m : checked always (call E m self).
Proof.
  destruct m; simpl.
  - unfold clean. destruct (class self);
      auto using checked_package_clean, checked_make_clean.
  - apply checked_clean_package.
  - apply checked_unpack.
  - unfold configure. destruct (class self);
      auto using checked_package_configure, checked_make_configure.
  - apply checked_build.
  - unfold install. destruct (class self);
      auto using checked_package_install, checked_make_install,
        checked_libdeflate_install, checked_rapidjson_install.
Qed.

End CheckedMethods.
(* ================================================================== *)
(** * Facts: the stage methods *)

Lemma node_get_run self k s v : field self k s = Some v -> node_get self k s = (Ok v, s).
Proof. intros H. unfold node_get. rewrite H. reflexivity. Qed.

Lemma flag_true_field self k s :
  flag self k s = true -> exists v, field self k s = Some v /\ truthy v = true.
Proof.
  unfold flag. destruct (field self k s) as [v|]; [|discriminate].
  intros H. exists v. auto.
Qed.

Lemma stage_noop E self m k s :
  stage_key m = Some k -> flag self k s = true -> call E m self s = (Ok tt, s).
Proof.
  intros Hk Hf. destruct (flag_true_field _ _ _ Hf) as (v & Hv & Ht).
  destruct m; inversion Hk; subst k; simpl;
    unfold unpack, configure, build, install;
    try destruct (class self);
    unfold BZip2.build;
    try destruct (eq_str (platform (the_pipeline self)) "Linux");
    unfold Package.unpack, Package.configure, Package.build, Package.install,
      Make.configure, Make.build, Make.install,
      LibDeflate.install, RapidJSON.install;
    unfold bind; rewrite (node_get_run _ _ _ _ Hv), Ht; reflexivity.
Qed.

Lemma stage_outcomes m c linux hd hp f :
  invariant c hd hp f = true ->
  forallb (stage_outcome m hd hp) (outcomes m c linux hd hp f) = true.
Proof.
  destruct m, c, linux, hd, hp, f as [[] [] [] []]; vm_compute;
    solve [reflexivity | discriminate].
Qed.

Lemma install_settles c linux hd hp f :
  invariant c hd hp f = true ->
  forallb (fun o : Abstract.outcome => implb (fst o) (settled c hp (snd o)))
          (outcomes Install c linux hd hp f) = true.
Proof.
  destruct c, linux, hd, hp, f as [[] [] [] []]; vm_compute;
    solve [reflexivity | discriminate].
Qed.

Lemma flag_false_field self k s :
  field self k s <> None -> flag self k s = false ->
  exists v, field self k s = Some v /\ truthy v = false.
Proof.
  unfold flag. destruct (field self k s) as [v|]; [|congruence].
  intros _ H. exists v. auto.
Qed.

Lemma given_false_field self k s :
  field self k s <> None -> given self k s = false ->
  exists v, field self k s = Some v /\ is_None v = true.
Proof.
  unfold given. destruct (field self k s) as [v|]; [|congruence].
  intros _ H. exists v. split; [reflexivity|]. destruct (is_None v); auto.
Qed.

Lemma known_field self s k :
  Forall (fun k => field self k s <> None) known_keys ->
  In k known_keys -> field self k s <> None.
Proof. intros H. rewrite Forall_forall in H. apply H. Qed.

(** [install] of a package that has no package url and whose class runs
    commands in the directory of the package: nothing happens. *)
Lemma install_idle E self s :
  Forall (fun k => field self k s <> None) known_keys ->
  given self "package url" s = false ->
  flag self "installed" s = false ->
  settled (class self) false (progress_of self s) = true ->
  install E self s = (Ok tt, s).
Proof.
  intros Hk Hp Hi Hs.
  destruct (given_false_field _ _ _ (known_field _ _ "package url" Hk ltac:(simpl; tauto)) Hp)
    as (vp & Fp & Np).
  destruct (flag_false_field _ _ _ (known_field _ _ "installed" Hk ltac:(simpl; tauto)) Hi)
    as (vi & Fi & Ti).
  unfold settled, progress_of in Hs. simpl in Hs. rewrite Hi in Hs. simpl in Hs.
  unfold install.
  destruct (class self) eqn:Hc; [discriminate| | | | |].
  all: try (apply andb_true_iff in Hs; destruct Hs as [Hcf Hb];
            apply negb_true_iff in Hcf; apply negb_true_iff in Hb;
            destruct (flag_false_field _ _ _
                        (known_field _ _ "configured" Hk ltac:(simpl; tauto)) Hcf)
              as (vc & Fc & Tc);
            destruct (flag_false_field _ _ _
                        (known_field _ _ "built" Hk ltac:(simpl; tauto)) Hb)
              as (vb & Fb & Tb)).
  all: try (destruct (flag_true_field _ _ _ Hs) as (vb & Fb & Tb)).
  all: unfold Make.install, LibDeflate.install, RapidJSON.install, build;
    rewrite ?Hc; unfold BZip2.build;
    try destruct (eq_str (platform (the_pipeline self)) "Linux");
    unfold Make.build, Make.configure, Package.build, bind;
    repeat (first [ rewrite (node_get_run _ _ _ _ Fi) | rewrite Ti
                  | rewrite (node_get_run _ _ _ _ Fb) | rewrite Tb
                  | rewrite (node_get_run _ _ _ _ Fc) | rewrite Tc
                  | rewrite (node_get_run _ _ _ _ Fp) | rewrite Np ];
            cbv beta iota delta [negb ret]);
    reflexivity.
Qed.

Lemma perform_build E self :
  PackageManager.perform E (JStr "build") self =
  bind (installed self)
       (fun v => if negb (truthy v) then install E self
                 else bind (node_get self "display name")
                        (fun d => log "info" (py_str d ++ " is already installed"))).
Proof. reflexivity. Qed.

Lemma with_events_nil s : with_events [] s = s.
Proof. destruct s. unfold with_events. simpl. rewrite app_nil_r. reflexivity. Qed.

(** [build] on a package that is installed only reports it. *)
Lemma perform_build_installed E self s :
  Forall (fun k => field self k s <> None) known_keys ->
  flag self "installed" s = true ->
  exists msg,
    PackageManager.perform E (JStr "build") self s
    = (Ok tt, with_events [Log "info" msg] s).
Proof.
  intros Hk Hi. destruct (flag_true_field _ _ _ Hi) as (vi & Fi & Ti).
  destruct (field self "display name" s) as [d|] eqn:Fd.
  - exists (py_str d ++ " is already installed"). rewrite perform_build.
    unfold installed, bind. rewrite (node_get_run _ _ _ _ Fi), Ti. simpl.
    rewrite (node_get_run _ _ _ _ Fd). reflexivity.
  - exfalso. apply (known_field _ _ "display name" Hk); [simpl; tauto|exact Fd].
Qed.

Lemma perform_build_run E self s :
  Forall (fun k => field self k s <> None) known_keys ->
  flag self "installed" s = false ->
  PackageManager.perform E (JStr "build") self s = install E self s.
Proof.
  intros Hk Hi.
  destruct (flag_false_field _ _ _
              (known_field _ _ "installed" Hk ltac:(simpl; tauto)) Hi)
    as (vi & Fi & Ti).
  rewrite perform_build. unfold installed, bind.
  rewrite (node_get_run _ _ _ _ Fi), Ti. reflexivity.
Qed.

Lemma with_events_node self evs s : node_of self (with_events evs s) = node_of self s.
Proof. reflexivity. Qed.

Lemma perform_build_reachable E self s :
  reachable E self s ->
  reachable E self (snd (PackageManager.perform E (JStr "build") self s)).
Proof.
  intros Hr. destruct (reachable_invariant _ _ _ Hr) as (_ & _ & Hk).
  destruct (flag self "installed" s) eqn:Hi.
  - destruct (perform_build_installed E _ _ Hk Hi) as [msg Hm]. rewrite Hm.
    apply reach_other with (s := s); [exact Hr|reflexivity].
  - rewrite (perform_build_run E _ _ Hk Hi). exact (reach_call E self s Install Hr).
Qed.

Lemma second_build E self s s1 :
  reachable E self s ->
  PackageManager.perform E (JStr "build") self s = (Ok tt, s1) ->
  exists evs,
    PackageManager.perform E (JStr "build") self s1 = (Ok tt, with_events evs s1)
    /\ forallb is_log evs = true.
Proof.
  intros Hr Hp.
  pose proof (perform_build_reachable E _ _ Hr) as Hr1. rewrite Hp in Hr1.
  simpl in Hr1.
  destruct (reachable_invariant _ _ _ Hr) as (Ha & Hinv & Hk).
  destruct (reachable_invariant _ _ _ Hr1) as (Ha1 & Hinv1 & Hk1).
  destruct (flag self "installed" s1) eqn:Hi1.
  - destruct (perform_build_installed E _ _ Hk1 Hi1) as [msg Hm].
    exists [Log "info" msg]. split; [exact Hm|reflexivity].
  - exists []. split; [|reflexivity]. rewrite with_events_nil.
    rewrite (perform_build_run E _ _ Hk1 Hi1).
    destruct (flag self "installed" s) eqn:Hi.
    + destruct (perform_build_installed E _ _ Hk Hi) as [msg Hm].
      rewrite Hm in Hp. inversion Hp; subst s1.
      rewrite (same_cache_flag self "installed" s (with_events [Log "info" msg] s)
                 eq_refl) in Hi1.
      congruence.
    + rewrite (perform_build_run E _ _ Hk Hi) in Hp.
      destruct (call_follows E self Install s (Ok tt) s1 Ha Hp) as (Hin & G1 & G2 & _).
      pose proof (install_settles (class self) (on_linux self) _ _ _ Hinv) as Hs.
      rewrite forallb_forall in Hs. specialize (Hs _ Hin). simpl in Hs.
      unfold settled in Hs. simpl in Hs. rewrite Hi1 in Hs. simpl in Hs.
      apply andb_true_iff in Hs. destruct Hs as [Hp0 Hs].
      apply negb_true_iff in Hp0.
      apply install_idle; [exact Hk1|rewrite G2; exact Hp0|exact Hi1|].
      unfold settled. simpl. rewrite Hi1. exact Hs.
Qed.

(** C7: the walk of [prepare_directory] and of [prepare_path] goes up the
    ancestors of the directory (for a file path: of the directory of the
    file) as long as they do not exist.  When the first ancestor that
    exists is writable, the walk returns it; [prepare_directory] then
    returns at once when it is the directory itself and creates the
    directory otherwise.  Where the walk meets an ancestor that exists and
    is not writable, and where [prepare_path] finds the file with
    [overwrite] false, the script evaluates [PermissionDeniedError] and
    [NoOverwriteError], two names it binds nowhere: what is raised is
    [NameError], and the state is the same. *)
Theorem ancestor_walk E s directory k :
  k < recursion_limit E ->
  (forall j, j < k -> os.present (fs s) (ancestor j directory) = false) ->
  (os.writable (fs s) (ancestor k directory) = true ->
   prepare_directory_check_permission (recursion_limit E) directory s
   = (Ok (Some (ancestor k directory)), s) /\
   (k = 0 -> prepare_directory E directory s = (Ok tt, s)) /\
   (0 < k ->
    prepare_directory E directory s
    = bind (log "debug" ("creating directory " ++ directory))
           (fun _ => makedirs E directory) s) /\
   (forall path overwrite,
      os_path.dirname path = directory ->
      prepare_path_check_permission (recursion_limit E) path s
      = (Ok (Some (ancestor k directory)), s) /\
      (os.present (fs s) path = true ->
       prepare_path E path overwrite s
       = if overwrite then (Ok tt, s)
         else (Raise (NameError "NoOverwriteError"), s)))) /\
  (os.present (fs s) (ancestor k directory) = true ->
   os.writable (fs s) (ancestor k directory) = false ->
   prepare_directory E directory s
   = (Raise (NameError "PermissionDeniedError"), s) /\
   (forall path overwrite,
      os_path.dirname path = directory ->
      prepare_path E path overwrite s
      = (Raise (NameError "PermissionDeniedError"), s))).
Proof.
  intros Hk Habs. split.
  - intros Hw.
    pose proof (directory_walk_found s _ _ _ Hk Habs Hw) as Hd.
    split; [exact Hd|]. split; [|split].
    + intros ->. unfold prepare_directory. rewrite (bind_ok _ _ _ _ _ Hd).
      rewrite ancestor_0, String.eqb_refl. reflexivity.
    + intros Hpos. unfold prepare_directory. rewrite (bind_ok _ _ _ _ _ Hd).
      assert (Hne : (ancestor k directory =? directory) = false).
      { apply String.eqb_neq. intros Heq.
        pose proof (Habs 0 Hpos) as H0. rewrite ancestor_0 in H0.
        rewrite <- Heq, (writable_present _ _ Hw) in H0. discriminate. }
      rewrite Hne. reflexivity.
    + intros path overwrite Hp. subst directory.
      assert (Hf : prepare_path_check_permission (recursion_limit E) path s
                   = (Ok (Some (ancestor k (os_path.dirname path))), s)).
      { rewrite <- ancestor_S. apply path_walk_found; [exact Hk| |].
        - intros j Hj. rewrite ancestor_S. apply Habs, Hj.
        - rewrite ancestor_S. exact Hw. }
      split; [exact Hf|]. intros He. unfold prepare_path.
      rewrite (bind_ok _ _ _ _ _ Hf). unfold bind, os.exists_. rewrite He.
      destruct overwrite; reflexivity.
  - intros Hp Hw. split.
    + unfold prepare_directory.
      rewrite (bind_raise _ _ _ _ _ (directory_walk_denied s _ _ _ Hk Habs Hp Hw)).
      reflexivity.
    + intros path overwrite Hd. subst directory. unfold prepare_path.
      erewrite bind_raise; [reflexivity|].
      apply (path_walk_denied s _ path k); [exact Hk| | |].
      * intros j Hj. rewrite ancestor_S. apply Habs, Hj.
      * rewrite ancestor_S. exact Hp.
      * rewrite ancestor_S. exact Hw.
Qed.

Lemma ancestor_walk_witness :
  prepare_directory_check_permission (recursion_limit Sample.E) "/w/package/a/b"
    (Sample.start "build")
  = (Ok (Some "/w/package"), Sample.start "build").
Proof.
  assert (Hk : 2 < recursion_limit Sample.E) by (vm_compute; lia).
  assert (Habs : forall j, j < 2 ->
            os.present (fs (Sample.start "build")) (ancestor j "/w/package/a/b")
            = false).
  { intros [|[|j]] Hj; [reflexivity|reflexivity|lia]. }
  destruct (ancestor_walk Sample.E (Sample.start "build") "/w/package/a/b" 2 Hk Habs)
    as [Hfound _].
  exact (proj1 (Hfound eq_refl)).
Defined.

(** C7, as stated, fails: no [PermissionDeniedError] and no
    [NoOverwriteError] is ever raised.  In a directory that exists and is
    not writable, [prepare_directory] and [prepare_path] raise
    [NameError]; so does [prepare_path] on a file that exists when
    [overwrite] is false. *)
Lemma permission_denied_is_a_name_error :
  prepare_directory Sample.E "/ro/a/b" (Sample.start "build")
  = (Raise (NameError "PermissionDeniedError"), Sample.start "build") /\
  prepare_path Sample.E "/ro/a/b/c.tar" true (Sample.start "build")
  = (Raise (NameError "PermissionDeniedError"), Sample.start "build") /\
  prepare_path Sample.E "/w/package" false (Sample.start "build")
  = (Raise (NameError "NoOverwriteError"), Sample.start "build").
Proof.
  assert (Hk : 2 < recursion_limit Sample.E) by (vm_compute; lia).
  assert (Habs : forall j, j < 2 ->
            os.present (fs (Sample.start "build")) (ancestor j "/ro/a/b") = false).
  { intros [|[|j]] Hj; [reflexivity|reflexivity|lia]. }
  split; [|split].
  - unfold prepare_directory.
    rewrite (bind_raise _ _ _ _ _
               (directory_walk_denied (Sample.start "build") _ _ _ Hk Habs
                  eq_refl eq_refl)).
    reflexivity.
  - unfold prepare_path. erewrite bind_raise; [reflexivity|].
    apply (path_walk_denied (Sample.start "build") _ "/ro/a/b/c.tar" 2);
      [exact Hk| |reflexivity|reflexivity].
    intros j Hj. rewrite ancestor_S. apply Habs, Hj.
  - unfold prepare_path.
    assert (Hf : prepare_path_check_permission (recursion_limit Sample.E)
                   "/w/package" (Sample.start "build")
                 = (Ok (Some "/w"), Sample.start "build")).
    { apply (path_walk_found (Sample.start "build") _ "/w/package" 0);
        [vm_compute; lia| |reflexivity].
      intros j Hj. lia. }
    rewrite (bind_ok _ _ _ _ _ Hf). reflexivity.
Qed.
(* ================================================================== *)
(** * Facts: the download *)

Lemma emit_run e s : emit e s = (Ok tt, with_events [e] s).
Proof. reflexivity. Qed.

Lemma log_run l m s : log l m s = (Ok tt, with_events [Log l m] s).
Proof. reflexivity. Qed.

Lemma with_events_app a b s :
  with_events b (with_events a s) = with_events (a ++ b) s.
Proof. unfold with_events. simpl. rewrite app_assoc. reflexivity. Qed.

Lemma node_get_events self k evs s v :
  field self k s = Some v ->
  node_get self k (with_events evs s) = (Ok v, with_events evs s).
Proof. intros H. apply node_get_run. exact H. Qed.

Lemma clock_events evs s :
  clock (with_events evs s)
  = (Ok (List.length (trace s) + List.length evs), with_events evs s).
Proof. unfold clock. simpl. rewrite length_app. reflexivity. Qed.

Section DownloadFacts.

Variable E : oracle.
Variable self : package.

(** One turn of the loop on a mirror that is rejected. *)
Lemma download_from_rejected_any url u rest error s sha dn msg :
  Package.requested url = Ok u ->
  field self "sha1" s = Some sha ->
  field self "display name" s = Some dn ->
  judge E sha dn (S (List.length (trace s))) u = Rejected msg ->
  Package.download_from E self (url :: rest) error s
  = Package.download_from E self rest (JStr msg)
      (with_events [Log "debug" ("fetching " ++ py_str url); Request u;
                    Log "warning" msg] s).
Proof.
  intros Hq Hs Hd Hj. cbn [Package.download_from].
  rewrite bind_run, log_run.
  rewrite bind_run. unfold lift at 1. rewrite Hq. rewrite bind_run, clock_events.
  cbn [List.length]. rewrite Nat.add_1_r.
  rewrite bind_run, emit_run, with_events_app. cbn [app].
  unfold judge in Hj.
  destruct (urlopen E (S (List.length (trace s))) u) as [| code | reason | e | content].
  - inversion Hj; subst msg. rewrite bind_run, log_run, with_events_app. reflexivity.
  - inversion Hj; subst msg. rewrite bind_run, log_run, with_events_app. reflexivity.
  - inversion Hj; subst msg. rewrite bind_run, log_run, with_events_app. reflexivity.
  - discriminate.
  - rewrite bind_run, (node_get_events _ _ _ _ _ Hs).
    destruct (negb (is_None sha) && negb (eq_str sha (hashlib.sha1 content)));
      [|discriminate].
    inversion Hj; subst msg.
    rewrite bind_run, (node_get_events _ _ _ _ _ Hd).
    rewrite bind_run, log_run, with_events_app. reflexivity.
Qed.

Lemma download_from_rejected u rest error s sha dn msg :
  field self "sha1" s = Some sha ->
  field self "display name" s = Some dn ->
  judge E sha dn (S (List.length (trace s))) u = Rejected msg ->
  Package.download_from E self (JStr u :: rest) error s
  = Package.download_from E self rest (JStr msg)
      (with_events [Log "debug" ("fetching " ++ u); Request u; Log "warning" msg] s).
Proof. exact (download_from_rejected_any (JStr u) u rest error s sha dn msg eq_refl). Qed.

(** The loop goes through the mirrors that are rejected, in their order. *)
Lemma download_from_prefix sha dn : forall l error s,
  field self "sha1" s = Some sha ->
  field self "display name" s = Some dn ->
  Package.download_from E self (map JStr l) error s
  = let '(evs, last, others) :=
      rejected_prefix E sha dn (List.length (trace s)) l error in
    Package.download_from E self (map JStr others) last (with_events evs s).
Proof.
  induction l as [|u rest IH]; intros error s Hs Hd.
  - simpl. rewrite with_events_nil. reflexivity.
  - cbn [rejected_prefix map].
    destruct (judge E sha dn (S (List.length (trace s))) u) as [msg|c|e] eqn:Hj.
    + rewrite (download_from_rejected _ _ _ _ _ _ _ Hs Hd Hj).
      rewrite (IH (JStr msg)
                 (with_events
                    [Log "debug" ("fetching " ++ u); Request u; Log "warning" msg] s)
                 Hs Hd).
      replace (List.length (trace (with_events
                 [Log "debug" ("fetching " ++ u); Request u; Log "warning" msg] s)))
        with (3 + List.length (trace s))
        by (simpl; rewrite length_app; simpl; lia).
      destruct (rejected_prefix E sha dn (3 + List.length (trace s)) rest (JStr msg))
        as [[evs last] others].
      rewrite with_events_app. reflexivity.
    + rewrite with_events_nil. reflexivity.
    + rewrite with_events_nil. reflexivity.
Qed.

(** One turn of the loop on a mirror whose payload is accepted: the payload
    is written, and the mirrors that are left are not asked. *)
Lemma download_from_accepted_any url u rest error s sha dn p content :
  Package.requested url = Ok u ->
  field self "sha1" s = Some sha ->
  field self "display name" s = Some dn ->
  field self "download url" s = Some (JStr p) ->
  judge E sha dn (S (List.length (trace s))) u = Accepted content ->
  Package.download_from E self (url :: rest) error s
  = bind (prepare_path E p true)
      (fun _ => bind (os.write p content)
         (fun _ => log "info" ("downloaded archive saved " ++ py_str dn
                                 ++ " " ++ py_str sha)))
      (with_events [Log "debug" ("fetching " ++ py_str url); Request u] s).
Proof.
  intros Hq Hs Hd Hp Hj. cbn [Package.download_from].
  rewrite bind_run, log_run.
  rewrite bind_run. unfold lift at 1. rewrite Hq. rewrite bind_run, clock_events.
  cbn [List.length]. rewrite Nat.add_1_r.
  rewrite bind_run, emit_run, with_events_app. cbn [app].
  unfold judge in Hj.
  destruct (urlopen E (S (List.length (trace s))) u) as [| code | reason | e | c];
    try discriminate.
  rewrite bind_run, (node_get_events _ _ _ _ _ Hs).
  destruct (negb (is_None sha) && negb (eq_str sha (hashlib.sha1 c)));
    [discriminate|].
  inversion Hj; subst c.
  unfold Package.path_of. rewrite !bind_run, (node_get_events _ _ _ _ _ Hp).
  cbn [as_str lift]. unfold bind.
  destruct (prepare_path E p true _) as [[[]|e] s1] eqn:Hpp; [|reflexivity].
  destruct (os.write p content s1) as [[[]|e] s2] eqn:Hw; [|reflexivity].
  assert (Hd2 : field self "display name" s2 = Some dn).
  { rewrite <- Hd.
    apply same_cache_field.
    destruct (quiet_write p content s1) as (C2 & _). rewrite Hw in C2.
    destruct (quiet_prepare_path E p true
                (with_events [Log "debug" ("fetching " ++ py_str url); Request u] s))
      as (C1 & _).
    rewrite Hpp in C1. simpl in *. congruence. }
  rewrite (node_get_run _ _ _ _ Hd2). reflexivity.
Qed.

Lemma download_from_accepted u rest error s sha dn p content :
  field self "sha1" s = Some sha ->
  field self "display name" s = Some dn ->
  field self "download url" s = Some (JStr p) ->
  judge E sha dn (S (List.length (trace s))) u = Accepted content ->
  Package.download_from E self (JStr u :: rest) error s
  = bind (prepare_path E p true)
      (fun _ => bind (os.write p content)
         (fun _ => log "info" ("downloaded archive saved " ++ py_str dn
                                 ++ " " ++ py_str sha)))
      (with_events [Log "debug" ("fetching " ++ u); Request u] s).
Proof.
  exact (download_from_accepted_any (JStr u) u rest error s sha dn p content eq_refl).
Qed.

(** One turn of the loop on a mirror whose request raises something that the
    loop does not catch. *)
Lemma download_from_fatal_any url u rest error s sha dn e :
  Package.requested url = Ok u ->
  judge E sha dn (S (List.length (trace s))) u = Fatal e ->
  Package.download_from E self (url :: rest) error s
  = (Raise e, with_events [Log "debug" ("fetching " ++ py_str url); Request u] s).
Proof.
  intros Hq Hj. cbn [Package.download_from].
  rewrite bind_run, log_run.
  rewrite bind_run. unfold lift at 1. rewrite Hq. rewrite bind_run, clock_events.
  cbn [List.length]. rewrite Nat.add_1_r.
  rewrite bind_run, emit_run, with_events_app. cbn [app].
  unfold judge in Hj.
  destruct (urlopen E (S (List.length (trace s))) u) as [| code | reason | e' | c];
    try discriminate.
  - inversion Hj; subst. reflexivity.
  - destruct (negb (is_None sha) && negb (eq_str sha (hashlib.sha1 c)));
      discriminate.
Qed.

Lemma download_from_fatal u rest error s sha dn e :
  judge E sha dn (S (List.length (trace s))) u = Fatal e ->
  Package.download_from E self (JStr u :: rest) error s
  = (Raise e, with_events [Log "debug" ("fetching " ++ u); Request u] s).
Proof. exact (download_from_fatal_any (JStr u) u rest error s sha dn e eq_refl). Qed.

Lemma fs_update_same p v f : fs_update p v f p = v.
Proof. unfold fs_update. rewrite String.eqb_refl. reflexivity. Qed.

(** After [os.remove] the file is not there, and the record is as it was. *)
Lemma remove_run p s s1 :
  os.remove p s = (Ok tt, s1) ->
  os.present (fs s1) p = false /\ cache s1 = cache s /\
  trace s1 = (trace s ++ [Removed p])%list.
Proof.
  unfold os.remove, bind, get_state.
  destruct (fs s p) as [[w c|w]|]; try discriminate.
  destruct (os.writable (fs s) (os_path.dirname p)); [|discriminate].
  simpl. intros H. inversion H; subst s1. simpl.
  unfold os.present. rewrite fs_update_same. auto.
Qed.

Lemma remove_quiet_run p s r s1 :
  os.remove p s = (r, s1) -> cache s1 = cache s.
Proof.
  intros H. destruct (quiet_remove p s) as (C & _). rewrite H in C. exact C.
Qed.

Section Download.

Variables (s : state) (p : string) (sha r : json).
Hypothesis Hp : field self "download url" s = Some (JStr p).
Hypothesis Hs : field self "sha1" s = Some sha.
Hypothesis Hr : field self "remote url" s = Some r.

(** No local archive: the mirrors are asked. *)
Lemma download_absent :
  os.present (fs s) p = false ->
  Package.download E self s = Package.download_from E self (mirrors r) JNull s.
Proof.
  intros Ha. unfold Package.download, bind.
  rewrite (node_get_run _ _ _ _ Hp). cbn [is_None negb].
  rewrite (node_get_run _ _ _ _ Hs). cbn [as_str lift].
  unfold os.exists_.
  destruct (is_None sha); cbv beta iota delta [when ret]; rewrite ?Ha;
    cbv beta iota delta [when ret]; rewrite ?Ha; cbv beta iota;
    rewrite (node_get_run _ _ _ _ Hr); reflexivity.
Qed.

(** A local archive with the declared checksum: nothing happens. *)
Lemma download_verified w content :
  fs s p = Some (File w content) ->
  sha = JStr (hashlib.sha1 content) ->
  Package.download E self s = (Ok tt, s).
Proof.
  intros Hf ->. unfold Package.download, bind.
  rewrite (node_get_run _ _ _ _ Hp). cbn [is_None negb].
  rewrite (node_get_run _ _ _ _ Hs). cbn [as_str lift is_None ret].
  unfold os.exists_, os.present, os.read, bind, get_state.
  cbv beta iota delta [ret]. rewrite Hf.
  cbv beta iota delta [ret is_None negb eq_str andb]. rewrite Hf.
  cbv beta iota delta [ret is_None negb eq_str andb].
  rewrite String.eqb_refl. reflexivity.
Qed.

(** A local archive with another checksum than the declared one: it is
    removed, and the mirrors are asked. *)
Lemma download_corrupt w content :
  fs s p = Some (File w content) ->
  is_None sha = false ->
  eq_str sha (hashlib.sha1 content) = false ->
  Package.download E self s
  = bind (bind (log "warning" ("removing corrupt archive " ++ p))
               (fun _ => os.remove p))
         (fun _ => Package.download_from E self (mirrors r) JNull) s.
Proof.
  intros Hf Hn He.
  unfold Package.download, os.exists_, os.read, get_state, os.present, bind.
  rewrite (node_get_run _ _ _ _ Hp).
  cbn [is_None negb as_str]; cbv beta iota delta [ret lift].
  rewrite (node_get_run _ _ _ _ Hs), Hn.
  cbn [is_None negb as_str]; cbv beta iota delta [ret lift]. rewrite Hf.
  cbn [is_None negb as_str]; cbv beta iota delta [ret lift]. rewrite Hf, He.
  cbv beta iota delta [negb andb]. rewrite !log_run.
  destruct (os.remove p _) as [[[]|e] s1] eqn:Hrm; [|reflexivity].
  cbv beta iota delta [ret].
  assert (Hr1 : field self "remote url" s1 = Some r).
  { rewrite <- Hr. apply same_cache_field.
    rewrite (remove_quiet_run _ _ _ _ Hrm). reflexivity. }
  rewrite (node_get_run _ _ _ _ Hr1). reflexivity.
Qed.

(** No declared checksum: a local archive is removed, and the mirrors are
    asked. *)
Lemma download_unchecked :
  os.present (fs s) p = true ->
  is_None sha = true ->
  Package.download E self s
  = bind (bind (log "debug" ("removing old real time archive " ++ p))
               (fun _ => os.remove p))
         (fun _ => Package.download_from E self (mirrors r) JNull) s.
Proof.
  intros Ha Hn.
  unfold Package.download, os.exists_, os.read, get_state, bind.
  rewrite (node_get_run _ _ _ _ Hp).
  cbn [is_None negb as_str]; cbv beta iota delta [ret lift].
  rewrite (node_get_run _ _ _ _ Hs), Hn.
  cbn [is_None negb as_str]; cbv beta iota delta [ret lift]. rewrite Ha.
  cbv beta iota delta [when]. rewrite !log_run.
  destruct (os.remove p _) as [[[]|e] s1] eqn:Hrm; [|reflexivity].
  destruct (remove_run _ _ _ Hrm) as (Hgone & Hc & _).
  rewrite Hgone. cbv beta iota delta [ret].
  assert (Hr1 : field self "remote url" s1 = Some r).
  { rewrite <- Hr. apply same_cache_field. rewrite Hc. reflexivity. }
  rewrite (node_get_run _ _ _ _ Hr1). reflexivity.
Qed.

End Download.

(** The walk of [prepare_path] leaves the state as it is. *)
Lemma path_walk_state : forall depth path s,
  snd (prepare_path_check_permission depth path s) = s.
Proof.
  induction depth as [|depth IH]; intros path s; [reflexivity|].
  cbn [prepare_path_check_permission].
  unfold bind, os.access_W_OK, os.exists_.
  destruct (os.writable (fs s) (os_path.dirname path)),
    (os.present (fs s) (os_path.dirname path)); simpl; auto.
Qed.

Lemma mkdir_trace name s : trace (snd (os.mkdir name s)) = trace s.
Proof.
  unfold os.mkdir, bind, get_state. cbv zeta.
  destruct (fs s (os.trimmed name)); [reflexivity|].
  destruct (fs s (os_path.dirname (os.trimmed name))) as [[w c|[|]]|]; reflexivity.
Qed.

Lemma makedirs_rec_trace : forall depth name s,
  trace (snd (os.makedirs_rec depth name s)) = trace s.
Proof.
  induction depth as [|depth IH]; intros name s; [reflexivity|].
  cbn [os.makedirs_rec].
  destruct (os_path.split name) as [head tail].
  destruct (if tail =? "" then os_path.split head else (head, tail)) as [h t].
  unfold bind, os.exists_.
  assert (K : forall s1, trace s1 = trace s ->
            trace (snd ((if t =? "." then ret tt else os.mkdir name) s1))
            = trace s).
  { intros s1 H. destruct (t =? "."); [exact H|]. rewrite mkdir_trace. exact H. }
  destruct (negb (h =? "") && negb (t =? "") && negb (os.present (fs s) h)).
  - specialize (IH h s).
    destruct (os.makedirs_rec depth h s) as [[[]|e] s1]; simpl in IH.
    + apply K, IH.
    + destruct e as [ | | | |q| | | | | | | | ]; try exact IH.
      destruct ((q =? h) && os.present (fs s1) h); [|exact IH].
      apply K, IH.
  - apply mkdir_trace.
Qed.

Lemma makedirs_trace name s :
  exists evs, trace (snd (makedirs E name s)) = (trace s ++ evs)%list /\
              writes evs = [] /\ requests evs = [].
Proof.
  unfold makedirs, bind. pose proof (makedirs_rec_trace (recursion_limit E) name s) as H.
  destruct (os.makedirs_rec (recursion_limit E) name s) as [[[]|e] s1]; simpl in *.
  - exists [Makedirs name]. rewrite H. auto.
  - exists []. rewrite app_nil_r. auto.
Qed.

Lemma writes_app a b : writes (a ++ b) = (writes a ++ writes b)%list.
Proof. unfold writes. apply flat_map_app. Qed.

Lemma requests_app a b : requests (a ++ b) = (requests a ++ requests b)%list.
Proof. unfold requests. apply flat_map_app. Qed.

Lemma prepare_path_trace path overwrite s :
  exists evs,
    trace (snd (prepare_path E path overwrite s)) = (trace s ++ evs)%list /\
    writes evs = [] /\ requests evs = [].
Proof.
  unfold prepare_path, bind.
  pose proof (path_walk_state (recursion_limit E) path s) as Hw.
  destruct (prepare_path_check_permission (recursion_limit E) path s)
    as [[available|e] s1]; simpl in Hw; subst s1.
  2: { exists []. simpl. rewrite app_nil_r. auto. }
  unfold os.exists_. destruct (os.present (fs s) path).
  { exists []. rewrite app_nil_r.
    destruct (negb overwrite); simpl; auto. }
  assert (Hm : exists evs,
             trace (snd (bind (log "debug"
                                   ("creating directory " ++ os_path.dirname path))
                              (fun _ => makedirs E (os_path.dirname path)) s))
             = (trace s ++ evs)%list /\ writes evs = [] /\ requests evs = []).
  { rewrite bind_run, log_run.
    destruct (makedirs_trace (os_path.dirname path)
                (with_events [Log "debug"
                                ("creating directory " ++ os_path.dirname path)] s))
      as (evs & Ht & Hw & Hr).
    exists (Log "debug" ("creating directory " ++ os_path.dirname path) :: evs).
    rewrite Ht. simpl. rewrite <- app_assoc. auto. }
  destruct available as [a|]; [|exact Hm].
  destruct (negb (os_path.dirname path =? a)); [exact Hm|].
  exists []. simpl. rewrite app_nil_r. auto.
Qed.

Lemma write_trace p content s :
  exists evs,
    trace (snd (os.write p content s)) = (trace s ++ evs)%list /\
    (evs = [] \/ evs = [Written p content]).
Proof.
  unfold os.write, bind, get_state.
  destruct (fs s p) as [[[|] c|w]|]; simpl.
  - exists [Written p content]. auto.
  - exists []. rewrite app_nil_r. auto.
  - exists []. rewrite app_nil_r. auto.
  - destruct (fs s (os_path.dirname p)) as [[w c|[|]]|]; simpl;
      first [ exists [Written p content]; split; [reflexivity|auto]
            | exists []; rewrite app_nil_r; auto ].
Qed.

Lemma judge_accepted sha dn t u content :
  judge E sha dn t u = Accepted content -> verified sha content.
Proof.
  unfold judge, verified.
  destruct (urlopen E t u) as [| | | |c]; try discriminate.
  destruct (is_None sha) eqn:Hn; [auto|]. simpl.
  destruct (eq_str sha (hashlib.sha1 c)) eqn:He; [|discriminate].
  intros H. inversion H; subst c. right.
  destruct sha; try discriminate. simpl in He. apply String.eqb_eq in He.
  congruence.
Qed.

(** The loop writes nothing, or one payload that the checksum accepts, at
    the download url. *)
Lemma download_from_writes sha dn p : forall l error s,
  field self "sha1" s = Some sha ->
  field self "display name" s = Some dn ->
  field self "download url" s = Some (JStr p) ->
  exists evs,
    trace (snd (Package.download_from E self l error s)) = (trace s ++ evs)%list /\
    tidy sha p evs.
Proof.
  induction l as [|url rest IH]; intros error s Hs Hd Hp.
  - exists []. simpl. rewrite app_nil_r. split; [reflexivity|left; reflexivity].
  - destruct (Package.requested url) as [u|x] eqn:Hu.
    + destruct (judge E sha dn (S (List.length (trace s))) u) as [msg|c|e] eqn:Hj.
      * rewrite (download_from_rejected_any _ _ _ _ _ _ _ _ Hu Hs Hd Hj).
        destruct (IH (JStr msg)
                    (with_events [Log "debug" ("fetching " ++ py_str url); Request u;
                                  Log "warning" msg] s) Hs Hd Hp)
          as (evs & Ht & Hy).
        exists ([Log "debug" ("fetching " ++ py_str url); Request u; Log "warning" msg]
                  ++ evs)%list.
        split; [rewrite Ht; simpl; rewrite <- app_assoc; reflexivity|].
        exact Hy.
      * rewrite (download_from_accepted_any _ _ _ _ _ _ _ _ _ Hu Hs Hd Hp Hj).
        pose proof (judge_accepted _ _ _ _ _ Hj) as Hv.
        set (s0 := with_events [Log "debug" ("fetching " ++ py_str url); Request u] s).
        rewrite bind_run.
        destruct (prepare_path_trace p true s0) as (e1 & T1 & W1 & _).
        destruct (prepare_path E p true s0) as [[[]|e] s1]; simpl in T1.
        2: { exists ([Log "debug" ("fetching " ++ py_str url); Request u] ++ e1)%list.
             simpl. rewrite T1. simpl. rewrite <- app_assoc.
             split; [reflexivity|]. left. simpl. exact W1. }
        rewrite bind_run.
        destruct (write_trace p c s1) as (e2 & T2 & W2).
        destruct (os.write p c s1) as [[[]|e] s2]; simpl in T2.
        2: { exists ([Log "debug" ("fetching " ++ py_str url); Request u] ++ e1 ++ e2)%list.
             simpl. rewrite T2, T1. simpl. rewrite <- !app_assoc.
             split; [reflexivity|]. unfold tidy. simpl.
             rewrite writes_app, W1. simpl.
             destruct W2 as [->| ->]; [left; reflexivity|].
             right. exists c. auto. }
        rewrite log_run. simpl.
        exists ([Log "debug" ("fetching " ++ py_str url); Request u] ++ e1 ++ e2
                  ++ [Log "info" ("downloaded archive saved " ++ py_str dn
                                    ++ " " ++ py_str sha)])%list.
        rewrite T2, T1. simpl. rewrite <- !app_assoc.
        split; [reflexivity|]. unfold tidy. simpl.
        rewrite !writes_app, W1. simpl.
        destruct W2 as [->| ->]; [left; reflexivity|].
        right. exists c. auto.
      * rewrite (download_from_fatal_any _ _ _ _ _ _ _ _ Hu Hj).
        exists [Log "debug" ("fetching " ++ py_str url); Request u].
        split; [reflexivity|left; reflexivity].
    + cbn [Package.download_from]. rewrite bind_run, log_run, bind_run.
      unfold lift at 1. rewrite Hu.
      exists [Log "debug" ("fetching " ++ py_str url)].
      split; [reflexivity|left; reflexivity].
Qed.

Lemma remove_trace q s :
  exists evs,
    trace (snd (os.remove q s)) = (trace s ++ evs)%list /\ writes evs = [] /\
    requests evs = [] /\ cache (snd (os.remove q s)) = cache s.
Proof.
  unfold os.remove, bind, get_state.
  destruct (fs s q) as [[w c|w]|]; simpl;
    try (exists []; rewrite app_nil_r; auto; fail).
  destruct (os.writable (fs s) (os_path.dirname q)); simpl.
  - exists [Removed q]. auto.
  - exists []. rewrite app_nil_r. auto.
Qed.

Lemma removal_then_writes sha dn p level msg l s :
  field self "sha1" s = Some sha ->
  field self "display name" s = Some dn ->
  field self "download url" s = Some (JStr p) ->
  exists evs,
    trace (snd (bind (bind (log level msg) (fun _ => os.remove p))
                     (fun _ => Package.download_from E self l JNull) s))
    = (trace s ++ evs)%list /\
    tidy sha p evs.
Proof.
  intros Hs Hd Hp. rewrite !bind_run, log_run.
  destruct (remove_trace p (with_events [Log level msg] s)) as (e1 & T1 & W1 & _ & C1).
  destruct (os.remove p (with_events [Log level msg] s)) as [[[]|e] s1];
    simpl in T1, C1.
  - assert (Hf : forall k, field self k s1 = field self k s)
      by (intros k; apply same_cache_field; exact C1).
    destruct (download_from_writes sha dn p l JNull s1) as (e2 & T2 & Y2);
      try (rewrite Hf; assumption).
    exists ([Log level msg] ++ e1 ++ e2)%list.
    rewrite T2, T1, <- !app_assoc. split; [reflexivity|].
    unfold tidy in *. simpl. rewrite writes_app, W1. exact Y2.
  - exists ([Log level msg] ++ e1)%list. simpl. rewrite T1, <- app_assoc.
    split; [reflexivity|]. left. simpl. exact W1.
Qed.

(** [download] writes nothing, or one payload that the checksum accepts, at
    the download url. *)
Lemma download_writes sha dn p r s :
  field self "sha1" s = Some sha ->
  field self "display name" s = Some dn ->
  field self "download url" s = Some (JStr p) ->
  field self "remote url" s = Some r ->
  exists evs,
    trace (snd (Package.download E self s)) = (trace s ++ evs)%list /\
    tidy sha p evs.
Proof.
  intros Hs Hd Hp Hr.
  destruct (os.present (fs s) p) eqn:Ha.
  - destruct (is_None sha) eqn:Hn.
    + rewrite (download_unchecked s p sha r Hp Hs Hr Ha Hn).
      apply (removal_then_writes sha dn p); assumption.
    + unfold os.present in Ha.
      destruct (fs s p) as [[w c|w]|] eqn:Hf; [| |discriminate].
      * destruct (eq_str sha (hashlib.sha1 c)) eqn:He.
        -- assert (Hv : sha = JStr (hashlib.sha1 c)).
           { destruct sha; try discriminate. simpl in He.
             apply String.eqb_eq in He. congruence. }
           rewrite (download_verified s p sha Hp Hs w c Hf Hv).
           exists []. simpl. rewrite app_nil_r.
           split; [reflexivity|left; reflexivity].
        -- rewrite (download_corrupt s p sha r Hp Hs Hr w c Hf Hn He).
           apply (removal_then_writes sha dn p); assumption.
      * exists []. rewrite app_nil_r. split; [|left; reflexivity].
        unfold Package.download, os.exists_, os.read, get_state, os.present, bind.
        rewrite (node_get_run _ _ _ _ Hp).
        cbn [is_None negb as_str]; cbv beta iota delta [ret lift].
        rewrite (node_get_run _ _ _ _ Hs), Hn.
        cbv beta iota delta [ret lift]. rewrite Hf.
        cbv beta iota delta [ret lift]. rewrite Hf. reflexivity.
  - rewrite (download_absent s p sha r Hp Hs Hr Ha).
    apply (download_from_writes sha dn p); assumption.
Qed.

End DownloadFacts.

Lemma rejected_prefix_stops E sha dn : forall l t error evs last others,
  rejected_prefix E sha dn t l error = (evs, last, others) ->
  match others with
  | [] => True
  | u :: _ => forall msg, judge E sha dn (S (t + List.length evs)) u <> Rejected msg
  end.
Proof.
  induction l as [|u rest IH]; intros t error evs last others H; simpl in H.
  - inversion H; subst. exact I.
  - destruct (judge E sha dn (S t) u) as [msg|c|e] eqn:Hj.
    + destruct (rejected_prefix E sha dn (S (S (S t))) rest (JStr msg))
        as [[evs' last'] others'] eqn:Hp.
      inversion H; subst. specialize (IH _ _ _ _ _ Hp).
      destruct others as [|v others]; [exact I|].
      intros m. simpl.
      replace (t + S (S (S (List.length evs'))))
        with (S (S (S t)) + List.length evs') by lia.
      apply IH.
    + inversion H; subst. simpl. rewrite Nat.add_0_r. intros m. congruence.
    + inversion H; subst. simpl. rewrite Nat.add_0_r. intros m. congruence.
Qed.

(** C5: [download] of a descriptor whose archive is not there asks the
    mirrors.  The loop over the mirrors goes through them in their order as
    long as they are rejected (a bad status line, an HTTP error, a server
    that is not reached, a payload with another checksum than the declared
    one), logging a warning for each one; the mirror it stops at is not
    rejected.  When no mirror is left it raises [DownloadError] with the
    last error; when the payload of the mirror it stops at is accepted, the
    payload is written at the download url and no other mirror is asked. *)
Theorem mirror_fallback E self s sha dn l error evs last others :
  field self "sha1" s = Some sha ->
  field self "display name" s = Some dn ->
  rejected_prefix E sha dn (List.length (trace s)) l error = (evs, last, others) ->
  Package.download_from E self (map JStr l) error s
  = Package.download_from E self (map JStr others) last (with_events evs s) /\
  (others = [] ->
   Package.download_from E self (map JStr l) error s
   = (Raise (Package.DownloadError_ last), with_events evs s)) /\
  (forall u rest,
     others = u :: rest ->
     (forall msg,
        judge E sha dn (S (List.length (trace (with_events evs s)))) u
        <> Rejected msg) /\
     (forall p content,
        field self "download url" s = Some (JStr p) ->
        judge E sha dn (S (List.length (trace (with_events evs s)))) u
        = Accepted content ->
        Package.download_from E self (map JStr l) error s
        = bind (prepare_path E p true)
            (fun _ => bind (os.write p content)
               (fun _ => log "info" ("downloaded archive saved " ++ py_str dn
                                       ++ " " ++ py_str sha)))
            (with_events (evs ++ [Log "debug" ("fetching " ++ u); Request u]) s))) /\
  (forall p r,
     field self "download url" s = Some (JStr p) ->
     field self "remote url" s = Some r ->
     os.present (fs s) p = false ->
     Package.download E self s = Package.download_from E self (mirrors r) JNull s).
Proof.
  intros Hs Hd Hp.
  pose proof (download_from_prefix E self sha dn l error s Hs Hd) as H.
  rewrite Hp in H. split; [exact H|]. split; [|split].
  - intros ->. rewrite H. reflexivity.
  - intros u rest ->. split.
    + pose proof (rejected_prefix_stops _ _ _ _ _ _ _ _ _ Hp) as Hn.
      simpl in Hn. intros msg. simpl. rewrite length_app. apply Hn.
    + intros p content Hu Hj. rewrite H. cbn [map].
      rewrite (download_from_accepted E self u (map JStr rest) last
                 (with_events evs s) sha dn p content Hs Hd Hu Hj).
      rewrite with_events_app. reflexivity.
  - intros p r Hu Hr Ha. exact (download_absent E self s p sha r Hu Hs Hr Ha).
Qed.

(** C6: for a descriptor with a download url, [download] on a local archive
    with the declared checksum returns and the state is the same: no
    request, no file written.  A local archive with another checksum is
    removed before the mirrors are asked, and so is any local archive when
    no checksum is declared; a removed file is not there.  A payload with
    another checksum than the declared one is not written: its mirror is
    rejected and the next one is asked.  In the end [download] has written
    nothing, or one file at the download url whose content the checksum
    accepts. *)
Theorem download_verifies E self s sha dn p r :
  field self "sha1" s = Some sha ->
  field self "display name" s = Some dn ->
  field self "download url" s = Some (JStr p) ->
  field self "remote url" s = Some r ->
  (forall w content,
     fs s p = Some (File w content) ->
     sha = JStr (hashlib.sha1 content) ->
     Package.download E self s = (Ok tt, s)) /\
  (forall w content,
     fs s p = Some (File w content) ->
     is_None sha = false ->
     eq_str sha (hashlib.sha1 content) = false ->
     Package.download E self s
     = bind (bind (log "warning" ("removing corrupt archive " ++ p))
                  (fun _ => os.remove p))
            (fun _ => Package.download_from E self (mirrors r) JNull) s) /\
  (os.present (fs s) p = true ->
   is_None sha = true ->
   Package.download E self s
   = bind (bind (log "debug" ("removing old real time archive " ++ p))
                (fun _ => os.remove p))
          (fun _ => Package.download_from E self (mirrors r) JNull) s) /\
  (forall s0 s1, os.remove p s0 = (Ok tt, s1) -> os.present (fs s1) p = false) /\
  (forall u rest error content,
     urlopen E (S (List.length (trace s))) u = Content content ->
     is_None sha = false ->
     eq_str sha (hashlib.sha1 content) = false ->
     exists msg,
       Package.download_from E self (JStr u :: rest) error s
       = Package.download_from E self rest (JStr msg)
           (with_events [Log "debug" ("fetching " ++ u); Request u;
                         Log "warning" msg] s)) /\
  (exists evs,
     trace (snd (Package.download E self s)) = (trace s ++ evs)%list /\
     tidy sha p evs).
Proof.
  intros Hs Hd Hp Hr. split; [|split; [|split; [|split; [|split]]]].
  - intros w content. apply (download_verified E self s p sha Hp Hs).
  - intros w content. apply (download_corrupt E self s p sha r Hp Hs Hr).
  - apply (download_unchecked E self s p sha r Hp Hs Hr).
  - intros s0 s1 H. apply (remove_run _ _ _ H).
  - intros u rest error content Hu Hn He.
    eexists. apply (download_from_rejected E self u rest error s sha dn); eauto.
    unfold judge. rewrite Hu, Hn, He. reflexivity.
  - apply (download_writes E self sha dn p r); assumption.
Qed.

Lemma mirror_fallback_witness :
  Package.download_from Sample.E (SampleRuns.object Sample.archive)
    (map JStr ["http://a/x-1.0.tar.gz"; "http://b/x-1.0.tar.gz"]) JNull
    (SampleRuns.created Sample.archive)
  = Package.download_from Sample.E (SampleRuns.object Sample.archive)
      (map JStr ["http://b/x-1.0.tar.gz"])
      (JStr "Could not reach server when requesting http://a/x-1.0.tar.gz: timed out")
      (with_events
         [Log "debug" "fetching http://a/x-1.0.tar.gz";
          Request "http://a/x-1.0.tar.gz";
          Log "warning"
            "Could not reach server when requesting http://a/x-1.0.tar.gz: timed out"]
         (SampleRuns.created Sample.archive)).
Proof.
  assert (Hs : field (SampleRuns.object Sample.archive) "sha1"
                     (SampleRuns.created Sample.archive)
               = Some (JStr "c7406ff5b3bb4e6bd8ba3ac8b8669c7421919fa7"))
    by (vm_compute; reflexivity).
  assert (Hd : field (SampleRuns.object Sample.archive) "display name"
                     (SampleRuns.created Sample.archive)
               = Some (JStr "x 1.0"))
    by (vm_compute; reflexivity).
  assert (Hp : rejected_prefix Sample.E
                 (JStr "c7406ff5b3bb4e6bd8ba3ac8b8669c7421919fa7") (JStr "x 1.0")
                 (List.length (trace (SampleRuns.created Sample.archive)))
                 ["http://a/x-1.0.tar.gz"; "http://b/x-1.0.tar.gz"] JNull
               = ([Log "debug" "fetching http://a/x-1.0.tar.gz";
                   Request "http://a/x-1.0.tar.gz";
                   Log "warning"
                     "Could not reach server when requesting http://a/x-1.0.tar.gz: timed out"],
                  JStr "Could not reach server when requesting http://a/x-1.0.tar.gz: timed out",
                  ["http://b/x-1.0.tar.gz"]))
    by (vm_compute; reflexivity).
  exact (proj1 (mirror_fallback Sample.E (SampleRuns.object Sample.archive)
                  (SampleRuns.created Sample.archive) _ _ _ _ _ _ _ Hs Hd Hp)).
Defined.
Lemma download_verifies_witness :
  Package.download Sample.E (SampleRuns.object Sample.archive)
                   (SampleRuns.installed Sample.archive)
  = (Ok tt, SampleRuns.installed Sample.archive).
Proof.
  assert (Hs : field (SampleRuns.object Sample.archive) "sha1"
                     (SampleRuns.installed Sample.archive)
               = Some (JStr (hashlib.sha1 "archive bytes")))
    by (vm_compute; reflexivity).
  assert (Hd : field (SampleRuns.object Sample.archive) "display name"
                     (SampleRuns.installed Sample.archive)
               = Some (JStr "x 1.0"))
    by (vm_compute; reflexivity).
  assert (Hp : field (SampleRuns.object Sample.archive) "download url"
                     (SampleRuns.installed Sample.archive)
               = Some (JStr "/w/download/x-1.0.tar.gz"))
    by (vm_compute; reflexivity).
  assert (Hr : field (SampleRuns.object Sample.archive) "remote url"
                     (SampleRuns.installed Sample.archive)
               = Some (JList [JStr "http://a/x-1.0.tar.gz";
                              JStr "http://b/x-1.0.tar.gz"]))
    by (vm_compute; reflexivity).
  assert (Hf : fs (SampleRuns.installed Sample.archive) "/w/download/x-1.0.tar.gz"
               = Some (File true "archive bytes"))
    by (vm_compute; reflexivity).
  exact (proj1 (download_verifies Sample.E (SampleRuns.object Sample.archive)
                  (SampleRuns.installed Sample.archive) _ _ _ _ Hs Hd Hp Hr)
               true "archive bytes" Hf eq_refl).
Defined.
(* ================================================================== *)
(** * Facts: the cache file *)

Lemma steady_same_ontology self : steady self (fun _ => true) same_ontology.
Proof.
  split; unfold same_ontology.
  - reflexivity.
  - intros s1 s2 s3 H1 H2. congruence.
  - reflexivity.
  - reflexivity.
  - reflexivity.
Qed.

Lemma instruction_item_state key s : snd (PackageManager.instruction_item key s) = s.
Proof.
  unfold PackageManager.instruction_item, PackageManager.instruction, bind, get_state.
  destruct (jget ["instruction"] (ontology s)) as [[]|]; reflexivity.
Qed.

Lemma perform_ontology E action self s :
  ontology (snd (PackageManager.perform E action self s)) = ontology s.
Proof.
  assert (Hc : forall m s0, ontology (snd (call E m self s0)) = ontology s0).
  { intros m s0.
    exact (respects_call E self _ _ (steady_same_ontology self)
             eq_refl eq_refl eq_refl eq_refl eq_refl m s0). }
  assert (Hq : forall {A} (m : M A), quiet m -> forall s, ontology (snd (m s)) = ontology s).
  { intros A m H s0. apply (H s0). }
  unfold PackageManager.perform.
  destruct (eq_str action "clean").
  { rewrite bind_run.
    destruct (node_get self "display name" s) as [[d|e] s1] eqn:Hn;
      pose proof (Hq _ _ (quiet_node_get self "display name") s) as H1;
      rewrite Hn in H1; simpl in H1; [|exact H1].
    rewrite bind_run, log_run. rewrite <- H1.
    exact (Hc Clean (with_events _ s1)). }
  destruct (eq_str action "build").
  { rewrite bind_run. unfold installed.
    destruct (node_get self "installed" s) as [[v|e] s1] eqn:Hn;
      pose proof (Hq _ _ (quiet_node_get self "installed") s) as H1;
      rewrite Hn in H1; simpl in H1; [|exact H1].
    destruct (negb (truthy v)).
    - rewrite <- H1. exact (Hc Install s1).
    - rewrite bind_run.
      destruct (node_get self "display name" s1) as [[d|e] s2] eqn:Hd;
        pose proof (Hq _ _ (quiet_node_get self "display name") s1) as H2;
        rewrite Hd in H2; simpl in H2; [|simpl; congruence].
      rewrite log_run. simpl. congruence. }
  destruct (eq_str action "clean.package").
  { rewrite bind_run.
    destruct (node_get self "display name" s) as [[d|e] s1] eqn:Hn;
      pose proof (Hq _ _ (quiet_node_get self "display name") s) as H1;
      rewrite Hn in H1; simpl in H1; [|exact H1].
    rewrite bind_run, log_run. rewrite <- H1.
    exact (Hc CleanPackage (with_events _ s1)). }
  reflexivity.
Qed.

Lemma save_cache_skipped E s o :
  ontology s = JObj o -> Dict.has_key "cache path" o = false ->
  PackageManager.save_cache E s = (Ok tt, s).
Proof.
  intros Ho Hk. unfold PackageManager.save_cache, bind, get_state.
  rewrite Ho, Hk. reflexivity.
Qed.

(** C1: [save_cache] looks for the key [cache path] in the document
    [ontology] itself, and the key is in [ontology['instruction']].  In a
    state whose document has no such key at its top, as in every run of
    [main], [save_cache] returns and the state is the same: nothing is
    written, and the action on a package is the action alone. *)
Theorem save_cache_without_effect E self s o :
  ontology s = JObj o ->
  Dict.has_key "cache path" o = false ->
  PackageManager.save_cache E s = (Ok tt, s) /\
  PackageManager.act E self s
  = bind (PackageManager.instruction_item "action")
         (fun action => PackageManager.perform E action self) s.
Proof.
  intros Ho Hk. split; [exact (save_cache_skipped E s o Ho Hk)|].
  unfold PackageManager.act. rewrite !bind_run.
  pose proof (instruction_item_state "action" s) as Hi.
  destruct (PackageManager.instruction_item "action" s) as [[action|e] s0];
    simpl in Hi; subst s0; [|reflexivity].
  rewrite bind_run.
  pose proof (perform_ontology E action self s) as Hp.
  destruct (PackageManager.perform E action self s) as [[[]|e] s1];
    simpl in Hp; [|reflexivity].
  apply (save_cache_skipped E s1 o); [congruence|exact Hk].
Qed.

Lemma save_cache_without_effect_witness :
  PackageManager.save_cache Sample.E (snd SampleMain.ran)
  = (Ok tt, snd SampleMain.ran).
Proof.
  assert (Ho : ontology (snd SampleMain.ran) = JObj SampleMain.document)
    by (vm_compute; reflexivity).
  assert (Hk : Dict.has_key "cache path" SampleMain.document = false)
    by (vm_compute; reflexivity).
  exact (proj1 (save_cache_without_effect Sample.E
                  (SampleRuns.object Sample.archive) (snd SampleMain.ran)
                  SampleMain.document Ho Hk)).
Defined.

(** C1, on a run: [main] builds the package of the preset and returns 0;
    the instruction has its [cache path], the cache has the record of the
    package with its four flags, and yet no file is at the cache path, the
    only file written is the archive, and the cache was never marked as
    saved. *)
Lemma cache_file_not_written :
  fst SampleMain.ran = Ok 0%Z /\
  jget ["instruction"; "cache path"] (ontology (snd SampleMain.ran))
  = Some (JStr "/w/home/static-HEAD/cache.json") /\
  fs (snd SampleMain.ran) "/w/home/static-HEAD/cache.json" = None /\
  writes (trace (snd SampleMain.ran))
  = [("/w/download/x-1.0.tar.gz", "archive bytes")] /\
  jget ["saved"] (cache (snd SampleMain.ran)) = None /\
  jget ["environment"; "2e82c6dbb112e5af42a037f79496f0dfc50734a7"; "package";
        "1ed937608495f898e5bbd1bba6d0ee9a5e076a64"; "installed"]
       (cache (snd SampleMain.ran))
  = Some (JBool true).
Proof. repeat split; vm_compute; reflexivity. Qed.
(* ================================================================== *)
(** * Facts: [clean_package] and [unpack] *)

(** [unpack] is [clean_package], then [download], then the extraction. *)
Lemma unpack_steps E self :
  Package.unpack E self
  = bind (node_get self "unpacked")
      (fun unpacked =>
         if negb (truthy unpacked) then
           bind (Package.clean_package E self)
             (fun _ =>
                bind (node_get self "download url")
                  (fun download_url =>
                     if negb (is_None download_url) then
                       bind (Package.download E self) (fun _ => extract E self)
                     else ret tt))
         else ret tt).
Proof. reflexivity. Qed.

Lemma jset_same p k v : forall j,
  jget (p ++ [k]) j = Some v -> jset (p ++ [k]) v j = j.
Proof.
  induction p as [|a p IH]; intros j H.
  - simpl in *. destruct j; try discriminate.
    destruct (Dict.lookup k d) as [w|] eqn:Hk; [|discriminate].
    inversion H; subst. rewrite (set_same _ _ _ Hk). reflexivity.
  - change ((a :: p) ++ [k])%list with (a :: (p ++ [k]))%list in *.
    rewrite jset_cons by (destruct p; discriminate).
    simpl in H. destruct j; try discriminate.
    destruct (Dict.lookup a d) as [sub|] eqn:Ha; [|discriminate].
    rewrite (IH sub H), (set_same _ _ _ Ha). reflexivity.
Qed.

Lemma with_cache_same s : with_cache (cache s) s = s.
Proof. destruct s. reflexivity. Qed.

(** An assignment of the value a field has leaves the state as it is. *)
Lemma node_set_same self k v s :
  field self k s = Some v -> node_set self k v s = (Ok tt, s).
Proof.
  intros H. rewrite node_set_run. unfold field in H.
  rewrite (jset_same _ _ _ _ H), with_cache_same. reflexivity.
Qed.

Lemma node_set_fields self k v s :
  alive self s = true ->
  exists s',
    node_set self k v s = (Ok tt, s') /\ alive self s' = true /\
    fs s' = fs s /\ trace s' = trace s /\
    (forall k', field self k' s' = if k' =? k then Some v else field self k' s).
Proof.
  intros Ha. rewrite node_set_run. eexists. split; [reflexivity|].
  destruct (node_set_inv self k v s _ _ (node_set_run _ _ _ _) Ha) as (_ & H & _).
  split; [exact H|]. split; [reflexivity|]. split; [reflexivity|].
  intros k'. rewrite field_after_set, Ha. reflexivity.
Qed.

(** The four assignments at the end of [clean_package]. *)
Lemma reset_flags self s :
  alive self s = true ->
  exists s',
    bind (node_set self "unpacked" (JBool false))
      (fun _ => bind (node_set self "configured" (JBool false))
         (fun _ => bind (node_set self "built" (JBool false))
            (fun _ => node_set self "installed" (JBool false)))) s
    = (Ok tt, s') /\
    cleared self s' /\ fs s' = fs s /\ trace s' = trace s /\
    (forall k, is_flag k = false -> field self k s' = field self k s).
Proof.
  intros Ha.
  destruct (node_set_fields self "unpacked" (JBool false) s Ha)
    as (s1 & R1 & A1 & F1 & T1 & K1).
  destruct (node_set_fields self "configured" (JBool false) s1 A1)
    as (s2 & R2 & A2 & F2 & T2 & K2).
  destruct (node_set_fields self "built" (JBool false) s2 A2)
    as (s3 & R3 & A3 & F3 & T3 & K3).
  destruct (node_set_fields self "installed" (JBool false) s3 A3)
    as (s4 & R4 & A4 & F4 & T4 & K4).
  exists s4. unfold bind. rewrite R1, R2, R3, R4.
  assert (F : forall k, field self k s4
                        = if is_flag k then Some (JBool false) else field self k s).
  { intros k. rewrite K4, K3, K2, K1. unfold is_flag.
    destruct (k =? "installed"), (k =? "built"), (k =? "configured"),
      (k =? "unpacked"); reflexivity. }
  split; [reflexivity|]. split; [|split; [congruence|split; [congruence|]]].
  - unfold cleared, stage_keys. repeat constructor; rewrite F; reflexivity.
  - intros k Hk. rewrite F, Hk. reflexivity.
Qed.

Lemma remove_directory_effect E d s r s1 :
  rm_removes E d ->
  remove_directory E (JStr d) s = (r, s1) ->
  cache s1 = cache s /\ (r = Ok tt -> os.present (fs s1) d = false).
Proof.
  intros Hrm.
  unfold remove_directory, communicate, os.exists_, clock, get_state, set_fs,
    lift, log, emit, ret, raise, bind.
  cbn [as_str fs trace cache].
  destruct (os.present (fs s) d) eqn:Hpr.
  - destruct (popen E _ ["rm"; "-rf"; d] None (fs s))
      as [[[[code o] e]|e] f'] eqn:Hpo.
    + destruct (code =? 0)%Z eqn:Hc; cbn [negb fs trace cache].
      * intros H. inversion H; subst. split; [reflexivity|]. intros _.
        apply Z.eqb_eq in Hc. exact (Hrm _ _ _ _ _ _ Hpo Hc).
      * intros H. inversion H; subst. split; [reflexivity|discriminate].
    + intros H. inversion H; subst. split; [reflexivity|discriminate].
  - intros H. inversion H; subst. split; [reflexivity|]. intros _. exact Hpr.
Qed.

Section CleanPackage.

Variable E : oracle.
Variable self : package.

(** Without a download url [clean_package] does nothing. *)
Lemma clean_package_idle s v :
  field self "download url" s = Some v -> is_None v = true ->
  Package.clean_package E self s = (Ok tt, s).
Proof.
  intros Hd Hn. unfold Package.clean_package, bind.
  rewrite (node_get_run _ _ _ _ Hd), Hn. reflexivity.
Qed.

(** With a download url, a [clean_package] that returns leaves no package
    directory and a record with its four flags [False]; the other fields
    are as they were. *)
Lemma clean_package_effect s s' v d :
  field self "download url" s = Some v -> is_None v = false ->
  field self "package url" s = Some (JStr d) ->
  rm_removes E d ->
  Package.clean_package E self s = (Ok tt, s') ->
  os.present (fs s') d = false /\ cleared self s' /\
  (forall k, is_flag k = false -> field self k s' = field self k s).
Proof.
  intros Hd Hn Hp Hrm. unfold Package.clean_package.
  rewrite bind_run, (node_get_run _ _ _ _ Hd), Hn. cbn [negb].
  rewrite bind_run, (node_get_run _ _ _ _ Hp), bind_run.
  assert (Ha : alive self s = true) by (eapply field_alive; exact Hp).
  destruct (remove_directory E (JStr d) s) as [[[]|e] s1] eqn:Hr; [|discriminate].
  destruct (remove_directory_effect E d s _ _ Hrm Hr) as (Hc & Hgone).
  specialize (Hgone eq_refl).
  assert (Ha1 : alive self s1 = true)
    by (rewrite (same_cache_alive _ _ _ Hc); exact Ha).
  destruct (reset_flags self s1 Ha1) as (s2 & Hrun & Hcl & Hfs & _ & Hk).
  rewrite Hrun. intros H. inversion H; subst s'.
  split; [rewrite Hfs; exact Hgone|]. split; [exact Hcl|].
  intros k Hf. rewrite (Hk k Hf). apply same_cache_field, Hc.
Qed.

(** On a record whose flags are [False] and whose package directory is not
    there, [clean_package] leaves the state as it is. *)
Lemma clean_package_again s v d :
  field self "download url" s = Some v ->
  field self "package url" s = Some (JStr d) ->
  os.present (fs s) d = false ->
  cleared self s ->
  Package.clean_package E self s = (Ok tt, s).
Proof.
  intros Hd Hp Hgone Hc.
  unfold Package.clean_package, remove_directory, os.exists_, lift, bind.
  rewrite (node_get_run _ _ _ _ Hd).
  destruct (negb (is_None v)); [|reflexivity].
  rewrite (node_get_run _ _ _ _ Hp). cbn [as_str]. rewrite Hgone.
  cbv beta iota delta [ret].
  unfold cleared, stage_keys in Hc.
  repeat match goal with
         | H : Forall _ (_ :: _) |- _ => inversion H; subst; clear H
         end.
  repeat match goal with
         | H : field self ?k s = Some (JBool false) |- _ =>
             rewrite (node_set_same self k (JBool false) s H); clear H
         end.
  reflexivity.
Qed.

End CleanPackage.

Lemma steady_same_descriptor self :
  steady self (fun k => negb (descriptor_key k)) (same_descriptor self).
Proof.
  split.
  - intros s k _. reflexivity.
  - intros s1 s2 s3 H1 H2 k Hk. rewrite (H2 k Hk). apply H1, Hk.
  - intros s f k _. reflexivity.
  - intros s e k _. reflexivity.
  - intros s k v Hk k' Hk'. rewrite field_after_set.
    destruct (k' =? k) eqn:He.
    + apply String.eqb_eq in He. subst. rewrite Hk' in Hk. discriminate.
    + destruct (alive self s); reflexivity.
Qed.

(** No method of a package changes a field of its descriptor. *)
Lemma call_same_descriptor E self m s :
  same_descriptor self s (snd (call E m self s)).
Proof.
  exact (respects_call E self _ _ (steady_same_descriptor self)
           eq_refl eq_refl eq_refl eq_refl eq_refl m s).
Qed.

(** [unpack] on a record whose flag is unset and that has no download url
    leaves the state as it is. *)
Lemma unpack_idle E self s u v :
  field self "unpacked" s = Some u -> truthy u = false ->
  field self "download url" s = Some v -> is_None v = true ->
  Package.unpack E self s = (Ok tt, s).
Proof.
  intros Hu Ht Hd Hn. rewrite unpack_steps. unfold bind.
  rewrite (node_get_run _ _ _ _ Hu), Ht. cbn [negb].
  rewrite (clean_package_idle E self s v Hd Hn), (node_get_run _ _ _ _ Hd), Hn.
  reflexivity.
Qed.

(** [unpack] on a record whose flag is unset and that has a download url. *)
Lemma unpack_run E self s u v :
  field self "unpacked" s = Some u -> truthy u = false ->
  field self "download url" s = Some v -> is_None v = false ->
  Package.unpack E self s
  = bind (Package.clean_package E self)
         (fun _ => bind (Package.download E self) (fun _ => extract E self)) s.
Proof.
  intros Hu Ht Hd Hn. rewrite unpack_steps. unfold bind.
  rewrite (node_get_run _ _ _ _ Hu), Ht. cbn [negb].
  pose proof (call_same_descriptor E self CleanPackage s "download url" eq_refl) as Hs.
  cbn [call] in Hs. unfold clean_package in Hs.
  destruct (Package.clean_package E self s) as [[[]|e] s1]; [|reflexivity].
  simpl in Hs. rewrite Hd in Hs.
  rewrite (node_get_run _ _ _ _ Hs), Hn. reflexivity.
Qed.

(** C10: [unpack] on a record whose flag is unset.  For a descriptor with a
    download url it is [clean_package], then [download], then the
    extraction; when [clean_package] has returned, the package directory is
    not there (an [rm -rf] with exit status 0 has removed it) and the four
    flags are [False].  For a descriptor without a download url nothing is
    removed, reset or extracted: the state is the same. *)
Theorem unpack_cleans_first E self s u v :
  field self "unpacked" s = Some u ->
  truthy u = false ->
  field self "download url" s = Some v ->
  (is_None v = true -> Package.unpack E self s = (Ok tt, s)) /\
  (is_None v = false ->
   Package.unpack E self s
   = bind (Package.clean_package E self)
          (fun _ => bind (Package.download E self) (fun _ => extract E self)) s
   /\
   (forall d s1,
      field self "package url" s = Some (JStr d) ->
      rm_removes E d ->
      Package.clean_package E self s = (Ok tt, s1) ->
      os.present (fs s1) d = false /\ cleared self s1)).
Proof.
  intros Hu Ht Hd. split.
  - intros Hn. exact (unpack_idle E self s u v Hu Ht Hd Hn).
  - intros Hn. split; [exact (unpack_run E self s u v Hu Ht Hd Hn)|].
    intros d s1 Hp Hrm Hc.
    destruct (clean_package_effect E self s s1 v d Hd Hn Hp Hrm Hc) as (H1 & H2 & _).
    split; assumption.
Qed.

(** [rm -rf] of the sample surroundings removes. *)
Lemma sample_rm_removes d : rm_removes Sample.E d.
Proof.
  intros t f code o e f' H _. simpl in H. inversion H; subst.
  unfold os.present, Sample.rm_tree. rewrite String.eqb_refl. reflexivity.
Qed.

Lemma unpack_cleans_first_witness :
  Package.unpack Sample.E (SampleRuns.object Sample.archive)
                 (SampleRuns.created Sample.archive)
  = bind (Package.clean_package Sample.E (SampleRuns.object Sample.archive))
         (fun _ => bind (Package.download Sample.E (SampleRuns.object Sample.archive))
                     (fun _ => extract Sample.E (SampleRuns.object Sample.archive)))
         (SampleRuns.created Sample.archive).
Proof.
  assert (Hu : field (SampleRuns.object Sample.archive) "unpacked"
                     (SampleRuns.created Sample.archive) = Some (JBool false))
    by (vm_compute; reflexivity).
  assert (Hd : field (SampleRuns.object Sample.archive) "download url"
                     (SampleRuns.created Sample.archive)
               = Some (JStr "/w/download/x-1.0.tar.gz"))
    by (vm_compute; reflexivity).
  exact (proj1 (proj2 (unpack_cleans_first Sample.E
                         (SampleRuns.object Sample.archive)
                         (SampleRuns.created Sample.archive) _ _ Hu eq_refl Hd)
                      eq_refl)).
Defined.

(** C10, as stated, fails: sources that are in place have no download url;
    [unpack] on their record, whose flag is unset, leaves the state as it
    is, with the later flags set. *)
Lemma unpack_leaves_local :
  flag (SampleRuns.object Sample.local) "unpacked"
       (SampleRuns.installed Sample.local) = false /\
  Package.unpack Sample.E (SampleRuns.object Sample.local)
                 (SampleRuns.installed Sample.local)
  = (Ok tt, SampleRuns.installed Sample.local) /\
  flag (SampleRuns.object Sample.local) "configured"
       (SampleRuns.installed Sample.local) = true.
Proof.
  assert (Hu : field (SampleRuns.object Sample.local) "unpacked"
                     (SampleRuns.installed Sample.local) = Some (JBool false))
    by (vm_compute; reflexivity).
  assert (Hd : field (SampleRuns.object Sample.local) "download url"
                     (SampleRuns.installed Sample.local) = Some JNull)
    by (vm_compute; reflexivity).
  split; [vm_compute; reflexivity|]. split; [|vm_compute; reflexivity].
  exact (unpack_idle Sample.E _ _ _ _ Hu eq_refl Hd eq_refl).
Qed.



(* ================================================================== *)
(** * Facts: a flag is set only after exit status 0 *)

#[export] Hint Resolve checked_spawn checked_remove_directory
  checked_clean_package checked_package_clean checked_unpack
  checked_package_configure checked_package_build checked_package_install
  checked_with_prefix checked_with_optional checked_make_reset
  checked_make_clean checked_make_configure checked_make_build
  checked_os_symlink checked_link_versions checked_install_dynamic
  checked_bzip2_build checked_build checked_make_install checked_copy
  checked_libdeflate_install checked_rapidjson_install : checked.

Lemma flag_after_set self k key v s :
  flag self k (with_cache (jset (node_path self ++ [key]) v (cache s)) s)
  = if alive self s then (if k =? key then truthy v else flag self k s)
    else flag self k s.
Proof.
  unfold flag. rewrite field_after_set.
  destruct (alive self s), (k =? key); reflexivity.
Qed.

Section Unset.

Variable self : package.
Variable k : string.

Lemma unset_bind {A B} (m : M A) (f : A -> M B) :
  unset self k m -> (forall a, unset self k (f a)) -> unset self k (bind m f).
Proof.
  intros Hm Hf s Hs. unfold bind. specialize (Hm s Hs).
  destruct (m s) as [[a|e] s1]; simpl in *; [|exact Hm].
  apply Hf, Hm.
Qed.

Lemma unset_inert {A} (m : M A) :
  is_flag k = true -> inert self m -> unset self k m.
Proof.
  intros Hk Hi s Hs. destruct (Hi s) as (P & _).
  rewrite <- (get_flag_progress self k _ Hk), P, (get_flag_progress self k _ Hk).
  exact Hs.
Qed.

Lemma unset_node_set key v :
  (k =? key) = false \/ truthy v = false -> unset self k (node_set self key v).
Proof.
  intros H s Hs. rewrite node_set_run. simpl. rewrite flag_after_set.
  destruct (alive self s); [|exact Hs].
  destruct (k =? key) eqn:He; [|exact Hs].
  destruct H as [H|H]; [discriminate|exact H].
Qed.

Lemma unset_when b (m : M unit) : unset self k m -> unset self k (when b m).
Proof. destruct b; simpl; [auto|]. intros _ s Hs. exact Hs. Qed.

End Unset.

Create HintDb unset.

#[export] Hint Extern 1 (is_flag _ = true) => reflexivity : unset.
#[export] Hint Extern 1 ((_ =? _) = false) => reflexivity : unset.

Ltac unset_step :=
  match goal with
  | |- unset _ _ (bind _ _) => apply unset_bind; [|intros ?]
  | |- unset _ _ (when _ _) => apply unset_when
  | |- unset _ _ (node_set _ _ _) =>
      apply unset_node_set;
      first [left; reflexivity | right; reflexivity | left; assumption]
  | |- unset _ _ (if ?b then _ else _) => destruct b
  | |- unset _ _ (match ?x with _ => _ end) => destruct x
  | |- unset _ _ (let '(_, _) := ?x in _) => destruct x
  | |- unset _ _ _ =>
      first [ solve [eauto with unset]
            | apply unset_inert;
              [first [assumption|reflexivity]|solve [inert_tac]] ]
  end.

Ltac unset_tac := repeat unset_step.

Section UnsetMethods.

Variable E : oracle.
Variable self : package.
Variable k : string.
Hypothesis Hk : is_flag k = true.

Lemma unset_clean_package : unset self k (Package.clean_package E self).
Proof. unfold Package.clean_package. unset_tac. Qed.

Hint Resolve unset_clean_package : unset.

Section AfterUnpacked.

Hypothesis not_unpacked : (k =? "unpacked") = false.

Lemma unset_unpack : unset self k (Package.unpack E self).
Proof. unfold Package.unpack. unset_tac. Qed.

Hint Resolve unset_unpack : unset.

Section AfterConfigured.

Hypothesis not_configured : (k =? "configured") = false.

Lemma unset_package_configure : unset self k (Package.configure E self).
Proof. unfold Package.configure. unset_tac. Qed.

Lemma unset_make_configure : unset self k (Make.configure E self).
Proof. unfold Make.configure. unset_tac. Qed.

Hint Resolve unset_package_configure unset_make_configure : unset.

Section AfterBuilt.

Hypothesis not_built : (k =? "built") = false.

Lemma unset_package_build : unset self k (Package.build E self).
Proof. unfold Package.build. unset_tac. Qed.

Lemma unset_make_build : unset self k (Make.build E self).
Proof. unfold Make.build. unset_tac. Qed.

Hint Resolve unset_package_build unset_make_build : unset.

Lemma unset_bzip2_build : unset self k (BZip2.build E self).
Proof. unfold BZip2.build. unset_tac. Qed.

Lemma unset_build : unset self k (build E self).
Proof.
  unfold build. destruct (class self);
    auto using unset_package_build, unset_make_build, unset_bzip2_build.
Qed.

End AfterBuilt.

End AfterConfigured.

End AfterUnpacked.

End UnsetMethods.

Section Strict.

Variable self : package.
Variable k : string.

Lemma strict_unset {A} ok (m : M A) :
  checked ok m -> unset self k m -> strict self k m.
Proof.
  intros Hc Hu s Hs. destruct (Hc s) as (evs & Ht & _).
  exists evs. split; [exact Ht|]. intros _. apply Hu, Hs.
Qed.

Lemma strict_silent {A} (m : M A) :
  (forall s, trace (snd (m s)) = trace s) -> strict self k m.
Proof.
  intros H s _. exists []. rewrite app_nil_r. split; [apply H|discriminate].
Qed.

Lemma strict_bind {A B} (m : M A) (f : A -> M B) :
  checked always m -> unset self k m -> (forall a, strict self k (f a)) ->
  strict self k (bind m f).
Proof.
  intros Hc Hu Hf s Hs. unfold bind. destruct (Hc s) as (e1 & T1 & Z1).
  specialize (Hu s Hs).
  destruct (m s) as [[a|e] s1]; simpl in *.
  - destruct (Hf a s1 Hu) as (e2 & T2 & Z2). exists (e1 ++ e2)%list.
    split; [rewrite T2, T1, app_assoc; reflexivity|].
    rewrite forallb_app, (Z1 a eq_refl eq_refl). exact Z2.
  - exists e1. split; [exact T1|]. intros _. exact Hu.
Qed.

Lemma strict_bind_exit {B} (m : M (Z * string * string))
  (f : Z * string * string -> M B) :
  checked exit_zero m -> unset self k m ->
  (forall code o e, (code =? 0)%Z = true -> strict self k (f (code, o, e))) ->
  (forall code o e, (code =? 0)%Z = false ->
     unset self k (f (code, o, e)) /\ checked always (f (code, o, e))) ->
  strict self k (bind m f).
Proof.
  intros Hc Hu Hz Hn s Hs. unfold bind. destruct (Hc s) as (e1 & T1 & Z1).
  specialize (Hu s Hs).
  destruct (m s) as [[[[code o] e]|e] s1]; simpl in *.
  - destruct (code =? 0)%Z eqn:Hcode.
    + destruct (Hz code o e Hcode s1 Hu) as (e2 & T2 & Z2).
      exists (e1 ++ e2)%list.
      split; [rewrite T2, T1, app_assoc; reflexivity|].
      rewrite forallb_app, (Z1 _ eq_refl Hcode). exact Z2.
    + destruct (Hn code o e Hcode) as [U C].
      destruct (C s1) as (e2 & T2 & _). exists (e1 ++ e2)%list.
      split; [rewrite T2, T1, app_assoc; reflexivity|].
      intros _. apply U, Hu.
  - exists e1. split; [exact T1|]. intros _. exact Hu.
Qed.

(** The assignment of a flag, followed by what runs no child process. *)
Lemma strict_set key v (m : M unit) :
  quiet m -> strict self k (bind (node_set self key v) (fun _ => m)).
Proof.
  intros Hq s _. unfold bind. rewrite node_set_run.
  destruct (Hq (with_cache (jset (node_path self ++ [key]) v (cache s)) s))
    as (_ & _ & evs & Ht & Hn).
  exists evs. split; [exact Ht|].
  rewrite (no_command_zero_exit _ Hn). discriminate.
Qed.

Lemma strict_when b (m : M unit) : strict self k m -> strict self k (when b m).
Proof.
  destruct b; simpl; [auto|]. intros _. apply strict_silent. reflexivity.
Qed.

End Strict.

Create HintDb strict.

Ltac solve_checked := solve [auto with checked | checked_tac].
Ltac solve_unset := solve [unset_tac].

Ltac strict_exit :=
  apply strict_bind_exit;
  [solve_checked
  |solve_unset
  |intros ? ? ? ?; cbv beta iota
  |intros ? ? ? ?; cbv beta iota;
   match goal with
   | H : (?c =? 0)%Z = _ |- _ => rewrite H
   end;
   split; [solve_unset|apply checked_quiet; solve [auto with quiet | quiet_tac]]].

Ltac strict_step :=
  match goal with
  | H : (?c =? 0)%Z = _ |- context [(?c =? 0)%Z] => rewrite H; cbn [negb]
  | |- strict _ _ (let '(_, _) := ?x in _) => destruct x
  | |- strict _ _ (bind (communicate _ _ _) _) => strict_exit
  | |- strict _ _ (bind (Make.spawn _ _ _) _) => strict_exit
  | |- strict _ _ (bind (node_set _ _ _) (fun _ => Package.write_streams _ _ _)) =>
      apply strict_set, quiet_write_streams
  | |- strict _ _ (node_set _ _ _) => apply strict_silent; intros ?; reflexivity
  | |- strict _ _ (ret _) => apply strict_silent; intros ?; reflexivity
  | |- strict _ _ (bind _ _) =>
      first [ apply strict_bind; [solve_checked|solve_unset|intros ?]
            | solve [eauto with strict] ]
  | |- strict _ _ (when _ _) => apply strict_when
  | |- strict _ _ (if ?b then _ else _) => destruct b
  | |- strict _ _ (match ?x with _ => _ end) => destruct x
  | |- strict _ _ _ =>
      first [ solve [eauto with strict]
            | apply (strict_unset _ _ always); [solve_checked|solve_unset] ]
  end.

Ltac strict_tac := repeat strict_step.

Section StrictMethods.

Variable E : oracle.
Variable self : package.

Hint Resolve unset_clean_package unset_unpack unset_package_configure
  unset_make_configure unset_package_build unset_make_build unset_bzip2_build
  unset_build : unset.

Lemma strict_unpack : strict self "unpacked" (Package.unpack E self).
Proof. unfold Package.unpack. strict_tac. Qed.

Lemma strict_package_configure : strict self "configured" (Package.configure E self).
Proof. unfold Package.configure. strict_tac. Qed.

Lemma strict_make_configure : strict self "configured" (Make.configure E self).
Proof. unfold Make.configure. strict_tac. Qed.

Lemma strict_package_build : strict self "built" (Package.build E self).
Proof. unfold Package.build. strict_tac. Qed.

Lemma strict_make_build : strict self "built" (Make.build E self).
Proof. unfold Make.build. strict_tac. Qed.

Hint Resolve strict_make_build : strict.

Lemma strict_bzip2_build : strict self "built" (BZip2.build E self).
Proof. unfold BZip2.build. strict_tac. Qed.

Lemma strict_build : strict self "built" (build E self).
Proof.
  unfold build. destruct (class self);
    auto using strict_package_build, strict_make_build, strict_bzip2_build.
Qed.

Lemma strict_package_install : strict self "installed" (Package.install E self).
Proof. unfold Package.install. strict_tac. Qed.

Lemma strict_make_install : strict self "installed" (Make.install E (build E) self).
Proof. unfold Make.install. strict_tac. Qed.

Lemma strict_libdeflate_install : strict self "installed" (LibDeflate.install E self).
Proof. unfold LibDeflate.install. strict_tac. Qed.

Lemma strict_rapidjson_install : strict self "installed" (RapidJSON.install E self).
Proof. unfold RapidJSON.install. strict_tac. Qed.

Lemma strict_call m k : stage_key m = Some k -> strict self k (call E m self).
Proof.
  intros H. destruct m; inversion H; subst k; simpl.
  - apply strict_unpack.
  - unfold configure. destruct (class self);
      auto using strict_package_configure, strict_make_configure.
  - apply strict_build.
  - unfold install. destruct (class self);
      auto using strict_package_install, strict_make_install,
        strict_libdeflate_install, strict_rapidjson_install.
Qed.

End StrictMethods.
(* ================================================================== *)
(** * Facts: the child process of a stage *)

Lemma env_run E self s :
  alive self s = true ->
  exists e s1,
    Package.env E self s = (Ok e, s1) /\ alive self s1 = true /\
    fs s1 = fs s /\ trace s1 = trace s /\
    (forall k, (k =? "env") = false -> field self k s1 = field self k s).
Proof.
  intros Ha. unfold Package.env, bind, node_has.
  destruct (node_set_fields self "env" (JObj (environ E)) s Ha)
    as (s1 & R1 & A1 & F1 & T1 & K1).
  assert (G : field self "env" s1 = Some (JObj (environ E))).
  { rewrite K1. reflexivity. }
  assert (K : forall k, (k =? "env") = false -> field self k s1 = field self k s).
  { intros k Hk. rewrite K1, Hk. reflexivity. }
  destruct (field self "env" s) as [e|] eqn:He.
  - rewrite (node_get_run _ _ _ _ He). unfold when.
    destruct (is_None e).
    + rewrite R1, (node_get_run _ _ _ _ G). eauto 10.
    + unfold ret. rewrite (node_get_run _ _ _ _ He). eauto 10.
  - rewrite R1, (node_get_run _ _ _ _ G). eauto 10.
Qed.

Lemma with_prefix_run self command ip s :
  field self "include prefix in make" s = Some ip ->
  Make.with_prefix self command s = (Ok (prefixed self command ip), s).
Proof.
  intros H. unfold Make.with_prefix, bind, prefixed.
  rewrite (node_get_run _ _ _ _ H). destruct (truthy ip); reflexivity.
Qed.

Lemma with_optional_run self key command opt s :
  field self key s = Some opt ->
  Make.with_optional self key command s = (extended command opt, s).
Proof.
  intros H. unfold Make.with_optional, bind, extended.
  rewrite (node_get_run _ _ _ _ H). destruct (truthy opt); [|reflexivity].
  unfold lift. destruct (iterate opt); reflexivity.
Qed.

Lemma extended_head x l opt command :
  extended (x :: l) opt = Ok command -> exists l', command = x :: l'.
Proof.
  unfold extended. destruct (truthy opt).
  - destruct (iterate opt) as [more|e]; simpl; intros H; inversion H. eauto.
  - intros H. inversion H. eauto.
Qed.

Lemma prefixed_head self x l ip :
  exists l', prefixed self (x :: l) ip = x :: l'.
Proof. unfold prefixed. destruct (truthy ip); simpl; eauto. Qed.

Lemma strs_head x l args :
  strs (x :: l) = Ok args -> exists a t, args = a :: t.
Proof.
  simpl. destruct (strs l) as [t|e]; simpl; [|discriminate].
  destruct (as_str x) as [a|e]; simpl; [|discriminate].
  intros H. inversion H. eauto.
Qed.

Lemma communicate_run E a l cwd s code output error f' :
  popen E (List.length (trace s)) (a :: l) cwd (fs s)
  = (Ok (code, output, error), f') ->
  communicate E (a :: l) cwd s
  = (Ok (code, output, error),
     {| fs := f'; trace := (trace s ++ [Popen (a :: l) cwd code])%list;
        ontology := ontology s; cache := cache s |}).
Proof.
  intros H. unfold communicate, bind, clock, get_state, set_fs. rewrite H.
  reflexivity.
Qed.

Lemma field_same_cache self k s s' : cache s' = cache s -> field self k s' = field self k s.
Proof. intros H. unfold field. rewrite H. reflexivity. Qed.

(** [Make.spawn] with a command of strings, where the surroundings answer. *)
Lemma spawn_run E self command a l p s code output error f' :
  field self "package url" s = Some (JStr p) ->
  strs command = Ok (a :: l) ->
  popen E (S (List.length (trace s))) (a :: l) (Some p) (fs s)
  = (Ok (code, output, error), f') ->
  exists s',
    Make.spawn E self command s = (Ok (code, output, error), s') /\
    trace s' = (trace s ++ [Log "debug" (Py.join " " (map py_str command));
                            Popen (a :: l) (Some p) code])%list /\
    alive self s' = true /\
    (forall k, (k =? "env") = false -> field self k s' = field self k s).
Proof.
  intros Hp Hs Ho. unfold Make.spawn.
  rewrite (bind_ok _ _ _ _ _ (log_run _ _ s)).
  set (s0 := with_events [Log "debug" (Py.join " " (map py_str command))] s).
  assert (A0 : alive self s0 = true) by exact (field_alive _ _ _ _ Hp).
  destruct (env_run E self s0 A0) as (e & s1 & He & A1 & F1 & T1 & K1).
  rewrite (bind_ok _ _ _ _ _ He).
  assert (Hp1 : Package.path_of self "package url" s1 = (Ok p, s1)).
  { unfold Package.path_of, bind.
    assert (H1 : field self "package url" s1 = Some (JStr p))
      by (rewrite K1; [exact Hp|reflexivity]).
    rewrite (node_get_run _ _ _ _ H1). reflexivity. }
  rewrite (bind_ok _ _ _ _ _ Hp1).
  unfold bind at 1. unfold lift. rewrite Hs.
  assert (Ho1 : popen E (List.length (trace s1)) (a :: l) (Some p) (fs s1)
                = (Ok (code, output, error), f')).
  { rewrite T1, F1. unfold s0. simpl. rewrite length_app. simpl.
    rewrite Nat.add_1_r. exact Ho. }
  rewrite (communicate_run _ _ _ _ _ _ _ _ _ Ho1).
  eexists. split; [reflexivity|]. simpl. split; [|split].
  - rewrite T1. unfold s0. simpl. rewrite <- app_assoc. reflexivity.
  - exact A1.
  - exact K1.
Qed.

(** What follows the child process of a stage: the flag, or the failure. *)
Lemma settle_run E self key code output error (fail : M unit) s :
  alive self s = true ->
  quiet fail ->
  (forall s0, is_ok (fst (fail s0)) = false) ->
  exists evs,
    trace (snd ((if (code =? 0)%Z
                 then bind (node_set self key (JBool true))
                        (fun _ => Package.write_streams E output error)
                 else fail) s))
    = (trace s ++ evs)%list /\
    Forall no_command evs /\
    (code = 0%Z ->
     field self key
       (snd ((if (code =? 0)%Z
              then bind (node_set self key (JBool true))
                     (fun _ => Package.write_streams E output error)
              else fail) s)) = Some (JBool true)) /\
    (code <> 0%Z ->
     is_ok (fst ((if (code =? 0)%Z
                  then bind (node_set self key (JBool true))
                         (fun _ => Package.write_streams E output error)
                  else fail) s)) = false /\
     forall k,
       field self k
         (snd ((if (code =? 0)%Z
                then bind (node_set self key (JBool true))
                       (fun _ => Package.write_streams E output error)
                else fail) s)) = field self k s).
Proof.
  intros Ha Hq Hf. destruct (code =? 0)%Z eqn:Hc.
  - apply Z.eqb_eq in Hc.
    destruct (node_set_fields self key (JBool true) s Ha)
      as (s1 & R1 & A1 & F1 & T1 & K1).
    rewrite (bind_ok _ _ _ _ _ R1).
    destruct (quiet_write_streams E output error s1) as (C & _ & evs & Ht & Hn).
    exists evs. split; [rewrite Ht, T1; reflexivity|]. split; [exact Hn|]. split.
    + intros _. rewrite (field_same_cache _ _ _ _ C), K1, String.eqb_refl.
      reflexivity.
    + intros H. contradiction.
  - apply Z.eqb_neq in Hc.
    destruct (Hq s) as (C & _ & evs & Ht & Hn).
    exists evs. split; [exact Ht|]. split; [exact Hn|]. split.
    + intros H. contradiction.
    + intros _. split; [apply Hf|]. intros k. apply field_same_cache, C.
Qed.

Lemma ran_later self key s e before args cwd code r :
  ran self key (with_events [e] s) before args cwd code r ->
  ran self key s (e :: before) args cwd code r.
Proof.
  intros (evs & Ht & Hn & H0 & H1). exists evs. split.
  - rewrite Ht. simpl. rewrite <- app_assoc. reflexivity.
  - split; [exact Hn|]. split; [exact H0|exact H1].
Qed.

(** A child process of [Make], then the flag or the failure. *)
Lemma make_step_run E self key message command args p s code output error f' :
  (key =? "env") = false ->
  field self "package url" s = Some (JStr p) ->
  (exists x c, command = x :: c) ->
  strs command = Ok args ->
  popen E (S (List.length (trace s))) args (Some p) (fs s)
  = (Ok (code, output, error), f') ->
  ran self key s [Log "debug" (Py.join " " (map py_str command))] args p code
    (bind (Make.spawn E self command)
       (fun r =>
          let '(code, output, error) := r in
          if (code =? 0)%Z then
            bind (node_set self key (JBool true))
                 (fun _ => Package.write_streams E output error)
          else Make.failed code output error message) s).
Proof.
  intros Hk Hp (x & c & Hx) Hs Ho. subst command.
  destruct (strs_head _ _ _ Hs) as (a & l & Ha). subst args.
  destruct (spawn_run E self _ a l p s code output error f' Hp Hs Ho)
    as (s' & R & T & A & K).
  rewrite (bind_ok _ _ _ _ _ R). cbv beta iota.
  destruct (settle_run E self key code output error
              (Make.failed code output error message) s' A
              (quiet_failed _ _ _ _)
              (failed_raises code output error message))
    as (evs & Ht & Hn & H0 & H1).
  exists evs. split; [|split; [exact Hn|split; [exact H0|]]].
  - rewrite Ht, T. rewrite <- app_assoc. reflexivity.
  - intros Hc. destruct (H1 Hc) as [Hr Hf]. split; [exact Hr|].
    rewrite Hf. apply K, Hk.
Qed.

Lemma make_configure_noop E self s :
  flag self "configured" s = true -> Make.configure E self s = (Ok tt, s).
Proof.
  intros Hf. destruct (flag_true_field _ _ _ Hf) as (v & Hv & Ht).
  unfold Make.configure, bind. rewrite (node_get_run _ _ _ _ Hv), Ht.
  reflexivity.
Qed.

Lemma clock_two s e :
  S (List.length (trace (with_events [e] s))) = 2 + List.length (trace s).
Proof. simpl. rewrite length_app. simpl. lia. Qed.

(** [Make.configure] on sources that are unpacked and have a [configure]
    script runs the script. *)
Lemma make_configure_ran E self s c0 p dn opt command args code output error f' :
  field self "configured" s = Some c0 -> truthy c0 = false ->
  flag self "unpacked" s = true ->
  field self "package url" s = Some (JStr p) ->
  os.present (fs s) (os_path.join p "configure") = true ->
  field self "display name" s = Some dn ->
  field self "configure optional" s = Some opt ->
  extended [JStr "./configure";
            JStr (Py.format "--prefix={}" [install_prefix (the_pipeline self)])]
           opt = Ok command ->
  strs command = Ok args ->
  popen E (2 + List.length (trace s)) args (Some p) (fs s)
  = (Ok (code, output, error), f') ->
  ran self "configured" s
    [Log "info" ("configuring make environment " ++ py_str dn);
     Log "debug" (Py.join " " (map py_str command))]
    args p code (Make.configure E self s).
Proof.
  intros Hc Ht Hu Hp Hx Hn Hopt Hcmd Hs Ho.
  unfold Make.configure.
  rewrite (bind_ok _ _ _ _ _ (node_get_run _ _ _ _ Hc)), Ht. cbn [negb].
  rewrite (bind_ok _ _ _ _ _ (node_get_run _ _ _ _ Hp)). cbn [is_None negb].
  pose proof (stage_noop E self Unpack "unpacked" s eq_refl Hu) as Hnoop.
  cbn [call] in Hnoop. unfold unpack in Hnoop.
  rewrite (bind_ok _ _ _ _ _ Hnoop).
  assert (Hpath : Package.path_of self "package url" s = (Ok p, s)).
  { unfold Package.path_of, bind. rewrite (node_get_run _ _ _ _ Hp). reflexivity. }
  rewrite (bind_ok _ _ _ _ _ Hpath).
  unfold bind at 1. unfold os.exists_. rewrite Hx.
  rewrite (bind_ok _ _ _ _ _ (node_get_run _ _ _ _ Hn)).
  rewrite (bind_ok _ _ _ _ _ (log_run _ _ s)).
  apply ran_later.
  set (s0 := with_events [Log "info" ("configuring make environment " ++ py_str dn)] s).
  rewrite (bind_ok _ _ _ _ _
             (eq_trans (with_optional_run self "configure optional" _ opt s0 Hopt)
                       (f_equal (fun r => (r, s0)) Hcmd))).
  apply make_step_run with (output := output) (error := error) (f' := f');
    try reflexivity; try assumption.
  - destruct (extended_head _ _ _ _ Hcmd) as (l' & Hl). eauto.
  - unfold s0. rewrite clock_two. exact Ho.
Qed.

(** [Make.build] on sources that are configured runs [make]. *)
Lemma make_build_ran E self s b p dn t ip opt command args code output error f' :
  field self "built" s = Some b -> truthy b = false ->
  flag self "configured" s = true ->
  field self "package url" s = Some (JStr p) ->
  field self "display name" s = Some dn ->
  field self "make build target" s = Some t ->
  field self "include prefix in make" s = Some ip ->
  field self "make build optional" s = Some opt ->
  extended (prefixed self (if truthy t then [JStr "make"; t] else [JStr "make"]) ip)
           opt = Ok command ->
  strs command = Ok args ->
  popen E (2 + List.length (trace s)) args (Some p) (fs s)
  = (Ok (code, output, error), f') ->
  ran self "built" s
    [Log "info" ("building with make " ++ py_str dn);
     Log "debug" (Py.join " " (map py_str command))]
    args p code (Make.build E self s).
Proof.
  intros Hb Ht Hc Hp Hn Htg Hip Hopt Hcmd Hs Ho.
  unfold Make.build.
  rewrite (bind_ok _ _ _ _ _ (node_get_run _ _ _ _ Hb)), Ht. cbn [negb].
  rewrite (bind_ok _ _ _ _ _ (make_configure_noop E self s Hc)).
  rewrite (bind_ok _ _ _ _ _ (node_get_run _ _ _ _ Hp)). cbn [is_None negb].
  rewrite (bind_ok _ _ _ _ _ (node_get_run _ _ _ _ Hn)).
  rewrite (bind_ok _ _ _ _ _ (log_run _ _ s)).
  apply ran_later.
  set (s0 := with_events [Log "info" ("building with make " ++ py_str dn)] s).
  rewrite (bind_ok _ _ _ _ _ (node_get_run self "make build target" s0 t Htg)).
  rewrite (bind_ok _ _ _ _ _ (with_prefix_run self _ ip s0 Hip)).
  rewrite (bind_ok _ _ _ _ _
             (eq_trans (with_optional_run self "make build optional" _ opt s0 Hopt)
                       (f_equal (fun r => (r, s0)) Hcmd))).
  apply make_step_run with (output := output) (error := error) (f' := f');
    try reflexivity; try assumption.
  - destruct (truthy t);
      [destruct (prefixed_head self (JStr "make") [t] ip) as (l' & Hl)
      |destruct (prefixed_head self (JStr "make") [] ip) as (l' & Hl)];
      rewrite Hl in Hcmd; destruct (extended_head _ _ _ _ Hcmd) as (l2 & H2);
      eauto.
  - unfold s0. rewrite clock_two. exact Ho.
Qed.

(** [Make.install] on sources that are built runs [make] with the install
    target. *)
Lemma make_install_ran E self s i p dn t ip opt command args code output error f' :
  field self "installed" s = Some i -> truthy i = false ->
  flag self "built" s = true ->
  field self "package url" s = Some (JStr p) ->
  field self "display name" s = Some dn ->
  field self "make install target" s = Some t ->
  field self "include prefix in make" s = Some ip ->
  field self "make build optional" s = Some opt ->
  extended (prefixed self [JStr "make"; t] ip) opt = Ok command ->
  strs command = Ok args ->
  popen E (2 + List.length (trace s)) args (Some p) (fs s)
  = (Ok (code, output, error), f') ->
  ran self "installed" s
    [Log "info" ("installing with make " ++ py_str dn);
     Log "debug" (Py.join " " (map py_str command))]
    args p code (Make.install E (build E) self s).
Proof.
  intros Hi Ht Hb Hp Hn Htg Hip Hopt Hcmd Hs Ho.
  unfold Make.install.
  rewrite (bind_ok _ _ _ _ _ (node_get_run _ _ _ _ Hi)), Ht. cbn [negb].
  pose proof (stage_noop E self Build "built" s eq_refl Hb) as Hnoop.
  cbn [call] in Hnoop.
  rewrite (bind_ok _ _ _ _ _ Hnoop).
  rewrite (bind_ok _ _ _ _ _ (node_get_run _ _ _ _ Hp)). cbn [is_None negb].
  rewrite (bind_ok _ _ _ _ _ (node_get_run _ _ _ _ Hn)).
  rewrite (bind_ok _ _ _ _ _ (log_run _ _ s)).
  apply ran_later.
  set (s0 := with_events [Log "info" ("installing with make " ++ py_str dn)] s).
  rewrite (bind_ok _ _ _ _ _ (node_get_run self "make install target" s0 t Htg)).
  rewrite (bind_ok _ _ _ _ _ (with_prefix_run self _ ip s0 Hip)).
  rewrite (bind_ok _ _ _ _ _
             (eq_trans (with_optional_run self "make build optional" _ opt s0 Hopt)
                       (f_equal (fun r => (r, s0)) Hcmd))).
  apply make_step_run with (output := output) (error := error) (f' := f');
    try reflexivity; try assumption.
  - destruct (prefixed_head self (JStr "make") [t] ip) as (l' & Hl).
    rewrite Hl in Hcmd. destruct (extended_head _ _ _ _ Hcmd) as (l2 & H2).
    eauto.
  - unfold s0. rewrite clock_two. exact Ho.
Qed.

Lemma extract_command_run self c d s :
  field self "download url" s = Some (JStr d) ->
  (if eq_str c "gz" || eq_str c "bz2" then
     bind (Package.path_of self "download url")
       (fun d => ret (["tar"; "-x"]
                        ++ (if eq_str c "gz" then ["-z"]
                            else if eq_str c "bz2" then ["-j"] else [])
                        ++ ["-f"; d])%list)
   else if eq_str c "zip" then
     bind (Package.path_of self "download url")
       (fun d => ret ["unzip"; "-x"; d])
   else ret []) s
  = (Ok (extract_command c d), s).
Proof.
  intros Hd.
  assert (Hp : Package.path_of self "download url" s = (Ok d, s)).
  { unfold Package.path_of, bind. rewrite (node_get_run _ _ _ _ Hd). reflexivity. }
  unfold extract_command.
  destruct (eq_str c "gz") eqn:G1; cbn [orb].
  { rewrite (bind_ok _ _ _ _ _ Hp). reflexivity. }
  destruct (eq_str c "bz2") eqn:G2.
  { rewrite (bind_ok _ _ _ _ _ Hp). reflexivity. }
  destruct (eq_str c "zip") eqn:G3.
  { rewrite (bind_ok _ _ _ _ _ Hp). reflexivity. }
  reflexivity.
Qed.

(** The extraction of [unpack] runs the command of the compression. *)
Lemma extract_ran E self s dn c d code output error f' :
  field self "display name" s = Some dn ->
  field self "compression" s = Some c ->
  field self "download url" s = Some (JStr d) ->
  extract_command c d <> [] ->
  popen E (S (List.length (trace s))) (extract_command c d)
        (Some (package_prefix (the_pipeline self))) (fs s)
  = (Ok (code, output, error), f') ->
  ran self "unpacked" s [Log "info" ("unpacking " ++ py_str dn)]
    (extract_command c d) (package_prefix (the_pipeline self)) code
    (extract E self s).
Proof.
  intros Hn Hc Hd Hne Ho. unfold extract.
  rewrite (bind_ok _ _ _ _ _ (node_get_run _ _ _ _ Hn)).
  rewrite (bind_ok _ _ _ _ _ (log_run _ _ s)).
  set (s0 := with_events [Log "info" ("unpacking " ++ py_str dn)] s).
  rewrite (bind_ok _ _ _ _ _ (node_get_run self "compression" s0 c Hc)).
  rewrite (bind_ok _ _ _ _ _ (extract_command_run self c d s0 Hd)).
  assert (A0 : alive self s0 = true) by exact (field_alive _ _ _ _ Hn).
  destruct (env_run E self s0 A0) as (e & s1 & He & A1 & F1 & T1 & K1).
  rewrite (bind_ok _ _ _ _ _ He).
  destruct (extract_command c d) as [|a l] eqn:Hcmd; [contradiction|].
  assert (Ho1 : popen E (List.length (trace s1)) (a :: l)
                  (Some (package_prefix (the_pipeline self))) (fs s1)
                = (Ok (code, output, error), f')).
  { rewrite T1, F1. unfold s0. simpl. rewrite length_app. simpl.
    rewrite Nat.add_1_r. exact Ho. }
  rewrite (bind_ok _ _ _ _ _ (communicate_run _ _ _ _ _ _ _ _ _ Ho1)).
  cbv beta iota.
  match goal with
  | |- ran _ _ _ _ _ _ _ (_ ?s2) =>
      assert (A2 : alive self s2 = true) by exact A1;
      destruct (settle_run E self "unpacked" code output error
                  (bind (Package.print_failure code output error)
                     (fun _ => raise (CommandFailedError
                                        (Py.format "tar returned {}" [str_Z code]))))
                  s2 A2) as (evs & Ht & Hq & H0 & H1)
  end.
  - quiet_tac.
  - intros s3. exact (failed_raises code output error "tar returned {}" s3).
  - exists evs. split; [|split; [exact Hq|split; [exact H0|]]].
    + rewrite Ht. simpl. rewrite T1. unfold s0. simpl.
      rewrite <- !app_assoc. reflexivity.
    + intros Hcode. destruct (H1 Hcode) as [Hr Hf]. split; [exact Hr|].
      rewrite Hf. change (field self "unpacked" s1 = field self "unpacked" s).
      rewrite K1; reflexivity.
Qed.

(** [unpack] on a record whose flag is unset, once [clean_package] and
    [download] have returned, runs the command of the compression. *)
Lemma unpack_ran E self s s1 u dn c d code output error f' :
  field self "unpacked" s = Some u -> truthy u = false ->
  field self "display name" s = Some dn ->
  field self "compression" s = Some c ->
  field self "download url" s = Some (JStr d) ->
  bind (Package.clean_package E self) (fun _ => Package.download E self) s
  = (Ok tt, s1) ->
  extract_command c d <> [] ->
  popen E (S (List.length (trace s1))) (extract_command c d)
        (Some (package_prefix (the_pipeline self))) (fs s1)
  = (Ok (code, output, error), f') ->
  ran self "unpacked" s1 [Log "info" ("unpacking " ++ py_str dn)]
    (extract_command c d) (package_prefix (the_pipeline self)) code
    (Package.unpack E self s).
Proof.
  intros Hu Ht Hn Hc Hd Hrun Hne Ho.
  rewrite (unpack_run E self s u (JStr d) Hu Ht Hd eq_refl).
  pose proof (call_same_descriptor E self CleanPackage s) as S1.
  cbn [call] in S1. unfold clean_package in S1.
  unfold bind in Hrun |- *.
  destruct (Package.clean_package E self s) as [[[]|e] s0]; [|discriminate].
  simpl in S1.
  pose proof (respects_download E self _ _ (steady_same_descriptor self) s0)
    as S2.
  rewrite Hrun in S2 |- *. simpl in S2.
  apply (extract_ran E self s1 dn c d code output error f'); try assumption.
  - rewrite (S2 "display name" eq_refl), (S1 "display name" eq_refl). exact Hn.
  - rewrite (S2 "compression" eq_refl), (S1 "compression" eq_refl). exact Hc.
  - rewrite (S2 "download url" eq_refl), (S1 "download url" eq_refl). exact Hd.
Qed.

(** C2: every stage method ([unpack], [configure], [build], [install]) of a
    package in a reachable state is a no-op when its flag is set: it returns
    and the state is the same.  Otherwise, when it returns, every child
    process it ran had exit status 0 and, for a descriptor with a download
    url and a package url, the flags of the stages up to its own are set;
    when a child process had a non-zero exit status, the method raises and
    its flag is unset.  (A method can raise with its flag set: the flag is
    assigned before the output of the command is decoded and written.)

    The stages run their commands.  [unpack], with its flag unset, once
    [clean_package] and [download] have returned, runs the command of the
    compression in the package prefix.  [Make.configure], on sources that
    are unpacked and have a [configure] script, runs the script;
    [Make.build], on sources that are configured, runs [make];
    [Make.install], on sources that are built, runs [make] with the install
    target.  Each time the exit status is the one the surroundings give,
    no other child process follows, the flag is [True] after exit status 0,
    and after any other status the method raises and the flag is as it was.

    In one process, a [build] action after a [build] action that returned
    runs no child process: it returns, and the state only has log events
    more. *)
Theorem stage_methods_idempotent E self s m k :
  reachable E self s ->
  stage_key m = Some k ->
  (flag self k s = true -> call E m self s = (Ok tt, s)) /\
  (exists evs,
     trace (snd (call E m self s)) = (trace s ++ evs)%list /\
     (is_ok (fst (call E m self s)) = true ->
      forallb zero_exit evs = true /\
      (given self "download url" s = true ->
       given self "package url" s = true ->
       upto m (progress_of self (snd (call E m self s))) = true)) /\
     (forallb zero_exit evs = false ->
      is_ok (fst (call E m self s)) = false /\
      flag self k (snd (call E m self s)) = false)) /\
  (forall s1 u dn c d code output error f',
     field self "unpacked" s = Some u -> truthy u = false ->
     field self "display name" s = Some dn ->
     field self "compression" s = Some c ->
     field self "download url" s = Some (JStr d) ->
     bind (Package.clean_package E self) (fun _ => Package.download E self) s
     = (Ok tt, s1) ->
     extract_command c d <> [] ->
     popen E (S (List.length (trace s1))) (extract_command c d)
           (Some (package_prefix (the_pipeline self))) (fs s1)
     = (Ok (code, output, error), f') ->
     ran self "unpacked" s1 [Log "info" ("unpacking " ++ py_str dn)]
       (extract_command c d) (package_prefix (the_pipeline self)) code
       (Package.unpack E self s)) /\
  (forall c0 p dn opt command args code output error f',
     field self "configured" s = Some c0 -> truthy c0 = false ->
     flag self "unpacked" s = true ->
     field self "package url" s = Some (JStr p) ->
     os.present (fs s) (os_path.join p "configure") = true ->
     field self "display name" s = Some dn ->
     field self "configure optional" s = Some opt ->
     extended [JStr "./configure";
               JStr (Py.format "--prefix={}" [install_prefix (the_pipeline self)])]
              opt = Ok command ->
     strs command = Ok args ->
     popen E (2 + List.length (trace s)) args (Some p) (fs s)
     = (Ok (code, output, error), f') ->
     ran self "configured" s
       [Log "info" ("configuring make environment " ++ py_str dn);
        Log "debug" (Py.join " " (map py_str command))]
       args p code (Make.configure E self s)) /\
  (forall b p dn t ip opt command args code output error f',
     field self "built" s = Some b -> truthy b = false ->
     flag self "configured" s = true ->
     field self "package url" s = Some (JStr p) ->
     field self "display name" s = Some dn ->
     field self "make build target" s = Some t ->
     field self "include prefix in make" s = Some ip ->
     field self "make build optional" s = Some opt ->
     extended (prefixed self
                 (if truthy t then [JStr "make"; t] else [JStr "make"]) ip)
              opt = Ok command ->
     strs command = Ok args ->
     popen E (2 + List.length (trace s)) args (Some p) (fs s)
     = (Ok (code, output, error), f') ->
     ran self "built" s
       [Log "info" ("building with make " ++ py_str dn);
        Log "debug" (Py.join " " (map py_str command))]
       args p code (Make.build E self s)) /\
  (forall i p dn t ip opt command args code output error f',
     field self "installed" s = Some i -> truthy i = false ->
     flag self "built" s = true ->
     field self "package url" s = Some (JStr p) ->
     field self "display name" s = Some dn ->
     field self "make install target" s = Some t ->
     field self "include prefix in make" s = Some ip ->
     field self "make build optional" s = Some opt ->
     extended (prefixed self [JStr "make"; t] ip) opt = Ok command ->
     strs command = Ok args ->
     popen E (2 + List.length (trace s)) args (Some p) (fs s)
     = (Ok (code, output, error), f') ->
     ran self "installed" s
       [Log "info" ("installing with make " ++ py_str dn);
        Log "debug" (Py.join " " (map py_str command))]
       args p code (Make.install E (build E) self s)) /\
  (forall s1,
     PackageManager.perform E (JStr "build") self s = (Ok tt, s1) ->
     exists evs,
       PackageManager.perform E (JStr "build") self s1
       = (Ok tt, with_events evs s1) /\
       forallb is_log evs = true).
Proof.
  intros Hr Hk. split; [apply stage_noop; exact Hk|].
  split; [|split; [|split; [|split; [|split]]]].
  - destruct (reachable_invariant _ _ _ Hr) as (Ha & Hinv & _).
    destruct (checked_call E self m s) as (evs & Ht & Hz).
    pose proof (stage_noop E self m k s Hk) as Hnoop.
    pose proof (strict_call E self m k Hk s) as Hstrict.
    destruct (call E m self s) as [r s'] eqn:Hc. simpl in *.
    destruct (call_follows E self m s r s' Ha Hc) as (Hin & _).
    pose proof (stage_outcomes m (class self) (on_linux self) _ _ _ Hinv) as Hs.
    rewrite forallb_forall in Hs. specialize (Hs _ Hin).
    unfold stage_outcome in Hs. rewrite Hk in Hs. simpl in Hs.
    exists evs. split; [exact Ht|]. split.
    + intros Hq. split.
      * destruct r as [[]|e]; [|discriminate]. apply (Hz tt eq_refl eq_refl).
      * intros Hd Hp. rewrite Hq, Hd, Hp in Hs. exact Hs.
    + intros Hn. split.
      * destruct r as [[]|e]; [|reflexivity].
        rewrite (Hz tt eq_refl eq_refl) in Hn. discriminate.
      * destruct (flag self k s) eqn:Hf.
        { specialize (Hnoop eq_refl). inversion Hnoop. subst s'.
          rewrite <- (app_nil_r (trace s)) in Ht at 1.
          apply app_inv_head in Ht. subst evs. discriminate. }
        { destruct (Hstrict eq_refl) as (evs' & Ht' & Hu).
          rewrite Ht in Ht'. apply app_inv_head in Ht'. subst evs'.
          exact (Hu Hn). }
  - intros s1 u dn c d code output error f'. apply unpack_ran.
  - intros c0 p dn opt command args code output error f'.
    apply make_configure_ran.
  - intros b p dn t ip opt command args code output error f'.
    apply make_build_ran.
  - intros i p dn t ip opt command args code output error f'.
    apply make_install_ran.
  - intros s1. apply second_build, Hr.
Qed.

Lemma stage_methods_idempotent_witness :
  reachable Sample.E (SampleRuns.object Sample.archive)
            (SampleRuns.created Sample.archive) /\
  (exists evs,
     trace (SampleRuns.installed Sample.archive)
     = (trace (SampleRuns.created Sample.archive) ++ evs)%list /\
     forallb zero_exit evs = true).
Proof.
  assert (H : reachable Sample.E (SampleRuns.object Sample.archive)
                        (SampleRuns.created Sample.archive)).
  { apply reach_fresh. split; repeat constructor; vm_compute; congruence. }
  split; [exact H|].
  destruct (stage_methods_idempotent Sample.E (SampleRuns.object Sample.archive)
              (SampleRuns.created Sample.archive) Install "installed" H eq_refl)
    as (_ & (evs & Ht & Hok & _) & _).
  exists evs. split; [exact Ht|]. apply Hok. vm_compute. reflexivity.
Defined.

(** C2, as stated, fails for a second invocation: the record of the flags
    is kept in memory and never written (C1), so a second process on the
    files the first has left starts with every flag unset.  It removes the
    sources, extracts them again and runs [make] and [make install] again,
    the three commands of the first process and an [rm -rf] before them. *)
Lemma second_run_repeats :
  fst SampleMain.ran = Ok 0%Z /\
  commands (trace (snd SampleMain.ran))
  = [ ["tar"; "-x"; "-z"; "-f"; "/w/download/x-1.0.tar.gz"];
      ["make"];
      ["make"; "install"] ] /\
  fst SampleRerun.again = Ok 0%Z /\
  commands SampleRerun.events
  = [ ["rm"; "-rf"; "/w/package/x-1.0"];
      ["tar"; "-x"; "-z"; "-f"; "/w/download/x-1.0.tar.gz"];
      ["make"];
      ["make"; "install"] ].
Proof. vm_compute. repeat split; reflexivity. Qed.
(* ================================================================== *)
(** * Facts: dictionaries up to the order of their fields *)

Lemma lookup_set k k' v d :
  Dict.lookup k' (Dict.set k v d) = if k' =? k then Some v else Dict.lookup k' d.
Proof.
  destruct (k' =? k) eqn:H.
  - apply String.eqb_eq in H. subst. apply lookup_set_same.
  - apply String.eqb_neq in H. apply lookup_set_other. exact H.
Qed.

Lemma lookup_in k v d : Dict.lookup k d = Some v -> In (k, v) d.
Proof.
  induction d as [|[k' v'] d IH]; simpl; [discriminate|].
  destruct (k' =? k) eqn:H.
  - apply String.eqb_eq in H. intros E. inversion E; subst. auto.
  - auto.
Qed.

Lemma lookup_none k d : Dict.lookup k d = None -> ~ In k (Dict.keys d).
Proof.
  induction d as [|[k' v'] d IH]; simpl; [tauto|].
  destruct (k' =? k) eqn:H; [discriminate|].
  apply String.eqb_neq in H. intros E [F|F]; [congruence|exact (IH E F)].
Qed.

Lemma in_lookup k v d : unique_keys d -> In (k, v) d -> Dict.lookup k d = Some v.
Proof.
  unfold unique_keys. induction d as [|[k' v'] d IH]; simpl; [tauto|].
  intros Hn [H|H].
  - inversion H; subst. rewrite String.eqb_refl. reflexivity.
  - inversion Hn as [|x l Hx Hl]; subst.
    destruct (k' =? k) eqn:E.
    + apply String.eqb_eq in E. subst. exfalso. apply Hx.
      apply (in_map fst) in H. exact H.
    + apply IH; assumption.
Qed.

Lemma keys_set k v d :
  Dict.keys (Dict.set k v d)
  = if Dict.has_key k d then Dict.keys d else (Dict.keys d ++ [k])%list.
Proof.
  unfold Dict.has_key.
  induction d as [|[k' v'] d IH]; simpl; [reflexivity|].
  destruct (k' =? k) eqn:E; simpl; [reflexivity|].
  rewrite IH. unfold Dict.keys. destruct (Dict.lookup k d); reflexivity.
Qed.

Lemma unique_keys_set k v d : unique_keys d -> unique_keys (Dict.set k v d).
Proof.
  unfold unique_keys. intros H. rewrite keys_set. unfold Dict.has_key.
  destruct (Dict.lookup k d) eqn:E; [exact H|].
  apply NoDup_app; [exact H|repeat constructor; simpl; tauto|].
  intros x Hx [<-|[]]. exact (lookup_none _ _ E Hx).
Qed.

Lemma alike_refl d : unique_keys d -> alike d d.
Proof. intros H. split; [intros k; reflexivity|auto]. Qed.

Lemma alike_set k v d1 d2 : alike d1 d2 -> alike (Dict.set k v d1) (Dict.set k v d2).
Proof.
  intros (H & U1 & U2). split; [|split; apply unique_keys_set; assumption].
  intros k'. rewrite !lookup_set, H. reflexivity.
Qed.

Lemma alike_has_key k d1 d2 : alike d1 d2 -> Dict.has_key k d1 = Dict.has_key k d2.
Proof. intros (H & _). unfold Dict.has_key. rewrite H. reflexivity. Qed.

Lemma alike_item k d1 d2 : alike d1 d2 -> Package.item k d1 = Package.item k d2.
Proof. intros (H & _). unfold Package.item. rewrite H. reflexivity. Qed.

Lemma alike_set_default k d1 d2 :
  alike d1 d2 -> alike (Package.set_default d1 k) (Package.set_default d2 k).
Proof.
  intros H. unfold Package.set_default. rewrite (alike_has_key k _ _ H).
  destruct (Dict.has_key k d2); [exact H|apply alike_set, H].
Qed.

Lemma alike_defaults l : forall d1 d2,
  alike d1 d2 ->
  alike (fold_left Package.set_default l d1) (fold_left Package.set_default l d2).
Proof.
  induction l as [|k l IH]; intros d1 d2 H; simpl; [exact H|].
  apply IH, alike_set_default, H.
Qed.

(** Two dictionaries that are alike have the same items. *)
Lemma alike_permutation d1 d2 : alike d1 d2 -> Permutation d1 d2.
Proof.
  intros (H & U1 & U2).
  assert (N : forall d, unique_keys d -> NoDup d).
  { intros d U. apply (NoDup_map_inv fst). exact U. }
  apply NoDup_Permutation; [apply N, U1|apply N, U2|].
  intros [k v]. split; intros Hi.
  - apply lookup_in. rewrite <- H. apply in_lookup; assumption.
  - apply lookup_in. rewrite H. apply in_lookup; assumption.
Qed.
(* ================================================================== *)
(** * Facts: [sort_keys] *)

Lemma leb_spec a b : String.leb a b = true <-> OrderedTypeEx.String_as_OT.lt a b \/ a = b.
Proof.
  unfold String.leb.
  pose proof (OrderedTypeEx.String_as_OT.cmp_lt a b) as Hl.
  pose proof (OrderedTypeEx.String_as_OT.cmp_eq a b) as He.
  unfold OrderedTypeEx.String_as_OT.cmp in *.
  destruct (String.compare a b); split; intros H; try reflexivity.
  - right. apply He. reflexivity.
  - left. apply Hl. reflexivity.
  - discriminate.
  - destruct H as [H|H]; [apply Hl in H|apply He in H]; discriminate.
Qed.

Lemma leb_trans a b c :
  String.leb a b = true -> String.leb b c = true -> String.leb a c = true.
Proof.
  rewrite !leb_spec. intros [H1| ->] [H2| ->]; auto.
  left. exact (OrderedTypeEx.String_as_OT.lt_trans _ _ _ H1 H2).
Qed.

Section SortItems.

Let item_le (a b : string * string) : Prop := String.leb (fst a) (fst b) = true.

Lemma insert_item_permutation a l :
  Permutation (json_encoder.insert_item a l) (a :: l).
Proof.
  induction l as [|x l IH]; simpl; [reflexivity|].
  destruct (String.leb (fst a) (fst x)); [reflexivity|].
  rewrite IH. apply perm_swap.
Qed.

Lemma sort_items_permutation l : Permutation (json_encoder.sort_items l) l.
Proof.
  induction l as [|a l IH]; simpl; [reflexivity|].
  rewrite insert_item_permutation. apply perm_skip, IH.
Qed.

Lemma insert_item_sorted a l :
  StronglySorted item_le l -> StronglySorted item_le (json_encoder.insert_item a l).
Proof.
  induction 1 as [|x l Hs IH Hx]; simpl; [repeat constructor|].
  destruct (String.leb (fst a) (fst x)) eqn:E.
  - constructor; [constructor; assumption|].
    constructor; [exact E|].
    eapply Forall_impl; [|exact Hx]. intros y Hy. unfold item_le in *.
    eapply leb_trans; eassumption.
  - constructor; [exact IH|].
    apply (Permutation_Forall (Permutation_sym (insert_item_permutation a l))).
    constructor; [|exact Hx]. unfold item_le.
    destruct (String.leb_total (fst a) (fst x)) as [H|H]; [congruence|exact H].
Qed.

Lemma sort_items_sorted l : StronglySorted item_le (json_encoder.sort_items l).
Proof.
  induction l as [|a l IH]; simpl; [constructor|]. apply insert_item_sorted, IH.
Qed.

Lemma sorted_unique : forall l1 l2,
  StronglySorted item_le l1 -> StronglySorted item_le l2 ->
  Permutation l1 l2 -> NoDup (map fst l1) -> l1 = l2.
Proof.
  induction l1 as [|a l1 IH]; intros l2 S1 S2 P N.
  - apply Permutation_nil in P. congruence.
  - destruct l2 as [|b l2]; [apply Permutation_sym, Permutation_nil in P; discriminate|].
    inversion S1 as [|? ? S1' F1]; subst. inversion S2 as [|? ? S2' F2]; subst.
    assert (Hab : a = b).
    { assert (Ia : In a (b :: l2))
        by (apply (Permutation_in _ P); left; reflexivity).
      assert (Ib : In b (a :: l1))
        by (apply (Permutation_in _ (Permutation_sym P)); left; reflexivity).
      destruct Ia as [Ia|Ia]; [congruence|].
      destruct Ib as [Ib|Ib]; [congruence|].
      rewrite Forall_forall in F1, F2.
      pose proof (F1 _ Ib) as L1. pose proof (F2 _ Ia) as L2.
      pose proof (String.leb_antisym _ _ L1 L2) as Hk.
      exfalso. inversion N as [|? ? Hn _]; subst. apply Hn.
      rewrite Hk. apply in_map, Ib. }
    subst b. f_equal. apply IH; try assumption.
    + exact (Permutation_cons_inv P).
    + inversion N; assumption.
Qed.

Lemma sort_items_unique l1 l2 :
  Permutation l1 l2 -> NoDup (map fst l1) ->
  json_encoder.sort_items l1 = json_encoder.sort_items l2.
Proof.
  intros P N. apply sorted_unique; try apply sort_items_sorted.
  - rewrite !sort_items_permutation. exact P.
  - eapply Permutation_NoDup; [|exact N].
    apply Permutation_map, Permutation_sym, sort_items_permutation.
Qed.

End SortItems.

Lemma encode_items indent level x d :
  json_encoder.encode indent level (JObj (x :: d))
  = "{" ++ json_encoder.enclose indent level
             (map (fun kv => json_encoder.quote (fst kv) ++ ": " ++ snd kv)
                  (json_encoder.sort_items
                     (map (fun kv => (fst kv,
                                      json_encoder.encode indent (S level) (snd kv)))
                          (x :: d))))
        ++ "}".
Proof. reflexivity. Qed.

(** The document of a dictionary does not depend on the order of its
    fields. *)
Lemma encode_alike indent level d1 d2 :
  alike d1 d2 ->
  json_encoder.encode indent level (JObj d1) = json_encoder.encode indent level (JObj d2).
Proof.
  intros H. pose proof (alike_permutation _ _ H) as P.
  destruct H as (_ & U1 & _).
  destruct d1 as [|x1 d1], d2 as [|x2 d2]; try reflexivity.
  - apply Permutation_nil in P. discriminate.
  - apply Permutation_sym, Permutation_nil in P. discriminate.
  - rewrite !encode_items.
    rewrite (sort_items_unique
               (map (fun kv => (fst kv, json_encoder.encode indent (S level) (snd kv)))
                    (x1 :: d1))
               (map (fun kv => (fst kv, json_encoder.encode indent (S level) (snd kv)))
                    (x2 :: d2))).
    + reflexivity.
    + apply Permutation_map, P.
    + rewrite map_map. exact U1.
Qed.

Lemma digest_alike d1 d2 :
  alike d1 d2 -> Package.document_sha1_digest d1 = Package.document_sha1_digest d2.
Proof.
  intros H. unfold Package.document_sha1_digest, json_encoder.dumps.
  rewrite (encode_alike None 0 d1 d2 H). reflexivity.
Qed.
(* ================================================================== *)
(** * Facts: the normalised descriptor up to the order of the fields *)

Lemma agree_rbind (r1 r2 : result dict) (k1 k2 : dict -> result dict) :
  agree r1 r2 ->
  (forall a b, alike a b -> agree (k1 a) (k2 b)) ->
  agree (rbind r1 k1) (rbind r2 k2).
Proof.
  destruct r1 as [a|e1], r2 as [b|e2]; simpl; intros H K; try contradiction.
  - apply K, H.
  - exact H.
Qed.

Lemma agree_let (a b : dict) (f g : dict -> result dict) :
  alike a b ->
  (forall x y, alike x y -> agree (f x) (g y)) ->
  agree (let x := a in f x) (let y := b in g y).
Proof. intros H K. apply K, H. Qed.

Lemma agree_ok a b : alike a b -> agree (Ok a) (Ok b).
Proof. intros H. exact H. Qed.

Lemma agree_raise e : agree (Raise e) (Raise e).
Proof. reflexivity. Qed.

Lemma rbind_ok {A B} (a : A) (k : A -> result B) : rbind (Ok a) k = k a.
Proof. reflexivity. Qed.

Lemma rbind_raise {A B} e (k : A -> result B) : rbind (Raise e) k = Raise e.
Proof. reflexivity. Qed.

Ltac alike_tac := solve [eauto 20 using alike_set, alike_defaults].

Ltac sync_step :=
  match goal with
  | |- context [if ?c then Dict.set _ _ _ else _] => destruct c
  | |- context [Package.item ?k ?a] =>
      rewrite (alike_item k a _ ltac:(alike_tac))
  | |- agree (let x := ?a in @?f x) (let y := ?b in @?g y) =>
      apply (agree_let a b f g); [|intros ? ? ?; cbv beta]
  | |- agree (Ok _) (Ok _) => apply agree_ok; alike_tac
  | |- agree (Raise _) (Raise _) => apply agree_raise
  | |- alike (if ?c then _ else _) (if ?c then _ else _) => destruct c
  | |- alike _ _ => alike_tac
  | |- agree (rbind ?r _) (rbind ?r _) =>
      destruct r as [?|?];
      [rewrite !rbind_ok; cbv beta|rewrite !rbind_raise; apply agree_raise]
  | |- agree (rbind _ _) (rbind _ _) =>
      apply agree_rbind; [|intros ? ? ?; cbv beta]
  | |- agree (if ?c then _ else _) (if ?c then _ else _) => destruct c
  | |- agree (let '(_, _) := ?x in _) (let '(_, _) := ?x in _) =>
      destruct x; cbv beta iota
  end.

Ltac sync := repeat sync_step.

Section Normalize.

Variable E : oracle.
Variable pl : pipeline.

Lemma normalize_remote_alike d1 d2 :
  alike d1 d2 ->
  agree (Package.normalize_remote pl d1) (Package.normalize_remote pl d2).
Proof.
  intros H. unfold Package.normalize_remote. sync.
Qed.

Lemma normalize_alike d1 d2 :
  alike d1 d2 -> agree (Package.normalize E pl d1) (Package.normalize E pl d2).
Proof.
  intros H. unfold Package.normalize.
  repeat first
    [ sync_step
    | match goal with
      | |- agree (Package.normalize_remote _ _) (Package.normalize_remote _ _) =>
          apply normalize_remote_alike; alike_tac
      end ].
Qed.

(** Two descriptors with the same fields give the same digest. *)
Lemma normalize_digest d1 d2 n1 :
  alike d1 d2 ->
  Package.normalize E pl d1 = Ok n1 ->
  exists n2,
    Package.normalize E pl d2 = Ok n2 /\ alike n1 n2 /\
    Package.document_sha1_digest n2 = Package.document_sha1_digest n1.
Proof.
  intros H Hn. pose proof (normalize_alike d1 d2 H) as Ha. rewrite Hn in Ha.
  destruct (Package.normalize E pl d2) as [n2|e]; [|contradiction].
  exists n2. split; [reflexivity|]. split; [exact Ha|].
  symmetry. apply digest_alike, Ha.
Qed.

End Normalize.

Lemma permutation_alike d1 d2 :
  Permutation d1 d2 -> unique_keys d1 -> alike d1 d2.
Proof.
  intros P U1.
  assert (U2 : unique_keys d2).
  { unfold unique_keys, Dict.keys in *.
    eapply Permutation_NoDup; [|exact U1]. apply Permutation_map, P. }
  split; [|split; assumption].
  intros k. destruct (Dict.lookup k d1) as [v|] eqn:L1.
  - symmetry. apply in_lookup; [exact U2|].
    apply (Permutation_in _ P), lookup_in, L1.
  - destruct (Dict.lookup k d2) as [v|] eqn:L2; [|reflexivity].
    apply lookup_in in L2. apply (Permutation_in _ (Permutation_sym P)) in L2.
    rewrite (in_lookup _ _ _ U1 L2) in L1. discriminate.
Qed.

(* ================================================================== *)
(** * Facts: the record [__init__] makes *)

Lemma lookup_fresh_progress k node :
  is_flag k = true -> Dict.lookup k (Package.fresh_progress node) = Some (JBool false).
Proof.
  unfold Package.fresh_progress, is_flag. rewrite !lookup_set.
  intros H.
  destruct (k =? "installed"); [reflexivity|].
  destruct (k =? "built"); [reflexivity|].
  destruct (k =? "configured"); [reflexivity|].
  destruct (k =? "unpacked"); [reflexivity|discriminate].
Qed.

Section Init.

Variable E : oracle.
Variable c : job_implementation.
Variable pl : pipeline.

Lemma init_known d n s packages :
  Package.normalize E pl d = Ok n ->
  jget (persisted_instruction pl ++ ["package"]) (cache s) = Some (JObj packages) ->
  Dict.has_key (Package.document_sha1_digest n) packages = true ->
  Package.__init__ E c pl d s
  = (Ok ({| class := c; the_pipeline := pl;
            digest := Package.document_sha1_digest n |},
         Dict.set "document sha1 digest"
                  (JStr (Package.document_sha1_digest n)) n), s).
Proof.
  intros Hn Hj Hk. unfold Package.__init__, bind, lift, get_state.
  rewrite Hn. cbv beta iota zeta. rewrite Hj, Hk. reflexivity.
Qed.

Lemma init_fresh d n s packages :
  Package.normalize E pl d = Ok n ->
  jget (persisted_instruction pl ++ ["package"]) (cache s) = Some (JObj packages) ->
  Dict.has_key (Package.document_sha1_digest n) packages = false ->
  exists node s',
    Package.__init__ E c pl d s
    = (Ok ({| class := c; the_pipeline := pl;
              digest := Package.document_sha1_digest n |}, node), s') /\
    cleared {| class := c; the_pipeline := pl;
               digest := Package.document_sha1_digest n |} s' /\
    fs s' = fs s /\ trace s' = trace s.
Proof.
  intros Hn Hj Hk. unfold Package.__init__, bind, lift, get_state.
  rewrite Hn. cbv beta iota zeta. rewrite Hj, Hk. cbn [negb].
  unfold set_cache, ret. eexists. eexists. split; [reflexivity|].
  split; [|split; reflexivity].
  set (self := {| class := c; the_pipeline := pl;
                  digest := Package.document_sha1_digest n |}).
  set (node := Package.fresh_progress
                 (Dict.set "document sha1 digest"
                           (JStr (Package.document_sha1_digest n)) n)).
  assert (F : forall k, field self k
                {| fs := fs s; trace := trace s; ontology := ontology s;
                   cache := jset (node_path self) (JObj node) (cache s) |}
              = Dict.lookup k node).
  { intros k. unfold field, node_path. cbn [cache the_pipeline digest self].
    assert (P : (persisted_instruction pl
                   ++ ["package"; Package.document_sha1_digest n])%list
                = ((persisted_instruction pl ++ ["package"])
                     ++ [Package.document_sha1_digest n])%list)
      by (rewrite <- app_assoc; reflexivity).
    rewrite P, jget_app, jget_app.
    rewrite (jget_jset_node _ _ _ _ _ Hj). simpl.
    rewrite lookup_set_same. destruct (Dict.lookup k node); reflexivity. }
  unfold cleared, stage_keys.
  repeat constructor; rewrite F; apply lookup_fresh_progress; reflexivity.
Qed.

End Init.

(* ================================================================== *)
(** * Facts: the serialisation tells values apart *)

Lemma sapp_assoc (a b c : string) : (a ++ b) ++ c = a ++ (b ++ c).
Proof. induction a as [|x a IH]; simpl; [reflexivity|rewrite IH; reflexivity]. Qed.

Lemma sapp_inv_head (a x y : string) : a ++ x = a ++ y -> x = y.
Proof.
  induction a as [|c a IH]; simpl; intros H; [exact H|].
  injection H as H. exact (IH H).
Qed.

Lemma string_cons_inj c (x y : string) : String c x = String c y -> x = y.
Proof. intros H. injection H as H. exact H. Qed.

Lemma json_induction (P : json -> Prop) :
  P JNull -> (forall b, P (JBool b)) -> (forall s, P (JStr s)) ->
  (forall l, Forall P l -> P (JList l)) ->
  (forall d, Forall (fun kv => P (snd kv)) d -> P (JObj d)) ->
  forall j, P j.
Proof.
  intros Hn Hb Hs Hl Hd. fix IH 1. intros [|b|s|l|d].
  - exact Hn.
  - apply Hb.
  - apply Hs.
  - apply Hl. induction l as [|a l IHl]; constructor; [apply IH|exact IHl].
  - apply Hd. induction d as [|[k v] d IHd]; constructor; [apply IH|exact IHd].
Qed.

(** Every character of a string of a serialisation reads back. *)
Lemma unescape_escape_char c x :
  json_decoder.unescape_char (json_encoder.escape_char c ++ x) = Some (c, x).
Proof.
  destruct c as [[] [] [] [] [] [] [] []]; vm_compute; reflexivity.
Qed.

Lemma unescape_dquote x :
  json_decoder.unescape_char (json_encoder.dquote ++ x) = None.
Proof. reflexivity. Qed.

(** A string of a serialisation ends at its closing quote. *)
Lemma escape_inj : forall s1 s2 r1 r2,
  json_encoder.escape s1 ++ json_encoder.dquote ++ r1
  = json_encoder.escape s2 ++ json_encoder.dquote ++ r2 ->
  s1 = s2 /\ r1 = r2.
Proof.
  induction s1 as [|c1 s1 IH]; intros [|c2 s2] r1 r2 H.
  - split; [reflexivity|]. exact (sapp_inv_head json_encoder.dquote _ _ H).
  - exfalso. cbn [json_encoder.escape] in H. rewrite sapp_assoc in H.
    apply (f_equal json_decoder.unescape_char) in H.
    rewrite unescape_escape_char in H. cbn [append] in H.
    rewrite unescape_dquote in H. discriminate.
  - exfalso. cbn [json_encoder.escape] in H. rewrite sapp_assoc in H.
    apply (f_equal json_decoder.unescape_char) in H.
    rewrite unescape_escape_char in H. cbn [append] in H.
    rewrite unescape_dquote in H. discriminate.
  - cbn [json_encoder.escape] in H. rewrite !sapp_assoc in H.
    apply (f_equal json_decoder.unescape_char) in H.
    rewrite !unescape_escape_char in H. injection H as Hc Hr. subst c2.
    destruct (IH _ _ _ Hr) as [Hs Hr']. subst. split; reflexivity.
Qed.

Lemma quote_inj s1 s2 r1 r2 :
  json_encoder.quote s1 ++ r1 = json_encoder.quote s2 ++ r2 ->
  s1 = s2 /\ r1 = r2.
Proof.
  unfold json_encoder.quote. rewrite !sapp_assoc. intros H.
  apply sapp_inv_head in H. exact (escape_inj _ _ _ _ H).
Qed.

Lemma join_one sep (x : string) : Py.join sep [x] = x.
Proof. reflexivity. Qed.

Lemma join_more sep (x y : string) l :
  Py.join sep (x :: y :: l) = x ++ sep ++ Py.join sep (y :: l).
Proof. reflexivity. Qed.

(** The items between two brackets: each item ends where a comma or the
    closing bracket follows. *)
Lemma join_inj {A B} (f : A -> string) (g : A -> B) (close : ascii) :
  close <> ","%char ->
  forall l1,
    Forall (fun a => forall b r1 r2,
              f a ++ r1 = f b ++ r2 -> g a = g b /\ r1 = r2) l1 ->
    forall l2 r1 r2,
      l1 <> [] -> l2 <> [] ->
      Py.join ", " (map f l1) ++ String close r1
      = Py.join ", " (map f l2) ++ String close r2 ->
      map g l1 = map g l2 /\ r1 = r2.
Proof.
  intros Hclose. induction l1 as [|a l1 IH]; intros HF l2 r1 r2 H1 H2 H;
    [contradiction|].
  destruct l2 as [|b l2]; [contradiction|].
  inversion HF as [|? ? Ha HF']. subst.
  destruct l1 as [|a' l1], l2 as [|b' l2]; cbn [map] in H |- *.
  - rewrite !join_one in H. destruct (Ha _ _ _ H) as [Hg Hr].
    injection Hr as Hr. rewrite Hg. split; [reflexivity|exact Hr].
  - exfalso. rewrite join_one, join_more, !sapp_assoc in H.
    destruct (Ha _ _ _ H) as [_ Hr]. cbn [append] in Hr.
    injection Hr as Hc _. exact (Hclose Hc).
  - exfalso. rewrite join_one, join_more, !sapp_assoc in H.
    destruct (Ha _ _ _ H) as [_ Hr]. cbn [append] in Hr.
    injection Hr as Hc _. exact (Hclose (eq_sym Hc)).
  - rewrite !join_more, !sapp_assoc in H.
    destruct (Ha _ _ _ H) as [Hg Hr]. cbn [append] in Hr.
    injection Hr as Hr.
    destruct (IH HF' (b' :: l2) r1 r2 ltac:(discriminate) ltac:(discriminate) Hr)
      as [Hm Hr'].
    cbn [map] in Hm. rewrite Hg, Hm. split; [reflexivity|exact Hr'].
Qed.

Lemma encode_list_cons level a l :
  json_encoder.encode None level (JList (a :: l))
  = String "["%char
      (Py.join ", " (map (json_encoder.encode None (S level)) (a :: l))
         ++ String "]"%char EmptyString).
Proof. reflexivity. Qed.

Lemma insert_item_field (f : json -> string) kv d :
  json_encoder.insert_item (fst kv, f (snd kv))
    (map (fun x => (fst x, f (snd x))) d)
  = map (fun x => (fst x, f (snd x))) (insert_field kv d).
Proof.
  induction d as [|x d IH]; simpl; [reflexivity|].
  destruct (String.leb (fst kv) (fst x)); simpl; [reflexivity|].
  rewrite IH. reflexivity.
Qed.

Lemma sort_items_fields (f : json -> string) d :
  json_encoder.sort_items (map (fun x => (fst x, f (snd x))) d)
  = map (fun x => (fst x, f (snd x))) (sort_fields d).
Proof.
  induction d as [|kv d IH]; [reflexivity|].
  change (json_encoder.sort_items (map (fun x => (fst x, f (snd x))) (kv :: d)))
    with (json_encoder.insert_item (fst kv, f (snd kv))
            (json_encoder.sort_items (map (fun x => (fst x, f (snd x))) d))).
  rewrite IH. exact (insert_item_field f kv (sort_fields d)).
Qed.

Lemma insert_field_map (f : json -> json) kv d :
  insert_field (fst kv, f (snd kv)) (map (fun x => (fst x, f (snd x))) d)
  = map (fun x => (fst x, f (snd x))) (insert_field kv d).
Proof.
  induction d as [|x d IH]; simpl; [reflexivity|].
  destruct (String.leb (fst kv) (fst x)); simpl; [reflexivity|].
  rewrite IH. reflexivity.
Qed.

Lemma sort_fields_map (f : json -> json) d :
  sort_fields (map (fun x => (fst x, f (snd x))) d)
  = map (fun x => (fst x, f (snd x))) (sort_fields d).
Proof.
  induction d as [|kv d IH]; [reflexivity|].
  change (sort_fields (map (fun x => (fst x, f (snd x))) (kv :: d)))
    with (insert_field (fst kv, f (snd kv))
            (sort_fields (map (fun x => (fst x, f (snd x))) d))).
  rewrite IH. exact (insert_field_map f kv (sort_fields d)).
Qed.

Lemma insert_field_permutation kv d : Permutation (insert_field kv d) (kv :: d).
Proof.
  induction d as [|x d IH]; simpl; [reflexivity|].
  destruct (String.leb (fst kv) (fst x)); [reflexivity|].
  rewrite IH. apply perm_swap.
Qed.

Lemma sort_fields_permutation d : Permutation (sort_fields d) d.
Proof.
  induction d as [|kv d IH]; simpl; [reflexivity|].
  rewrite insert_field_permutation. constructor. exact IH.
Qed.

Lemma sort_fields_cons kv d : sort_fields (kv :: d) <> [].
Proof.
  intros H. pose proof (sort_fields_permutation (kv :: d)) as P.
  rewrite H in P. exact (Permutation_nil_cons P).
Qed.

Lemma encode_obj_cons level a d :
  json_encoder.encode None level (JObj (a :: d))
  = String "{"%char
      (Py.join ", "
         (map (fun kv => json_encoder.quote (fst kv) ++ ": "
                           ++ json_encoder.encode None (S level) (snd kv))
              (sort_fields (a :: d)))
         ++ String "}"%char EmptyString).
Proof.
  change (json_encoder.encode None level (JObj (a :: d)))
    with (String "{"%char
            (Py.join ", "
               (map (fun kv => json_encoder.quote (fst kv) ++ ": " ++ snd kv)
                  (json_encoder.sort_items
                     (map (fun kv => (fst kv,
                                      json_encoder.encode None (S level) (snd kv)))
                          (a :: d))))
               ++ String "}"%char EmptyString)).
  rewrite (sort_items_fields (json_encoder.encode None (S level))), map_map.
  reflexivity.
Qed.

Lemma canonical_obj d :
  canonical (JObj d)
  = JObj (map (fun kv => (fst kv, canonical (snd kv))) (sort_fields d)).
Proof.
  change (canonical (JObj d))
    with (JObj (sort_fields (map (fun kv => (fst kv, canonical (snd kv))) d))).
  rewrite (sort_fields_map canonical). reflexivity.
Qed.

Lemma sapp_nil_r (a : string) : a ++ "" = a.
Proof. induction a as [|x a IH]; simpl; [reflexivity|rewrite IH; reflexivity]. Qed.

Lemma join_head sep (x : string) l : exists t, Py.join sep (x :: l) = x ++ t.
Proof.
  destruct l as [|y l].
  - exists "". rewrite sapp_nil_r. reflexivity.
  - eexists. apply join_more.
Qed.

(** No serialisation starts with a closing bracket. *)
Lemma encode_head level j :
  exists c t,
    json_encoder.encode None level j = String c t /\
    c <> "]"%char /\ c <> "}"%char.
Proof.
  destruct j as [|[]|s|[|a l]|[|a d]];
    rewrite ?encode_list_cons, ?encode_obj_cons;
    cbn [json_encoder.encode json_encoder.quote json_encoder.dquote append];
    eexists _, _; (split; [reflexivity|split; discriminate]).
Qed.

Lemma list_not_empty level a l r1 r2 :
  "[]" ++ r1 = json_encoder.encode None level (JList (a :: l)) ++ r2 -> False.
Proof.
  rewrite encode_list_cons. cbn [append map]. intros H. injection H as H.
  destruct (join_head ", " (json_encoder.encode None (S level) a)
              (map (json_encoder.encode None (S level)) l)) as [t Ht].
  rewrite Ht, !sapp_assoc in H.
  destruct (encode_head (S level) a) as (c & t0 & He & Hc & _).
  rewrite He in H. cbn [append] in H. injection H as H _. congruence.
Qed.

Lemma obj_not_empty level a d r1 r2 :
  "{}" ++ r1 = json_encoder.encode None level (JObj (a :: d)) ++ r2 -> False.
Proof.
  rewrite encode_obj_cons. cbn [append]. intros H.
  apply string_cons_inj in H.
  destruct (sort_fields (a :: d)) as [|x l] eqn:Hs;
    [exact (sort_fields_cons _ _ Hs)|].
  cbn [map] in H.
  match type of H with
  | _ = (Py.join ?sep (?y :: ?m) ++ _) ++ _ =>
      destruct (join_head sep y m) as [t Ht]; rewrite Ht in H
  end.
  unfold json_encoder.quote, json_encoder.dquote in H.
  rewrite !sapp_assoc in H. cbn [append] in H.
  injection H as Hc _. vm_compute in Hc. discriminate Hc.
Qed.

Ltac heads_differ H :=
  exfalso;
  rewrite ?encode_list_cons, ?encode_obj_cons in H;
  cbn [json_encoder.encode json_encoder.quote json_encoder.dquote append] in H;
  discriminate H.

(** Two values with the same serialisation are the same, up to the order
    of the items of their dictionaries; and a serialisation ends where the
    value ends. *)
Lemma encode_inj : forall j1 level j2 r1 r2,
  json_encoder.encode None level j1 ++ r1
  = json_encoder.encode None level j2 ++ r2 ->
  canonical j1 = canonical j2 /\ r1 = r2.
Proof.
  induction j1 as [|b1|s1|l1 IH|d1 IH] using json_induction;
    intros level j2 r1 r2 H.
  - destruct j2 as [|[]|s2|[|a2 l2]|[|a2 d2]]; try heads_differ H.
    split; [reflexivity|]. exact (sapp_inv_head "null" _ _ H).
  - destruct b1; destruct j2 as [|[]|s2|[|a2 l2]|[|a2 d2]]; try heads_differ H.
    + split; [reflexivity|]. exact (sapp_inv_head "true" _ _ H).
    + split; [reflexivity|]. exact (sapp_inv_head "false" _ _ H).
  - destruct j2 as [|[]|s2|[|a2 l2]|[|a2 d2]]; try heads_differ H.
    cbn [json_encoder.encode] in H.
    destruct (quote_inj _ _ _ _ H) as [Hs Hr]. subst. split; reflexivity.
  - destruct l1 as [|a1 l1];
      destruct j2 as [|[]|s2|[|a2 l2]|[|a2 d2]]; try heads_differ H;
      try (exfalso; exact (list_not_empty _ _ _ _ _ H));
      try (exfalso; exact (list_not_empty _ _ _ _ _ (eq_sym H))).
    + split; [reflexivity|]. exact (sapp_inv_head "[]" _ _ H).
    + rewrite !encode_list_cons in H. cbn [append] in H.
      apply string_cons_inj in H.
      rewrite !sapp_assoc in H. cbn [append] in H.
      assert (HF : Forall
                     (fun a => forall b q1 q2,
                        json_encoder.encode None (S level) a ++ q1
                        = json_encoder.encode None (S level) b ++ q2 ->
                        canonical a = canonical b /\ q1 = q2) (a1 :: l1)).
      { apply Forall_forall. intros a Ha b q1 q2 Hq.
        rewrite Forall_forall in IH. exact (IH a Ha (S level) b q1 q2 Hq). }
      destruct (join_inj (json_encoder.encode None (S level)) canonical "]"%char
                  ltac:(discriminate) (a1 :: l1) HF (a2 :: l2) r1 r2
                  ltac:(discriminate) ltac:(discriminate) H) as [Hm Hr].
      split; [|exact Hr].
      change (JList (map canonical (a1 :: l1)) = JList (map canonical (a2 :: l2))).
      rewrite Hm. reflexivity.
  - destruct d1 as [|a1 d1];
      destruct j2 as [|[]|s2|[|a2 l2]|[|a2 d2]]; try heads_differ H;
      try (exfalso; exact (obj_not_empty _ _ _ _ _ H));
      try (exfalso; exact (obj_not_empty _ _ _ _ _ (eq_sym H))).
    + split; [reflexivity|]. exact (sapp_inv_head "{}" _ _ H).
    + rewrite !encode_obj_cons in H. cbn [append] in H.
      apply string_cons_inj in H.
      rewrite !sapp_assoc in H. cbn [append] in H.
      assert (HF : Forall
                     (fun a : string * json => forall b q1 q2,
                        (json_encoder.quote (fst a) ++ ": "
                           ++ json_encoder.encode None (S level) (snd a)) ++ q1
                        = (json_encoder.quote (fst b) ++ ": "
                             ++ json_encoder.encode None (S level) (snd b)) ++ q2 ->
                        (fst a, canonical (snd a)) = (fst b, canonical (snd b))
                        /\ q1 = q2) (sort_fields (a1 :: d1))).
      { rewrite (sort_fields_permutation (a1 :: d1)).
        apply Forall_forall. intros a Ha b q1 q2 Hq.
        rewrite Forall_forall in IH. rewrite !sapp_assoc in Hq.
        destruct (quote_inj _ _ _ _ Hq) as [Hk Hv].
        cbn [append] in Hv. apply string_cons_inj in Hv.
        apply string_cons_inj in Hv.
        destruct (IH a Ha (S level) _ _ _ Hv) as [Hc Hq'].
        split; [|exact Hq']. rewrite Hk, Hc. reflexivity. }
      destruct (join_inj _ (fun kv : string * json => (fst kv, canonical (snd kv)))
                  "}"%char ltac:(discriminate) _ HF (sort_fields (a2 :: d2)) r1 r2
                  (sort_fields_cons _ _) (sort_fields_cons _ _) H) as [Hm Hr].
      split; [|exact Hr]. rewrite !canonical_obj, Hm. reflexivity.
Qed.

Lemma lookup_canonical k d :
  Dict.lookup k (map (fun kv => (fst kv, canonical (snd kv))) d)
  = option_map canonical (Dict.lookup k d).
Proof.
  induction d as [|[a v] d IH]; simpl; [reflexivity|].
  destruct (a =? k); [reflexivity|exact IH].
Qed.

Lemma keys_canonical d :
  Dict.keys (map (fun kv => (fst kv, canonical (snd kv))) d) = Dict.keys d.
Proof. unfold Dict.keys. rewrite map_map. reflexivity. Qed.

(** Two dictionaries with the same serialisation have the same fields with
    the same values. *)
Lemma dumps_injective n1 n2 :
  unique_keys n1 -> unique_keys n2 ->
  json_encoder.dumps (JObj n1) = json_encoder.dumps (JObj n2) ->
  forall k,
    option_map canonical (Dict.lookup k n1)
    = option_map canonical (Dict.lookup k n2).
Proof.
  intros U1 U2 H k. unfold json_encoder.dumps in H.
  assert (H' : json_encoder.encode None 0 (JObj n1) ++ ""
               = json_encoder.encode None 0 (JObj n2) ++ "")
    by (rewrite H; reflexivity).
  destruct (encode_inj _ _ _ _ _ H') as [Hc _].
  change (JObj (sort_fields (map (fun kv => (fst kv, canonical (snd kv))) n1))
          = JObj (sort_fields (map (fun kv => (fst kv, canonical (snd kv))) n2)))
    in Hc.
  injection Hc as Hc.
  assert (P : Permutation (map (fun kv => (fst kv, canonical (snd kv))) n1)
                          (map (fun kv => (fst kv, canonical (snd kv))) n2)).
  { rewrite <- (sort_fields_permutation (map _ n1)), Hc.
    apply sort_fields_permutation. }
  assert (U : unique_keys (map (fun kv => (fst kv, canonical (snd kv))) n1)).
  { unfold unique_keys. rewrite keys_canonical. exact U1. }
  destruct (permutation_alike _ _ P U) as [S _].
  rewrite <- !lookup_canonical. apply S.
Qed.
(* ================================================================== *)
(** * Facts: the digests are finitely many *)

Lemma hex_digit_in x : In (hashlib.hex_digit x) hex_digits.
Proof.
  destruct x as [|p|p];
    [| do 4 (try destruct p as [p|p|]) |];
    cbv; repeat (first [left; reflexivity | right]).
Qed.

Lemma hex_texts_cons c w n :
  In c hex_digits -> In w (hex_texts n) -> In (String c w) (hex_texts (S n)).
Proof.
  intros Hc Hw.
  change (hex_texts (S n))
    with (flat_map (fun c => map (String c) (hex_texts n)) hex_digits).
  apply in_flat_map. exists c. split; [exact Hc|]. apply in_map. exact Hw.
Qed.

Lemma hex_texts_app : forall n a,
  In a (hex_texts n) ->
  forall m b, In b (hex_texts m) -> In (a ++ b) (hex_texts (n + m)).
Proof.
  induction n as [|n IH]; intros a Ha m b Hb.
  - destruct Ha as [Ha|[]]. subst a. exact Hb.
  - change (hex_texts (S n))
      with (flat_map (fun c => map (String c) (hex_texts n)) hex_digits) in Ha.
    apply in_flat_map in Ha. destruct Ha as (c & Hc & Ha).
    apply in_map_iff in Ha. destruct Ha as (a' & Heq & Ha'). subst a.
    change (In (String c (a' ++ b)) (hex_texts (S (n + m)))).
    apply hex_texts_cons; [exact Hc|]. exact (IH a' Ha' m b Hb).
Qed.

Lemma hex_word_in x : In (hashlib.hex_word x) (hex_texts 8).
Proof.
  unfold hashlib.hex_word. cbn [seq map string_of_list_ascii].
  repeat (apply hex_texts_cons; [apply hex_digit_in|]).
  left. reflexivity.
Qed.

(** Every digest is one of the texts of forty digits. *)
Lemma sha1_in content : In (hashlib.sha1 content) (hex_texts 40).
Proof.
  unfold hashlib.sha1.
  destruct (hashlib.blocks _ _ _) as [[[[h0 h1] h2] h3] h4].
  apply (hex_texts_app 8 _ (hex_word_in h0) 32).
  apply (hex_texts_app 8 _ (hex_word_in h1) 24).
  apply (hex_texts_app 8 _ (hex_word_in h2) 16).
  apply (hex_texts_app 8 _ (hex_word_in h3) 8).
  apply hex_word_in.
Qed.

Section Pigeonhole.

Variable f : nat -> string.
Variable outs : list string.
Hypothesis f_in : forall i, In (f i) outs.

Lemma repeated_or_not (l : list nat) :
  NoDup l -> (exists i j, i <> j /\ f i = f j) \/ NoDup (map f l).
Proof.
  induction l as [|a l IH]; intros H.
  - right. constructor.
  - inversion H as [|? ? Ha Hl]. subst.
    destruct (IH Hl) as [Hd|Hn]; [left; exact Hd|].
    destruct (in_dec string_dec (f a) (map f l)) as [Hi|Hi].
    + left. apply in_map_iff in Hi. destruct Hi as (j & Hj & Hjl).
      exists j, a. split; [|exact Hj]. intros Heq. subst j. exact (Ha Hjl).
    + right. cbn [map]. constructor; assumption.
Qed.

(** Numbers are more than texts in a list: two of them have the same
    text. *)
Lemma pigeonhole : exists i j, i <> j /\ f i = f j.
Proof.
  destruct (repeated_or_not (seq 0 (S (List.length outs))) (seq_NoDup _ _))
    as [H|H]; [exact H|].
  exfalso.
  assert (Hi : incl (map f (seq 0 (S (List.length outs)))) outs).
  { intros x Hx. apply in_map_iff in Hx. destruct Hx as (i & Hi & _).
    subst x. apply f_in. }
  pose proof (NoDup_incl_length H Hi) as Hl.
  rewrite length_map, length_seq in Hl. lia.
Qed.

End Pigeonhole.

Lemma zeros_length n : String.length (SampleDigest.zeros n) = n.
Proof. induction n as [|n IH]; simpl; [reflexivity|rewrite IH; reflexivity]. Qed.

Lemma normalize_with_checksum w :
  exists n,
    Package.normalize Sample.E Sample.pl (SampleDigest.with_checksum w) = Ok n.
Proof.
  destruct (Package.normalize Sample.E Sample.pl (SampleDigest.with_checksum w))
    as [n|e] eqn:H; [exists n; reflexivity|].
  exfalso. vm_compute in H. discriminate H.
Qed.

Lemma digest_with_checksum w :
  exists content,
    SampleDigest.digest_of (SampleDigest.with_checksum w)
    = Ok (hashlib.sha1 content).
Proof.
  destruct (normalize_with_checksum w) as [n Hn].
  exists (json_encoder.dumps (JObj n)).
  unfold SampleDigest.digest_of. rewrite Hn. reflexivity.
Qed.



